(** * plugin-penpot: retry executor, cleanup registry, error classifier,
      processing pipeline and job store

A shallow embedding of the TypeScript sources

- [utils/retry.ts]                      ([Retry], [RetryResults])
- [utils/cleanup.ts]                    ([Cleanup])
- [utils/errors.ts]                     ([Errors], [AppErrors])
- [services/ApiService.ts]              ([Api])
- [services/BackgroundRemovalService.ts] ([Pipeline])
- [stores/processingStore.ts]           ([Store])
- [composables/useProcessingController.ts] ([Controller])
- [composables/useErrorHandler.ts]      ([ErrorHandler])
- [App.vue], the processing handlers    ([App])

Conventions.  JavaScript numbers that the code only uses as integers
(attempt counters, milliseconds, HTTP status codes, timestamps, progress
percentages) are [Z]; the two places that divide or scale ([Math.round] of
a jittered delay, the aggregate progress) are computed in [Q], i.e. with
exact arithmetic instead of IEEE doubles.  Strings are [string] (bytes),
and [toLowerCase] is the ASCII one.  Asynchronous code is sequential here:
an [await] is a call that transforms the world. *)

From Stdlib Require Import ZArith QArith Qround List String Ascii Bool Lia.
From Stdlib Require Import DecimalString Sorted Lqa.
Import ListNotations.

Local Open Scope string_scope.
Local Open Scope list_scope.
Local Open Scope Z_scope.

(* ===================================================================== *)
(** ** JavaScript values that reach the error handlers *)
(* ===================================================================== *)

Module Js.

(** [ErrorCode] of utils/errors.ts. *)
Inductive ErrorCode :=
| UNAUTHENTICATED
| SESSION_EXPIRED
| INSUFFICIENT_CREDITS
| NETWORK_ERROR
| TIMEOUT
| PROCESSING_FAILED
| EXPORT_FAILED
| CANCELLED
| UNKNOWN.

(** What a [catch (error: unknown)] can receive.  Every constructor but
    the last is an object with [Error.prototype] on its prototype chain
    ([DOMException] included, as WebIDL prescribes); [JsNonError] stands
    for everything else (strings, numbers, [null], [undefined], plain
    objects), of which the handlers only observe that no [instanceof] test
    succeeds. *)
Inductive JsValue :=
| DOMException (message name : string)
| TypeError (message : string)
| ApiError (message : string) (status : Z) (code : option string)
| TimeoutError (message : string)
| ImageProcessingError (message : string)
| AppError (message : string) (code : ErrorCode) (userMessage : string)
           (recoverable : bool)
| Error (message : string)
| JsNonError (description : string).

(** [error instanceof Error ? error.message : <none>]. *)
Definition error_message (error : JsValue) : option string :=
  match error with
  | DOMException m _ | TypeError m | ApiError m _ _ | TimeoutError m
  | ImageProcessingError m | AppError m _ _ _ | Error m => Some m
  | JsNonError _ => None
  end.

(** [error instanceof DOMException && error.name === 'AbortError']. *)
Definition isAbortError (error : JsValue) : bool :=
  match error with
  | DOMException _ name => String.eqb name "AbortError"
  | _ => false
  end.

(** [String.prototype.includes]. *)
Fixpoint includes (s sub : string) : bool :=
  if String.prefix sub s then true
  else match s with
       | EmptyString => false
       | String _ s' => includes s' sub
       end.

Definition lower_ascii (c : ascii) : ascii :=
  let n := nat_of_ascii c in
  if (Nat.leb 65 n && Nat.leb n 90)%bool then ascii_of_nat (n + 32) else c.

(** [String.prototype.toLowerCase] on ASCII text. *)
Fixpoint toLowerCase (s : string) : string :=
  match s with
  | EmptyString => EmptyString
  | String c s' => String (lower_ascii c) (toLowerCase s')
  end.

(** Template-literal rendering [`${n}`] of an integer. *)
Definition number_to_string (n : Z) : string :=
  NilZero.string_of_int (Z.to_int n).

(** [Math.round]: the nearest integer, halves towards +infinity. *)
Definition Math_round (x : Q) : Z := Qfloor (x + (1 # 2))%Q.

(** Outcome of an awaited call: it resolves with a value or rejects. *)
Inductive Res (A : Type) :=
| Ok (a : A)
| Throw (e : JsValue).
Arguments Ok {A} a.
Arguments Throw {A} e.

End Js.
Import Js.

(* ===================================================================== *)
(** ** Effects: a world, thrown values and a log of observable calls *)
(* ===================================================================== *)

(** [ProcessingStage], [ProcessingProgress] and [ProcessingResult] of
    BackgroundRemovalService.ts; they are declared here because the log of
    observable calls mentions them. *)
Inductive ProcessingStage :=
| exporting | processing | downloading | applying | complete.

Record ProcessingProgress := mkProgress {
  pp_current : Z;
  pp_total : Z;
  pp_status : string;
  pp_imageId : string;
  pp_stage : ProcessingStage
}.

Definition Uint8Array := list Byte.byte.

Record ProcessingResult := mkResult {
  pr_imageId : string;
  pr_name : string;
  pr_resultData : Uint8Array
}.

(** The calls a run makes to its collaborators, in the order they happen. *)
Inductive Event :=
| EvOperation (attempt : Z) (rejected : option JsValue)
    (* withRetry: [fn()] was invoked on this attempt and settled *)
| EvOnRetry (attempt : Z) (error : JsValue) (delay : Z)
| EvSleep (ms : Z)            (* a wait of [ms] that ran to its end *)
| EvSleepAborted (ms : Z)     (* a wait of [ms] cut short by the signal *)
| EvGetToken
| EvFetch (url : string)
| EvProgress (p : ProcessingProgress)
| EvExportImage (id : string)
| EvRemoveBackground (filename : string)
| EvDownloadMask (url : string)
| EvApplyMask
| EvYield (r : ProcessingResult).

Module Eff.
Section WithWorld.

(** Everything outside the code under study: the network, the host
    bridge, timers, the abort flags. *)
Context {W : Type}.

(** A collaborator: it changes the world and resolves or rejects. *)
Definition Ext (A : Type) : Type := W -> Res A * W.

(** Code under study: as [Ext], and it logs the calls it makes. *)
Definition M (A : Type) : Type := W -> Res A * W * list Event.

Definition ret {A} (a : A) : M A := fun w => (Ok a, w, []).

Definition throw {A} (e : JsValue) : M A := fun w => (Throw e, w, []).

Definition bind {A B} (m : M A) (f : A -> M B) : M B :=
  fun w =>
    match m w with
    | (Ok a, w1, t1) => let '(r, w2, t2) := f a w1 in (r, w2, t1 ++ t2)
    | (Throw e, w1, t1) => (Throw e, w1, t1)
    end.

(** [try { m } catch (e) { h e }]. *)
Definition try_catch {A} (m : M A) (h : JsValue -> M A) : M A :=
  fun w =>
    match m w with
    | (Ok a, w1, t1) => (Ok a, w1, t1)
    | (Throw e, w1, t1) => let '(r, w2, t2) := h e w1 in (r, w2, t1 ++ t2)
    end.

Definition emit (ev : Event) : M unit := fun w => (Ok tt, w, [ev]).

Definition lift {A} (f : Ext A) : M A :=
  fun w => let '(r, w') := f w in (r, w', []).

(** An [AbortSignal] is read through the world: [signal.aborted]. *)
Definition AbortSignal : Type := W -> bool.

(** [signal?.aborted], as a condition: [undefined] is falsy. *)
Definition aborted (signal : option AbortSignal) (w : W) : bool :=
  match signal with
  | Some s => s w
  | None => false
  end.

End WithWorld.
Arguments Ext : clear implicits.
Arguments M : clear implicits.
Arguments AbortSignal : clear implicits.
End Eff.
Import Eff.

Declare Scope eff_scope.
Delimit Scope eff_scope with eff.
Notation "x <- m ;; k" := (bind m (fun x => k))
  (at level 61, m at next level, right associativity) : eff_scope.
Notation "m ;;; k" := (bind m (fun _ => k))
  (at level 61, right associativity) : eff_scope.

(* ===================================================================== *)
(** ** utils/retry.ts *)
(* ===================================================================== *)

Module Retry.

(** [isRetryableError]: the default predicate. *)
Definition isRetryableError (error : JsValue) : bool :=
  if isAbortError error then false
  else if match error with
          | TypeError m => includes m "fetch"
          | _ => false
          end
  then true
  else match error_message error with
       | Some msg =>
         let message := toLowerCase msg in
         if (includes message "network" || includes message "connection")%bool
         then true
         else if (includes message "401" || includes message "unauthorized")%bool
         then false
         else if (includes message "400" || includes message "403"
                  || includes message "404")%bool
         then false
         else if (includes message "500" || includes message "502"
                  || includes message "503" || includes message "504")%bool
         then true
         else if includes message "timeout" then true
         else false
       | None => false
       end.

Section WithWorld.

Context {W : Type}.

(** What the rest of the world does while a timer of [ms] is pending. *)
Variable elapse : Z -> W -> W.
(** [Math.random()], a number in [0, 1). *)
Variable Math_random : W -> Q * W.

Record RetryOptions := mkRetryOptions {
  maxAttempts : option Z;
  baseDelay : option Z;
  maxDelay : option Z;
  multiplier : option Z;
  jitter : option bool;
  isRetryable : option (JsValue -> bool);
  onRetry : option (Z -> JsValue -> Z -> Ext W unit);
  signal : option (AbortSignal W)
}.

Definition noOptions : RetryOptions :=
  mkRetryOptions None None None None None None None None.

(** [calculateDelay].  [Math.pow] is only ever called with the exponent
    [attempt - 1 >= 0]. *)
Definition calculateDelay (attempt baseDelay maxDelay multiplier : Z)
           (jitter : bool) (w : W) : Z * W :=
  let delay := baseDelay * Z.pow multiplier (attempt - 1) in
  let delay := Z.min delay maxDelay in
  if jitter then
    let '(r, w') := Math_random w in
    let jitterFactor := ((3 # 4) + r * (1 # 2))%Q in
    (Math_round (inject_Z delay * jitterFactor)%Q, w')
  else (delay, w).

Definition AbortedException : JsValue := DOMException "Aborted" "AbortError".

(** [sleep(ms, signal)]. *)
Definition sleep (ms : Z) (signal : option (AbortSignal W)) : M W unit :=
  fun w =>
    if aborted signal w then (Throw AbortedException, w, [])
    else
      let w' := elapse ms w in
      if aborted signal w' then (Throw AbortedException, w', [EvSleepAborted ms])
      else (Ok tt, w', [EvSleep ms]).

Definition orDefault {A} (o : option A) (d : A) : A :=
  match o with Some a => a | None => d end.

Section Loop.
Context {T : Type}.
Variable fn : Ext W T.
Variables (maxAttempts' baseDelay' maxDelay' multiplier' : Z).
Variable jitter' : bool.
Variable isRetryable' : JsValue -> bool.
Variable onRetry' : option (Z -> JsValue -> Z -> Ext W unit).
Variable signal' : option (AbortSignal W).

(** The [for (let attempt = 1; attempt <= maxAttempts; attempt++)] loop.
  [remaining] counts the iterations still allowed by the loop
  condition; when none is left the loop is left through
  [throw lastError]. *)
Fixpoint retry_loop (remaining : nat) (attempt : Z) (lastError : JsValue)
  : M W T :=
  match remaining with
  | O => throw lastError
  | S remaining' =>
    (fun w =>
       if aborted signal' w then (Throw AbortedException, w, [])
       else
         match fn w with
         | (Ok v, w1) => (Ok v, w1, [EvOperation attempt None])
         | (Throw error, w1) =>
           let handler : M W T :=
             (if attempt >=? maxAttempts' then throw error
              else if negb (isRetryable' error) then throw error
              else
                delay <- (fun w => let '(d, w') :=
                            calculateDelay attempt baseDelay' maxDelay'
                                           multiplier' jitter' w in
                          (Ok d, w', [])) ;;
                match onRetry' with
                | Some cb => emit (EvOnRetry attempt error delay) ;;;
                             lift (cb attempt error delay)
                | None => ret tt
                end ;;;
                sleep delay signal' ;;;
                retry_loop remaining' (attempt + 1) error)%eff in
           let '(r, w2, t) := handler w1 in
           (r, w2, EvOperation attempt (Some error) :: t)
         end)
  end.

End Loop.

(** [withRetry(fn, options)]. *)
Definition withRetry {T} (fn : Ext W T) (options : RetryOptions) : M W T :=
  let maxAttempts := orDefault (maxAttempts options) 3 in
  let baseDelay := orDefault (baseDelay options) 1000 in
  let maxDelay := orDefault (maxDelay options) 30000 in
  let multiplier := orDefault (multiplier options) 2 in
  let jitter := orDefault (jitter options) true in
  let isRetryable := orDefault (isRetryable options) isRetryableError in
  retry_loop fn maxAttempts baseDelay maxDelay multiplier jitter isRetryable
             (onRetry options) (signal options)
             (Z.to_nat maxAttempts) 1 (JsNonError "undefined").

End WithWorld.
End Retry.

(* ===================================================================== *)
(** ** utils/cleanup.ts *)
(* ===================================================================== *)

Module Cleanup.

(** The message [`Operation timed out after ${timeoutMs}ms`]. *)
Definition timeoutMessage (timeoutMs : Z) : string :=
  ("Operation timed out after " ++ number_to_string timeoutMs ++ "ms")%string.

Section WithWorld.

Context {W : Type}.

(** [withTimeout(promise, timeoutMs, onTimeout)].  [promise] tells what
    the wrapped promise does during the next [timeoutMs] milliseconds: it
    settles ([Some]) or is still pending when the timer fires ([None]). *)
Definition withTimeout {T} (promise : Z -> W -> option (Res T) * W)
           (timeoutMs : Z) (onTimeout : option (W -> W)) : Ext W T :=
  fun w =>
    match promise timeoutMs w with
    | (Some (Ok result), w') => (Ok result, w')
    | (Some (Throw error), w') => (Throw error, w')
    | (None, w') =>
      let w'' := match onTimeout with Some f => f w' | None => w' end in
      (Throw (TimeoutError (timeoutMessage timeoutMs)), w'')
    end.

(** A registered cleanup function returns ([None]) or throws ([Some]).
    It acts on the world outside the registry: it does not call [register]
    or [cleanup] of the registry it is in. *)
Definition CleanupFn : Type := W -> option JsValue * W.

(** What [cleanup()] did: the functions it invoked, in order, each with
    the error it handed to [console.error], if any. *)
Definition CleanupLog : Type := list (CleanupFn * option JsValue).

(** The closure variable [cleanupFns]. *)
Definition Registry : Type := list CleanupFn.

Definition createCleanupRegistry : Registry := [].

(** [cleanupFns.push(fn)]. *)
Definition register (fn : CleanupFn) (cleanupFns : Registry) : Registry :=
  cleanupFns ++ [fn].

(** [Array.prototype.pop]: the last element, or [undefined], and the
    array without it. *)
Definition pop (cleanupFns : Registry) : option CleanupFn * Registry :=
  match rev cleanupFns with
  | [] => (None, [])
  | fn :: before => (Some fn, rev before)
  end.

(** [size()]. *)
Definition size (cleanupFns : Registry) : Z := Z.of_nat (List.length cleanupFns).

(** The [while (cleanupFns.length > 0)] loop of [cleanup()]; [None]
    when [fuel] iterations were not enough to leave it. *)
Fixpoint cleanup_loop (fuel : nat) (cleanupFns : Registry) (w : W)
  : option (Registry * W * CleanupLog) :=
  if size cleanupFns >? 0 then
    match fuel with
    | O => None
    | S fuel' =>
      let '(fn, cleanupFns') := pop cleanupFns in
      let '(w', entry) :=
        match fn with
        | Some f =>
          match f w with
          | (None, w') => (w', [(f, None)])
          | (Some error, w') => (w', [(f, Some error)])
          end
        | None => (w, [])
        end in
      match cleanup_loop fuel' cleanupFns' w' with
      | Some (final, w'', log) => Some (final, w'', entry ++ log)
      | None => None
      end
    end
  else Some (cleanupFns, w, []).

(** [cleanup()]. *)
Definition cleanup (cleanupFns : Registry) (w : W)
  : option (Registry * W * CleanupLog) :=
  cleanup_loop (List.length cleanupFns) cleanupFns w.

End WithWorld.
Arguments CleanupFn : clear implicits.
Arguments Registry : clear implicits.
Arguments CleanupLog : clear implicits.
End Cleanup.

(* ===================================================================== *)
(** ** utils/errors.ts *)
(* ===================================================================== *)

Module Errors.

Record ErrorDetails := mkDetails {
  code : ErrorCode;
  userMessage : string;
  recoverable : bool
}.

(** The getters of [ApiError] (services/ApiService.ts). *)
Definition api_isAuthError (status : Z) : bool := status =? 401.
Definition api_isCreditsError (status : Z) : bool := status =? 402.
Definition api_isNetworkError (status : Z) : bool := status =? 0.

(** [mapErrorToDetails]. *)
Definition mapErrorToDetails (error : JsValue) : ErrorDetails :=
  if isAbortError error then
    mkDetails CANCELLED "Operation was cancelled" true
  else
    match error with
    | ApiError message status _ =>
      if api_isAuthError status then
        mkDetails SESSION_EXPIRED
                  "Your session has expired. Please sign in again." true
      else if api_isCreditsError status then
        mkDetails INSUFFICIENT_CREDITS
                  "Insufficient credits. Please upgrade your plan." true
      else if api_isNetworkError status then
        mkDetails NETWORK_ERROR
                  "Network error. Please check your connection and try again."
                  true
      else mkDetails PROCESSING_FAILED message true
    | TimeoutError _ =>
      mkDetails TIMEOUT "The operation timed out. Please try again." true
    | ImageProcessingError _ =>
      mkDetails PROCESSING_FAILED
                "Failed to process image. Please try again." true
    | _ =>
      match error_message error with
      | Some message =>
        if (includes message "network" || includes message "fetch")%bool then
          mkDetails NETWORK_ERROR
                    "Network error. Please check your connection and try again."
                    true
        else mkDetails UNKNOWN message true
      | None =>
        mkDetails UNKNOWN "An unexpected error occurred. Please try again."
                  true
      end
    end.

(** [getUserMessage]. *)
Definition getUserMessage (error : JsValue) : string :=
  userMessage (mapErrorToDetails error).

(** [isRecoverableError]. *)
Definition isRecoverableError (error : JsValue) : bool :=
  recoverable (mapErrorToDetails error).

Definition ErrorCode_eqb (a b : ErrorCode) : bool :=
  match a, b with
  | UNAUTHENTICATED, UNAUTHENTICATED | SESSION_EXPIRED, SESSION_EXPIRED
  | INSUFFICIENT_CREDITS, INSUFFICIENT_CREDITS
  | NETWORK_ERROR, NETWORK_ERROR | TIMEOUT, TIMEOUT
  | PROCESSING_FAILED, PROCESSING_FAILED | EXPORT_FAILED, EXPORT_FAILED
  | CANCELLED, CANCELLED | UNKNOWN, UNKNOWN => true
  | _, _ => false
  end.

(** [isCancellationError]. *)
Definition isCancellationError (error : JsValue) : bool :=
  if isAbortError error then true
  else match error with
       | AppError _ c _ _ => ErrorCode_eqb c CANCELLED
       | _ => false
       end.

(** [isAuthError]. *)
Definition isAuthError (error : JsValue) : bool :=
  match error with
  | ApiError _ status _ => api_isAuthError status
  | AppError _ c _ _ => ErrorCode_eqb c SESSION_EXPIRED
  | _ => false
  end.

(** [isCreditsError]. *)
Definition isCreditsError (error : JsValue) : bool :=
  match error with
  | ApiError _ status _ => api_isCreditsError status
  | AppError _ c _ _ => ErrorCode_eqb c INSUFFICIENT_CREDITS
  | _ => false
  end.

End Errors.

(* ===================================================================== *)
(** ** services/ApiService.ts *)
(* ===================================================================== *)

Module Api.

Record RemoveBgResult := mkRemoveBgResult {
  output_url : string;
  credits_used : Z
}.

Record RemoveBgResponse := mkRemoveBgResponse {
  result : RemoveBgResult
}.

(** The part of a [fetch] [Response] the service reads; [json] and
    [arrayBuffer] are the outcomes of the promises those methods return. *)
Record Response (T : Type) := mkResponse {
  ok : bool;
  status : Z;
  statusText : string;
  json : Res T;
  arrayBuffer : Res Uint8Array
}.
Arguments ok {T} _.
Arguments status {T} _.
Arguments statusText {T} _.
Arguments json {T} _.
Arguments arrayBuffer {T} _.

(** [createApiError]. *)
Definition createApiError (status : Z) (statusText : string) : JsValue :=
  if status =? 401 then
    ApiError "Session expired. Please sign in again." 401
             (Some "SESSION_EXPIRED")
  else if status =? 402 then
    ApiError "Insufficient credits. Please upgrade your plan." 402
             (Some "INSUFFICIENT_CREDITS")
  else if status =? 429 then
    ApiError "Too many requests. Please try again later." 429
             (Some "RATE_LIMITED")
  else ApiError ("Request failed: " ++ statusText)%string status
                (Some "REQUEST_FAILED").

(** [!token] for [token : string | null]: [null] and [''] are falsy. *)
Definition token_missing (token : option string) : bool :=
  match token with
  | None => true
  | Some s => String.eqb s EmptyString
  end.

Section WithWorld.

Context {W : Type}.

(** [config.api.baseUrl]. *)
Variable baseUrl : string.
(** The global [fetch], given the URL and the caller's signal (the
    request timeout of [config.api.timeout] is part of what it does). *)
Variable fetch : forall T : Type, string -> option (AbortSignal W)
                                  -> Ext W (Response T).

Record ApiService := mkApiService {
  removeBackground : Uint8Array -> string -> option (AbortSignal W)
                     -> M W RemoveBgResponse;
  downloadMask : string -> option (AbortSignal W) -> M W Uint8Array
}.

(** The [catch] blocks of [request] and [downloadMask]: an [ApiError] or an
    abort is re-thrown, anything else becomes [fallback]. *)
Definition rethrow_or {T} (fallback : JsValue) (error : JsValue) : M W T :=
  match error with
  | ApiError _ _ _ => throw error
  | _ => if isAbortError error then throw error else throw fallback
  end.

(** [request<T>(endpoint, options, signal)] of [createApiService(getToken)].
    The value of [response.json()] is returned without being awaited inside
    the [try], so its rejection is not seen by the [catch]. *)
Definition request {T} (getToken : W -> option string) (endpoint : string)
           (signal : option (AbortSignal W)) : M W T :=
  (emit EvGetToken ;;;
   token <- (fun w => (Ok (getToken w), w, [])) ;;
   if token_missing token then
     throw (ApiError "Not authenticated" 401 (Some "UNAUTHENTICATED"))
   else
     body <- try_catch
               (emit (EvFetch (baseUrl ++ endpoint)%string) ;;;
                response <- lift (fetch T (baseUrl ++ endpoint)%string signal) ;;
                if negb (ok response) then
                  throw (createApiError (status response) (statusText response))
                else ret (json response))
               (rethrow_or (ApiError "Network error. Please check your connection."
                                     0 (Some "NETWORK_ERROR"))) ;;
     match body with
     | Ok v => ret v
     | Throw e => throw e
     end)%eff.

(** [createApiService(getToken)]. *)
Definition createApiService (getToken : W -> option string) : ApiService :=
  {| removeBackground := fun imageData filename signal =>
       request getToken "/v1/remove-bg?output=mask" signal;
     downloadMask := fun url signal =>
       try_catch
         (emit (EvFetch url) ;;;
          response <- lift (fetch unit url signal) ;;
          if negb (ok response) then
            throw (ApiError "Failed to download mask" (status response)
                            (Some "DOWNLOAD_ERROR"))
          else
            match arrayBuffer response with
            | Ok buffer => ret buffer
            | Throw e => throw e
            end)%eff
         (rethrow_or (ApiError "Failed to download mask" 0
                               (Some "NETWORK_ERROR"))) |}.

End WithWorld.
Arguments ApiService : clear implicits.
End Api.

(* ===================================================================== *)
(** ** services/BackgroundRemovalService.ts *)
(* ===================================================================== *)

Module Pipeline.

(** [PenpotImageInfo] (types/messages.ts). *)
Record PenpotImageInfo := mkImage {
  id : string;
  name : string
}.

Definition ProcessingCancelled : JsValue :=
  DOMException "Processing cancelled" "AbortError".

Section WithWorld.

Context {W : Type}.

Variable api : Api.ApiService W.
(** [imageProcessing.applyMaskToImage]. *)
Variable applyMaskToImage : Uint8Array -> Uint8Array -> Ext W Uint8Array.

Variable exportImage : string -> Ext W Uint8Array.
Variable onProgress : ProcessingProgress -> Ext W unit.
Variable signal : option (AbortSignal W).

(** [if (signal?.aborted) throw new DOMException(...)]. *)
Definition checkCancelled : M W unit :=
  fun w => if aborted signal w then (Throw ProcessingCancelled, w, [])
           else (Ok tt, w, []).

Definition report (p : ProcessingProgress) : M W unit :=
  (emit (EvProgress p) ;;; lift (onProgress p))%eff.

(** One iteration of the [for] loop of [process], up to its [yield]. *)
Definition process_item (total i : Z) (image : PenpotImageInfo)
  : M W ProcessingResult :=
  (checkCancelled ;;;
   report (mkProgress i total ("Exporting " ++ name image ++ "...")%string
                      (id image) exporting) ;;;
   imageData <- (emit (EvExportImage (id image)) ;;;
                 lift (exportImage (id image))) ;;
   checkCancelled ;;;
   report (mkProgress i total ("Processing " ++ name image ++ "...")%string
                      (id image) processing) ;;;
   result <- (emit (EvRemoveBackground (name image ++ ".png")%string) ;;;
              Api.removeBackground api imageData
                                   (name image ++ ".png")%string signal) ;;
   checkCancelled ;;;
   report (mkProgress i total "Downloading mask..." (id image) downloading) ;;;
   maskData <- (emit (EvDownloadMask (Api.output_url (Api.result result))) ;;;
                Api.downloadMask api (Api.output_url (Api.result result))
                                 signal) ;;
   checkCancelled ;;;
   report (mkProgress i total "Applying mask..." (id image) applying) ;;;
   resultData <- (emit EvApplyMask ;;;
                  lift (applyMaskToImage imageData maskData)) ;;
   report (mkProgress (i + 1) total ("Completed " ++ name image)%string
                      (id image) complete) ;;;
   ret (mkResult (id image) (name image ++ " - No BG")%string resultData))%eff.

(** The generator [process], driven by [for await (const result of ...)]
    whose body is [consumer]: [rest] is [images.slice(i)], each result is
    handed to the consumer before the next item starts, and the first
    rejection ends the sequence. *)
Fixpoint process_loop (consumer : ProcessingResult -> Ext W unit)
         (total i : Z) (rest : list PenpotImageInfo) : M W unit :=
  match rest with
  | [] => ret tt
  | image :: rest' =>
    (r <- process_item total i image ;;
     emit (EvYield r) ;;;
     lift (consumer r) ;;;
     process_loop consumer total (i + 1) rest')%eff
  end.

Definition process (images : list PenpotImageInfo)
           (consumer : ProcessingResult -> Ext W unit) : M W unit :=
  process_loop consumer (Z.of_nat (List.length images)) 0 images.

End WithWorld.
End Pipeline.

(* ===================================================================== *)
(** ** stores/processingStore.ts *)
(* ===================================================================== *)

Module Store.

Inductive JobStatus := pending | processing | completed | failed | cancelled.

(** [ProcessingJob]. *)
Record ProcessingJob := mkJob {
  j_id : string;
  j_name : string;
  j_status : JobStatus;
  j_progress : Z;
  j_stage : string;
  j_error : option string;
  j_startedAt : option Z;
  j_completedAt : option Z
}.

(** [ProcessingHistoryItem]; its [status] is only ever one of
    [completed], [failed], [cancelled]. *)
Record ProcessingHistoryItem := mkHistoryItem {
  h_id : string;
  h_name : string;
  h_status : JobStatus;
  h_duration : Z;
  h_timestamp : Z;
  h_error : option string
}.

(** The store's own [status]: ['idle' | 'processing' | 'cancelled']. *)
Inductive OverallStatus := Idle | Processing | Cancelled.

(** The refs of the store.  [abortController] is a reference into
    [controllers], the [AbortController]s created so far, each with its
    signal's [aborted] flag: the signal handed out by [startBatch] stays
    the same object after the store has dropped its reference.  [ticks]
    counts the calls of [Date.now()]. *)
Record State := mkState {
  jobs : list ProcessingJob;
  history : list ProcessingHistoryItem;
  abortController : option nat;
  status : OverallStatus;
  controllers : list bool;
  ticks : nat
}.

Definition initial : State := mkState [] [] None Idle [] 0.

Record Item := mkItem {
  item_id : string;
  item_name : string
}.

Definition JobStatus_eqb (a b : JobStatus) : bool :=
  match a, b with
  | pending, pending | processing, processing | completed, completed
  | failed, failed | cancelled, cancelled => true
  | _, _ => false
  end.

(** [signal.aborted] of the signal of controller [c]. *)
Definition signal_aborted (s : State) (c : nat) : bool :=
  nth c (controllers s) false.

(** [controller.abort()]. *)
Fixpoint abort (c : nat) (cs : list bool) : list bool :=
  match cs, c with
  | [], _ => []
  | _ :: cs', O => true :: cs'
  | b :: cs', S c' => b :: abort c' cs'
  end.

(** In-place mutation of the object returned by
    [jobs.value.find((j) => j.id === id)]: the first job with that id. *)
Fixpoint mutate_first (id : string) (f : ProcessingJob -> ProcessingJob)
         (js : list ProcessingJob) : list ProcessingJob :=
  match js with
  | [] => []
  | j :: js' => if String.eqb (j_id j) id then f j :: js'
                else j :: mutate_first id f js'
  end.

Definition find_job (id : string) (js : list ProcessingJob)
  : option ProcessingJob :=
  find (fun j => String.eqb (j_id j) id) js.

(** ** Computed properties *)

Definition isProcessing (s : State) : bool :=
  match status s with Processing => true | _ => false end.

Definition currentJob (s : State) : option ProcessingJob :=
  find (fun job => JobStatus_eqb (j_status job) processing) (jobs s).

Definition pendingCount (s : State) : Z :=
  Z.of_nat (List.length
              (filter (fun job => JobStatus_eqb (j_status job) pending)
                      (jobs s))).

Definition completedCount (s : State) : Z :=
  Z.of_nat (List.length
              (filter (fun job => JobStatus_eqb (j_status job) completed)
                      (jobs s))).

(** [currentJob.value?.progress ?? 0]. *)
Definition currentProgress (s : State) : Z :=
  match currentJob s with
  | Some job => j_progress job
  | None => 0
  end.

Definition overallProgress (s : State) : Z :=
  if Nat.eqb (List.length (jobs s)) 0 then 0
  else
    let total := inject_Z (Z.of_nat (List.length (jobs s))) in
    let completed := inject_Z (completedCount s) in
    let current := inject_Z (currentProgress s) in
    Math_round (((completed + current / 100) / total) * 100)%Q.

Definition canCancel (s : State) : bool :=
  (isProcessing s
   && match abortController s with Some _ => true | None => false end)%bool.

(** ** Actions *)

Section WithClock.

(** [Date.now()]: the value returned by its n-th call. *)
Variable Date_now : nat -> Z.

Definition startBatch (items : list Item) (s : State) : State * nat :=
  let c := List.length (controllers s) in
  (mkState (map (fun item => mkJob (item_id item) (item_name item) pending 0
                                   "Queued" None None None) items)
           (history s) (Some c) Processing (controllers s ++ [false])
           (ticks s),
   c).

Definition updateJobProgress (id : string) (progress : Z) (stage : string)
           (s : State) : State :=
  match find_job id (jobs s) with
  | Some job =>
    let started := JobStatus_eqb (j_status job) pending in
    let touch (j : ProcessingJob) :=
      let j1 := if started
                then mkJob (j_id j) (j_name j) processing (j_progress j)
                           (j_stage j) (j_error j)
                           (Some (Date_now (ticks s))) (j_completedAt j)
                else j in
      mkJob (j_id j1) (j_name j1) (j_status j1) progress stage (j_error j1)
            (j_startedAt j1) (j_completedAt j1) in
    mkState (mutate_first id touch (jobs s)) (history s) (abortController s)
            (status s) (controllers s)
            (if started then S (ticks s) else ticks s)
  | None => s
  end.

(** [job.completedAt - (job.startedAt ?? job.completedAt)]. *)
Definition duration (job : ProcessingJob) (completedAt : Z) : Z :=
  completedAt - match j_startedAt job with
                | Some t => t
                | None => completedAt
                end.

Definition completeJob (id : string) (s : State) : State :=
  match find_job id (jobs s) with
  | Some job =>
    let now := Date_now (ticks s) in
    let touch (j : ProcessingJob) :=
      mkJob (j_id j) (j_name j) completed 100 "Done" (j_error j)
            (j_startedAt j) (Some now) in
    mkState (mutate_first id touch (jobs s))
            (mkHistoryItem (j_id job) (j_name job) completed
                           (duration job now) now None :: history s)
            (abortController s) (status s) (controllers s) (S (ticks s))
  | None => s
  end.

Definition failJob (id : string) (error : string) (s : State) : State :=
  match find_job id (jobs s) with
  | Some job =>
    let now := Date_now (ticks s) in
    let touch (j : ProcessingJob) :=
      mkJob (j_id j) (j_name j) failed (j_progress j) "Failed" (Some error)
            (j_startedAt j) (Some now) in
    mkState (mutate_first id touch (jobs s))
            (mkHistoryItem (j_id job) (j_name job) failed
                           (duration job now) now (Some error) :: history s)
            (abortController s) (status s) (controllers s) (S (ticks s))
  | None => s
  end.

(** [job.status === 'pending' || job.status === 'processing']. *)
Definition cancellable (job : ProcessingJob) : bool :=
  (JobStatus_eqb (j_status job) pending
   || JobStatus_eqb (j_status job) processing)%bool.

Definition cancelJob (job : ProcessingJob) (now : Z) : ProcessingJob :=
  mkJob (j_id job) (j_name job) cancelled (j_progress job) "Cancelled"
        (j_error job) (j_startedAt job) (Some now).

Definition cancelledEntry (job : ProcessingJob) (now : Z)
  : ProcessingHistoryItem :=
  mkHistoryItem (j_id job) (j_name job) cancelled (duration job now) now None.

(** The [for (const job of jobs.value)] loop of [cancel]. *)
Fixpoint cancel_jobs (js : list ProcessingJob)
         (hist : list ProcessingHistoryItem) (t : nat)
  : list ProcessingJob * list ProcessingHistoryItem * nat :=
  match js with
  | [] => ([], hist, t)
  | job :: js' =>
    if cancellable job then
      let now := Date_now t in
      let '(js'', hist', t') :=
        cancel_jobs js' (cancelledEntry job now :: hist) (S t) in
      (cancelJob job now :: js'', hist', t')
    else
      let '(js'', hist', t') := cancel_jobs js' hist t in
      (job :: js'', hist', t')
  end.

Definition cancel (s : State) : State :=
  match abortController s with
  | Some c =>
    let '(js, hist, t) := cancel_jobs (jobs s) (history s) (ticks s) in
    mkState js hist (Some c) Cancelled (abort c (controllers s)) t
  | None => s
  end.

Definition finish (s : State) : State :=
  mkState (jobs s) (history s) None Idle (controllers s) (ticks s).

Definition reset (s : State) : State :=
  mkState [] (history s) None Idle (controllers s) (ticks s).

Definition clearHistory (s : State) : State :=
  mkState (jobs s) [] (abortController s) (status s) (controllers s)
          (ticks s).

(** A call of one of the store's actions. *)
Inductive Action :=
| StartBatch (items : list Item)
| UpdateJobProgress (id : string) (progress : Z) (stage : string)
| CompleteJob (id : string)
| FailJob (id : string) (error : string)
| Cancel
| Finish
| Reset
| ClearHistory.

Definition step (s : State) (a : Action) : State :=
  match a with
  | StartBatch items => fst (startBatch items s)
  | UpdateJobProgress id progress stage => updateJobProgress id progress stage s
  | CompleteJob id => completeJob id s
  | FailJob id error => failJob id error s
  | Cancel => cancel s
  | Finish => finish s
  | Reset => reset s
  | ClearHistory => clearHistory s
  end.

Definition run (s : State) (actions : list Action) : State :=
  fold_left step actions s.

End WithClock.
End Store.

(* ===================================================================== *)
(** ** Reading a log, and the concrete collaborators of the scenarios *)
(* ===================================================================== *)

(** The attempts of [withRetry] recorded in a log, each with the error its
    invocation of the operation rejected with, if any. *)
Fixpoint operations (t : list Event) : list (Z * option JsValue) :=
  match t with
  | [] => []
  | EvOperation attempt rejected :: t' => (attempt, rejected) :: operations t'
  | _ :: t' => operations t'
  end.

(** The retry waits recorded in a log, complete or cut short. *)
Fixpoint waits (t : list Event) : list Z :=
  match t with
  | [] => []
  | EvSleep ms :: t' => ms :: waits t'
  | EvSleepAborted ms :: t' => ms :: waits t'
  | _ :: t' => waits t'
  end.

(** The [onRetry] calls recorded in a log. *)
Fixpoint retries (t : list Event) : list (Z * JsValue * Z) :=
  match t with
  | [] => []
  | EvOnRetry attempt error delay :: t' => (attempt, error, delay) :: retries t'
  | _ :: t' => retries t'
  end.

(** The results handed to the consumer. *)
Fixpoint yields (t : list Event) : list ProcessingResult :=
  match t with
  | [] => []
  | EvYield r :: t' => r :: yields t'
  | _ :: t' => yields t'
  end.

(** The network requests. *)
Fixpoint fetches (t : list Event) : list string :=
  match t with
  | [] => []
  | EvFetch url :: t' => url :: fetches t'
  | _ :: t' => fetches t'
  end.

(** The integers [from, from + 1, ..., from + n - 1]. *)
Definition Zseq (from : Z) (n : nat) : list Z :=
  map (fun i => from + Z.of_nat i) (seq 0 n).


(** Calling the cleanup functions [fs] one after the other, whether or not
    they throw: the world afterwards and what each call did. *)
Fixpoint run_all {W} (fs : list (Cleanup.CleanupFn W)) (w : W)
  : W * Cleanup.CleanupLog W :=
  match fs with
  | [] => (w, [])
  | f :: fs' =>
    let '(thrown, w') := f w in
    let '(w'', log) := run_all fs' w' in
    (w'', (f, thrown) :: log)
  end.

(** The effect of [cancel] on one job. *)
Definition cancel_outcome (before after : Store.ProcessingJob) : Prop :=
  if Store.cancellable before
  then Store.j_status after = Store.cancelled
       /\ Store.j_id after = Store.j_id before
       /\ Store.j_name after = Store.j_name before
  else after = before.

(** A store whose controller reference, if any, points to a controller
    that was created. *)
Definition controller_allocated (s : Store.State) : Prop :=
  match Store.abortController s with
  | Some c => (c < List.length (Store.controllers s))%nat
  | None => True
  end.

Module Scenario.

(** A world that only counts the calls made to the remote operation. *)
Definition World := nat.

Definition no_elapse : Z -> World -> World := fun _ w => w.
Definition fixed_random : World -> Q * World := fun w => ((1 # 2)%Q, w).

Definition networkError : JsValue := Error "Network error".

(** [vi.fn().mockRejectedValue(new Error('Network error'))]. *)
Definition alwaysFails : Ext World string :=
  fun calls => (Throw networkError, S calls).

(** [vi.fn().mockRejectedValueOnce(new Error('Network error'))
           .mockResolvedValueOnce('success')]. *)
Definition failsOnce : Ext World string :=
  fun calls =>
    match calls with
    | O => (Throw networkError, S calls)
    | _ => (Ok "success", S calls)
    end.

Definition silentCallback : Z -> JsValue -> Z -> Ext World unit :=
  fun _ _ _ w => (Ok tt, w).

(** [{ maxAttempts: 3, baseDelay: 1, jitter: false, onRetry }]. *)
Definition scenarioOptions : Retry.RetryOptions (W := World) :=
  Retry.mkRetryOptions (Some 3) (Some 1) None None (Some false) None
                       (Some silentCallback) None.

Definition maskUrl : string := "https://cdn.example/mask.png".

(** A remote API whose [removeBackground] is rejected once with a
    retryable error and accepted from then on. *)
Definition flakyApi : Api.ApiService World :=
  Api.mkApiService
    (fun _ _ _ calls =>
       match calls with
       | O => (Throw networkError, S calls, [])
       | _ => (Ok (Api.mkRemoveBgResponse (Api.mkRemoveBgResult maskUrl 1)),
               S calls, [])
       end)
    (fun _ _ calls => (Ok [], calls, [])).


Definition applyMask : Uint8Array -> Uint8Array -> Ext World Uint8Array :=
  fun original _ w => (Ok original, w).
Definition exportImage : string -> Ext World Uint8Array :=
  fun _ w => (Ok [], w).
Definition onProgress : ProcessingProgress -> Ext World unit :=
  fun _ w => (Ok tt, w).
Definition consumer : ProcessingResult -> Ext World unit :=
  fun _ w => (Ok tt, w).

Definition image1 : Pipeline.PenpotImageInfo := Pipeline.mkImage "1" "Image 1".

(** A network that must not be reached. *)
Definition deadFetch (T : Type) (url : string)
           (signal : option (AbortSignal World))
  : Ext World (Api.Response T) :=
  fun w => (Throw (TypeError "Failed to fetch"), w).

Definition noToken : World -> option string := fun _ => None.

Definition clock : nat -> Z := fun n => 1000 + Z.of_nat n.

Definition item1 : Store.Item := Store.mkItem "1" "Image 1".
Definition item2 : Store.Item := Store.mkItem "2" "Image 2".

End Scenario.

(* ===================================================================== *)
(** ** utils/retry.ts: [tryWithRetry] and [retryable] *)
(* ===================================================================== *)

Module RetryResults.

(** [RetryResult<T>]. *)
Record RetryResult (T : Type) := mkRetryResult {
  success : bool;
  data : option T;
  error : option JsValue;
  attempts : Z
}.
Arguments mkRetryResult {T} _ _ _ _.
Arguments success {T} _.
Arguments data {T} _.
Arguments error {T} _.
Arguments attempts {T} _.

Section WithWorld.

Context {W : Type}.
Variable elapse : Z -> W -> W.
Variable Math_random : W -> Q * W.

(** [tryWithRetry] keeps a local variable [attempts] that the [onRetry]
    it passes to [withRetry] assigns.  The run of [withRetry] is therefore
    one over the world paired with that variable; the caller's operation,
    signal, timers and callback do not see the second component. *)
Definition Local : Type := (W * Z)%type.

Definition local_ext {A} (f : Ext W A) : Ext Local A :=
  fun '(w, attempts) => let '(r, w') := f w in (r, (w', attempts)).

Definition local_elapse (ms : Z) : Local -> Local :=
  fun '(w, attempts) => (elapse ms w, attempts).

Definition local_random : Local -> Q * Local :=
  fun '(w, attempts) => let '(x, w') := Math_random w in (x, (w', attempts)).

Definition local_signal (signal : AbortSignal W) : AbortSignal Local :=
  fun '(w, _) => signal w.

(** [(attempt, error, delay) => { attempts = attempt;
                                  options.onRetry?.(attempt, error, delay) }]. *)
Definition countingOnRetry (options : Retry.RetryOptions (W := W))
  : Z -> JsValue -> Z -> Ext Local unit :=
  fun attempt error delay '(w, _) =>
    match Retry.onRetry options with
    | Some cb => let '(r, w') := cb attempt error delay w in (r, (w', attempt))
    | None => (Ok tt, (w, attempt))
    end.

(** [{ ...options, onRetry: ... }]. *)
Definition countingOptions (options : Retry.RetryOptions (W := W))
  : Retry.RetryOptions (W := Local) :=
  Retry.mkRetryOptions (Retry.maxAttempts options) (Retry.baseDelay options)
                       (Retry.maxDelay options) (Retry.multiplier options)
                       (Retry.jitter options) (Retry.isRetryable options)
                       (Some (countingOnRetry options))
                       (option_map local_signal (Retry.signal options)).

(** [tryWithRetry(fn, options)]. *)
Definition tryWithRetry {T} (fn : Ext W T)
           (options : Retry.RetryOptions (W := W)) : M W (RetryResult T) :=
  fun w =>
    let maxAttempts := Retry.orDefault (Retry.maxAttempts options) 3 in
    match Retry.withRetry local_elapse local_random (local_ext fn)
                          (countingOptions options) (w, 0) with
    | (Ok data, (w', attempts), t) =>
      (Ok (mkRetryResult true (Some data) None (attempts + 1)), w', t)
    | (Throw error, (w', attempts), t) =>
      (Ok (mkRetryResult false None (Some error)
                         (Z.min (attempts + 1) maxAttempts)), w', t)
    end.

(** [retryable(fn, options)]. *)
Definition retryable {Args T} (fn : Args -> Ext W T)
           (options : Retry.RetryOptions (W := W)) : Args -> M W T :=
  fun args => Retry.withRetry elapse Math_random (fn args) options.

End WithWorld.
End RetryResults.

(* ===================================================================== *)
(** ** utils/errors.ts: [AppError.from] *)
(* ===================================================================== *)

Module AppErrors.

(** [String(error)] of a caught value; [JsNonError d] is a value that
    prints as [d]. *)
Definition String_of (error : JsValue) : string :=
  match error with
  | JsNonError d => d
  | _ => match error_message error with
         | Some m => m
         | None => EmptyString
         end
  end.

(** [AppError.from(error)].  The fifth field of an [AppError],
    [originalError], is not represented in [JsValue]; no function of the
    code reads it. *)
Definition from (error : JsValue) : JsValue :=
  match error with
  | AppError _ _ _ _ => error
  | _ =>
    let details := Errors.mapErrorToDetails error in
    AppError (match error_message error with
              | Some m => m
              | None => String_of error
              end)
             (Errors.code details) (Errors.userMessage details)
             (Errors.recoverable details)
  end.

(** The text shown for a code whose message does not depend on the error. *)
Definition fixedMessage (c : ErrorCode) : option string :=
  match c with
  | CANCELLED => Some "Operation was cancelled"
  | SESSION_EXPIRED => Some "Your session has expired. Please sign in again."
  | INSUFFICIENT_CREDITS =>
    Some "Insufficient credits. Please upgrade your plan."
  | NETWORK_ERROR =>
    Some "Network error. Please check your connection and try again."
  | TIMEOUT => Some "The operation timed out. Please try again."
  | _ => None
  end.

End AppErrors.

(* ===================================================================== *)
(** ** Reading the log of a pipeline run *)
(* ===================================================================== *)

(** The progress reports recorded in a log. *)
Fixpoint progresses (t : list Event) : list ProcessingProgress :=
  match t with
  | [] => []
  | EvProgress p :: t' => p :: progresses t'
  | _ :: t' => progresses t'
  end.

(** What a progress report says, without its status text. *)
Definition progressKey (p : ProcessingProgress)
  : string * ProcessingStage * Z * Z :=
  (pp_imageId p, pp_stage p, pp_current p, pp_total p).

(** The five reports of item number [i] of a batch of [total]. *)
Definition stagesOf (total i : Z) (image : Pipeline.PenpotImageInfo)
  : list (string * ProcessingStage * Z * Z) :=
  [(Pipeline.id image, exporting, i, total);
   (Pipeline.id image, processing, i, total);
   (Pipeline.id image, downloading, i, total);
   (Pipeline.id image, applying, i, total);
   (Pipeline.id image, complete, i + 1, total)].

(** The reports of the items [images], numbered from [i]. *)
Fixpoint stagesFrom (total i : Z) (images : list Pipeline.PenpotImageInfo)
  : list (string * ProcessingStage * Z * Z) :=
  match images with
  | [] => []
  | image :: rest => stagesOf total i image ++ stagesFrom total (i + 1) rest
  end.

(** A remote API whose own log holds no progress report and no yield (they
    are the pipeline's to log). *)
Definition quietApi {W} (api : Api.ApiService W) : Prop :=
  (forall data filename signal w,
      let t := snd (Api.removeBackground api data filename signal w) in
      progresses t = [] /\ yields t = [])
  /\ (forall url signal w,
         let t := snd (Api.downloadMask api url signal w) in
         progresses t = [] /\ yields t = []).

(* ===================================================================== *)
(** ** Concrete collaborators of further scenarios *)
(* ===================================================================== *)

Module MoreScenarios.

(** A signal that has fired. *)
Definition firedSignal : AbortSignal Scenario.World := fun _ => true.

(** [{ signal }] with that signal. *)
Definition abortedOptions : Retry.RetryOptions (W := Scenario.World) :=
  Retry.mkRetryOptions None None None None None None None (Some firedSignal).

(** [{ maxAttempts: 0 }]. *)
Definition zeroAttempts : Retry.RetryOptions (W := Scenario.World) :=
  Retry.mkRetryOptions (Some 0) None None None None None None None.


(** [{ maxAttempts: 3, baseDelay: 1, jitter: false, signal }]. *)
Definition cancelledWhileWaiting : Retry.RetryOptions (W := Scenario.World) :=
  Retry.mkRetryOptions (Some 3) (Some 1) None None (Some false) None None
                       (Some (fun calls => Nat.ltb 1 calls)).

(** Timers during which somebody invokes nothing but the world moves on:
    the call counter is bumped, so that the signal above fires. *)
Definition bumping_elapse : Z -> Scenario.World -> Scenario.World :=
  fun _ w => S w.

(** [new Error('401 Unauthorized')]. *)
Definition unauthorized : JsValue := Error "401 Unauthorized".

Definition rejectsUnauthorized : Ext Scenario.World string :=
  fun calls => (Throw unauthorized, S calls).

(** A remote API that accepts everything; its world counts the calls. *)
Definition steadyApi : Api.ApiService Scenario.World :=
  Api.mkApiService
    (fun _ _ _ calls =>
       (Ok (Api.mkRemoveBgResponse (Api.mkRemoveBgResult Scenario.maskUrl 1)),
        S calls, []))
    (fun _ _ calls => (Ok [], S calls, [])).

Definition image2 : Pipeline.PenpotImageInfo := Pipeline.mkImage "2" "Image 2".




(** A token provider with a token. *)
Definition someToken : Scenario.World -> option string :=
  fun _ => Some "test-token".

End MoreScenarios.


(* ===================================================================== *)
(** ** composables/useProcessingController.ts *)
(* ===================================================================== *)

Module Controller.

(** The closure of [useProcessingController]: the ref [isProcessing] and
    the variable [abortController], a reference into [controllers], the
    [AbortController]s created so far, each with its signal's [aborted]
    flag. *)
Record State := mkState {
  isProcessing : bool;
  abortController : option nat;
  controllers : list bool
}.

Definition initial : State := mkState false None [].

(** [signal.aborted] of the signal of controller [c]. *)
Definition signal_aborted (s : State) (c : nat) : bool :=
  nth c (controllers s) false.

Definition cancel (s : State) : State :=
  let s1 := match abortController s with
            | Some c => mkState (isProcessing s) None
                                (Store.abort c (controllers s))
            | None => s
            end in
  mkState false (abortController s1) (controllers s1).

(** Returns the new state and the controller whose signal is returned. *)
Definition startProcessing (s : State) : State * nat :=
  let s1 := cancel s in
  let c := List.length (controllers s1) in
  (mkState true (Some c) (controllers s1 ++ [false]), c).

Definition finish (s : State) : State :=
  mkState false None (controllers s).

(** [abortController?.signal.aborted ?? false]. *)
Definition isCancelled (s : State) : bool :=
  match abortController s with
  | Some c => signal_aborted s c
  | None => false
  end.

(** A call of one of the controller's functions; [Unmount] is the
    [onUnmounted] hook. *)
Inductive Action := StartProcessing | Cancel | Finish | Unmount.

Definition step (s : State) (a : Action) : State :=
  match a with
  | StartProcessing => fst (startProcessing s)
  | Cancel => cancel s
  | Finish => finish s
  | Unmount => cancel s
  end.

Definition run (s : State) (actions : list Action) : State :=
  fold_left step actions s.

End Controller.

(* ===================================================================== *)
(** ** composables/useErrorHandler.ts *)
(* ===================================================================== *)

Module ErrorHandler.

(** [ErrorState]. *)
Record ErrorState := mkErrorState {
  message : option string;
  code : option ErrorCode;
  recoverable : bool
}.

(** The closure of [useErrorHandler]: the refs [errorState] and
    [hasError] and the variable [autoClearTimeout]; with them the timers
    the handler has set that have neither fired nor been cleared, each
    with its delay, and the id the next [setTimeout] returns.  Timer ids
    are positive integers. *)
Record State := mkState {
  errorState : ErrorState;
  hasError : bool;
  autoClearTimeout : option nat;
  timers : list (nat * Z);
  nextTimer : nat
}.

Definition initial : State :=
  mkState (mkErrorState None None true) false None [] 1.

(** [clearTimeout(id)]. *)
Definition clearTimeout (id : nat) (pending : list (nat * Z))
  : list (nat * Z) :=
  filter (fun t => negb (Nat.eqb (fst t) id)) pending.

(** [if (autoClearTimeout)]: [null] and [0] are falsy. *)
Definition clearAutoClearTimeout (s : State) : State :=
  match autoClearTimeout s with
  | Some id =>
    if Nat.eqb id 0 then s
    else mkState (errorState s) (hasError s) None
                 (clearTimeout id (timers s)) (nextTimer s)
  | None => s
  end.

Definition clearError (s : State) : State :=
  let s1 := clearAutoClearTimeout s in
  mkState (mkErrorState None None true) false (autoClearTimeout s1)
          (timers s1) (nextTimer s1).

(** [autoClearTimeout = setTimeout(clearError, ms)]. *)
Definition scheduleClear (ms : Z) (s : State) : State :=
  mkState (errorState s) (hasError s) (Some (nextTimer s))
          (timers s ++ [(nextTimer s, ms)]) (S (nextTimer s)).

(** The timer [id] fires: it leaves the pending timers and its callback
    [clearError] runs.  A timer that is not pending does not fire. *)
Definition fire (id : nat) (s : State) : State :=
  if existsb (fun t => Nat.eqb (fst t) id) (timers s) then
    clearError (mkState (errorState s) (hasError s) (autoClearTimeout s)
                        (clearTimeout id (timers s)) (nextTimer s))
  else s.

Section WithOptions.

(** [options.autoClearMs]. *)
Variable autoClearMs : option Z.

(** [autoClearMs && recoverable]: [undefined] and [0] are falsy. *)
Definition autoClears (recoverable : bool) : option Z :=
  match autoClearMs with
  | Some ms => if (ms =? 0) then None
               else if recoverable then Some ms else None
  | None => None
  end.

Definition setError (message : string) (code : option ErrorCode)
           (s : State) : State :=
  let s1 := clearAutoClearTimeout s in
  let s2 := mkState (mkErrorState (Some message)
                                  (Some match code with
                                        | Some c => c
                                        | None => UNKNOWN
                                        end)
                                  true)
                    true (autoClearTimeout s1) (timers s1) (nextTimer s1) in
  match autoClears (recoverable (errorState s2)) with
  | Some ms => scheduleClear ms s2
  | None => s2
  end.

(** Either an error is on display and, when auto-clear is configured, the
    one pending timer is the one the handler remembers; or nothing is on
    display and no timer is pending. *)
Definition settled (s : State) : Prop :=
  recoverable (errorState s) = true
  /\ (1 <= nextTimer s)%nat
  /\ if hasError s
     then message (errorState s) <> None
          /\ code (errorState s) <> None
          /\ match autoClears true with
             | Some ms =>
               exists id, (1 <= id)%nat
                          /\ timers s = [(id, ms)]
                          /\ autoClearTimeout s = Some id
             | None => timers s = []
             end
     else errorState s = mkErrorState None None true
          /\ timers s = [].

(** The handler lives in a page with other state [E]; the lifecycle
    callbacks are code of the page, and may call the handler back. *)
Context {E : Type}.

Definition World : Type := (State * E)%type.

Record Callbacks := mkCallbacks {
  onAuthError : option (Ext World unit);
  onCreditsError : option (Ext World unit)
}.

(** [callbacks?.onAuthError?.()] and [callbacks?.onCreditsError?.()]. *)
Definition invoke (callbacks : option Callbacks)
           (pick : Callbacks -> option (Ext World unit)) : Ext World unit :=
  fun w =>
    match callbacks with
    | Some cbs =>
      match pick cbs with
      | Some f => match f w with
                  | (Ok _, w') => (Ok tt, w')
                  | (Throw e, w') => (Throw e, w')
                  end
      | None => (Ok tt, w)
      end
    | None => (Ok tt, w)
    end.

(** Callbacks that leave the handler alone: whatever they do to the
    page, they do not call the handler back. *)
Definition quiet (callbacks : option Callbacks) : Prop :=
  forall cbs f,
    callbacks = Some cbs ->
    onAuthError cbs = Some f \/ onCreditsError cbs = Some f ->
    forall w, fst (snd (f w)) = fst w.

(** Callbacks that return normally. *)
Definition returning (callbacks : option Callbacks) : Prop :=
  forall cbs f,
    callbacks = Some cbs ->
    onAuthError cbs = Some f \/ onCreditsError cbs = Some f ->
    forall w, exists u, fst (f w) = Ok u.

Definition handleError (error : JsValue) (callbacks : option Callbacks)
  : Ext World unit :=
  fun w =>
    if Errors.isCancellationError error then (Ok tt, w)
    else
      let s1 := clearAutoClearTimeout (fst w) in
      let details := Errors.mapErrorToDetails error in
      let s2 := mkState (mkErrorState (Some (Errors.userMessage details))
                                      (Some (Errors.code details))
                                      (Errors.recoverable details))
                        true (autoClearTimeout s1) (timers s1)
                        (nextTimer s1) in
      let w2 := (s2, snd w) in
      match (if Errors.isAuthError error then invoke callbacks onAuthError w2
             else (Ok tt, w2)) with
      | (Throw e, w3) => (Throw e, w3)
      | (Ok _, w3) =>
        match (if Errors.isCreditsError error
               then invoke callbacks onCreditsError w3
               else (Ok tt, w3)) with
        | (Throw e, w4) => (Throw e, w4)
        | (Ok _, w4) =>
          match autoClears (Errors.recoverable details) with
          | Some ms => (Ok tt, (scheduleClear ms (fst w4), snd w4))
          | None => (Ok tt, w4)
          end
        end
      end.

(** What can happen to a handler: a call of one of its functions, or one
    of its timers firing. *)
Inductive Action :=
| ClearError
| SetError (message : string) (code : option ErrorCode)
| HandleError (error : JsValue) (callbacks : option Callbacks)
| Fire (id : nat).

Definition step (w : World) (a : Action) : World :=
  match a with
  | ClearError => (clearError (fst w), snd w)
  | SetError message code => (setError message code (fst w), snd w)
  | HandleError error callbacks => snd (handleError error callbacks w)
  | Fire id => (fire id (fst w), snd w)
  end.

Definition run (w : World) (actions : list Action) : World :=
  fold_left step actions w.

End WithOptions.
End ErrorHandler.

Module HandlerScenarios.

(** The error [createApiError] builds for a 401 response. *)
Definition sessionExpired : JsValue :=
  ApiError "Session expired. Please sign in again." 401
           (Some "SESSION_EXPIRED").

(** A page that counts the calls of its [onAuthError] callback. *)
Definition countingCallbacks : ErrorHandler.Callbacks (E := nat) :=
  ErrorHandler.mkCallbacks
    (Some (fun w => (Ok tt, (fst w, S (snd w)))))
    None.

End HandlerScenarios.

(* ===================================================================== *)
(** ** App.vue: the processing handlers *)
(* ===================================================================== *)

Module App.

(** [View]: ['login' | 'main' | 'processing']. *)
Inductive View := login | main | processingView.

(** [ToolId]. *)
Inductive ToolId := remove_bg | upscale | inpaint | segment | icon_gen.

(** [config.processing.completionDelay] and
    [config.externalLinks.pricing]. *)
Definition completionDelay : Z := 1000.
Definition pricing : string := "https://maskr.io/pricing".

(** [Math.round((current / total) * 100)]. *)
Definition percent (current total : Z) : Z :=
  Math_round ((inject_Z current / inject_Z total) * 100)%Q.

(** The calls of the store that one image of a batch makes when each of
    its stages is reached: five progress reports, then [completeJob] from
    the body of the loop. *)
Definition reportsOf (total i : Z) (image : Pipeline.PenpotImageInfo)
  : list Store.Action :=
  [Store.UpdateJobProgress
     (Pipeline.id image) (percent i total)
     ("Exporting " ++ Pipeline.name image ++ "...")%string;
   Store.UpdateJobProgress
     (Pipeline.id image) (percent i total)
     ("Processing " ++ Pipeline.name image ++ "...")%string;
   Store.UpdateJobProgress
     (Pipeline.id image) (percent i total) "Downloading mask...";
   Store.UpdateJobProgress
     (Pipeline.id image) (percent i total) "Applying mask...";
   Store.UpdateJobProgress
     (Pipeline.id image) (percent (i + 1) total)
     ("Completed " ++ Pipeline.name image)%string].

Fixpoint actionsFrom (total i : Z) (images : list Pipeline.PenpotImageInfo)
  : list Store.Action :=
  match images with
  | [] => []
  | image :: images' =>
    reportsOf total i image ++ [Store.CompleteJob (Pipeline.id image)]
    ++ actionsFrom total (i + 1) images'
  end.

(** The job of an image that went through all its stages, and the entry
    the history holds for it. *)
Definition finished (image : Pipeline.PenpotImageInfo)
           (job : Store.ProcessingJob) : Prop :=
  Store.j_id job = Pipeline.id image
  /\ Store.j_name job = Pipeline.name image
  /\ Store.j_status job = Store.completed
  /\ Store.j_progress job = 100
  /\ Store.j_stage job = "Done"
  /\ Store.j_error job = None.

Definition recorded (image : Pipeline.PenpotImageInfo)
           (entry : Store.ProcessingHistoryItem) : Prop :=
  Store.h_id entry = Pipeline.id image
  /\ Store.h_name entry = Pipeline.name image
  /\ Store.h_status entry = Store.completed
  /\ Store.h_error entry = None.

Section WithPage.

(** What the component neither owns nor reads here: the Penpot bridge,
    the auth state, the network, the console. *)
Context {E : Type}.

(** The state of the component next to its error handler: the store, the
    ref [currentView], the delays of the pending completion timers, and
    the rest of the page. *)
Record Page := mkPage {
  store : Store.State;
  currentView : View;
  completions : list Z;
  rest : E
}.

(** [errorHandler = useErrorHandler({ autoClearMs: 5000 })] and the
    page. *)
Definition World : Type := ErrorHandler.World (E := Page).

Definition autoClearMs : option Z := Some 5000.

Variable Date_now : nat -> Z.

(** The services and composables the handlers call.  Each is a call into
    code outside the component that runs while the component waits, so
    each may find and leave the component in any state.  The logger is
    given the name of the event and, for an error, the value logged; the
    counts it is also given are read off the store, which it finds in the
    world. *)
Variable api : Api.ApiService World.
Variable applyMaskToImage : Uint8Array -> Uint8Array -> Ext World Uint8Array.
Variable penpot_exportImage : string -> Ext World Uint8Array.
Variable penpot_createImageFromData
  : string -> Uint8Array -> string -> Ext World unit.
Variable auth_logout : Ext World unit.
Variable auth_refreshAccountInfo : Ext World unit.
Variable logger_info : string -> Ext World unit.
Variable logger_error : string -> JsValue -> Ext World unit.
Variable window_open : string -> Ext World unit.

Definition withStore (f : Store.State -> Store.State) : World -> World :=
  fun w => (fst w,
            mkPage (f (store (snd w))) (currentView (snd w))
                   (completions (snd w)) (rest (snd w))).

Definition withHandler (f : ErrorHandler.State -> ErrorHandler.State)
  : World -> World :=
  fun w => (f (fst w), snd w).

(** [currentView.value = v]. *)
Definition setView (v : View) : World -> World :=
  fun w => (fst w,
            mkPage (store (snd w)) v (completions (snd w)) (rest (snd w))).

(** A synchronous step of the component. *)
Definition act (f : World -> World) : M World unit :=
  fun w => (Ok tt, f w, []).

(** A handler used as a callback: its log is dropped. *)
Definition callback {A} (m : M World A) : Ext World A :=
  fun w => (fst (fst (m w)), snd (fst (m w))).

Definition handleSignOut : M World unit :=
  (lift auth_logout ;;;
   act (setView login) ;;;
   act (withHandler ErrorHandler.clearError))%eff.

(** The [onProgress] callback given to [process]. *)
Definition onProgress (progress : ProcessingProgress) : Ext World unit :=
  fun w =>
    (Ok tt,
     withStore (Store.updateJobProgress
                  Date_now (pp_imageId progress)
                  (percent (pp_current progress) (pp_total progress))
                  (pp_status progress)) w).

(** The body of the [for await] loop. *)
Definition consume (result : ProcessingResult) : Ext World unit :=
  fun w =>
    penpot_createImageFromData
      (pr_name result) (pr_resultData result) (pr_imageId result)
      (withStore (Store.completeJob Date_now (pr_imageId result)) w).

(** The callback of [setTimeout(..., config.processing.completionDelay)]. *)
Definition completion : World -> World :=
  fun w => withStore Store.reset (setView main w).

(** [setTimeout(completion, config.processing.completionDelay)]. *)
Definition scheduleCompletion : World -> World :=
  fun w => (fst w,
            mkPage (store (snd w)) (currentView (snd w))
                   (completions (snd w) ++ [completionDelay]) (rest (snd w))).

(** The signal [startBatch] returned, read through the world. *)
Definition signalOf (c : nat) : AbortSignal World :=
  fun w => Store.signal_aborted (store (snd w)) c.

(** The [catch (err)] block of [processRemoveBackground]. *)
Definition onFailure (err : JsValue) : M World unit :=
  ((fun w =>
      match Store.currentJob (store (snd w)), error_message err with
      | Some currentJob, Some message =>
        act (withStore (Store.failJob Date_now (Store.j_id currentJob)
                                      message)) w
      | _, _ => ret tt w
      end) ;;;
   act (withStore Store.finish) ;;;
   act (setView main) ;;;
   lift (logger_error "Processing failed"
                      match error_message err with
                      | Some _ => err
                      | None => Error (AppErrors.String_of err)
                      end) ;;;
   lift (ErrorHandler.handleError
           autoClearMs err
           (Some (ErrorHandler.mkCallbacks
                    (Some (callback handleSignOut))
                    (Some (window_open pricing))))))%eff.

(** The [try] block of [processRemoveBackground]. *)
Definition attempt (images : list Pipeline.PenpotImageInfo) (signal : nat)
  : M World unit :=
  (Pipeline.process api applyMaskToImage penpot_exportImage onProgress
                    (Some (signalOf signal)) images consume ;;;
   act (withStore Store.finish) ;;;
   lift auth_refreshAccountInfo ;;;
   lift (logger_info "Processing completed") ;;;
   act scheduleCompletion)%eff.

Definition processRemoveBackground (images : list Pipeline.PenpotImageInfo)
  : M World unit :=
  match images with
  | [] => ret tt
  | _ :: _ =>
    (act (setView processingView) ;;;
     act (withHandler ErrorHandler.clearError) ;;;
     signal <- (fun w =>
                  let '(s, c) :=
                    Store.startBatch
                      (map (fun img => Store.mkItem (Pipeline.id img)
                                                    (Pipeline.name img))
                           images)
                      (store (snd w)) in
                  (Ok c, withStore (fun _ => s) w, [])) ;;
     lift (logger_info "Processing started") ;;;
     try_catch (attempt images signal) onFailure)%eff
  end.

(** [handleProcess(toolId)] with [images = penpot.selection.value]. *)
Definition handleProcess (images : list Pipeline.PenpotImageInfo)
           (toolId : ToolId) : M World unit :=
  match toolId with
  | remove_bg => processRemoveBackground images
  | _ => act (withHandler (ErrorHandler.setError
                             autoClearMs "This feature is coming soon!" None))
  end.

Definition handleCancelProcessing : M World unit :=
  (act (withStore (Store.cancel Date_now)) ;;;
   act (withStore Store.finish) ;;;
   act (setView main) ;;;
   lift (logger_info "Processing cancelled"))%eff.

(** A collaborator that leaves the component alone: it changes at most
    the rest of the page. *)
Definition aside {A} (f : Ext World A) : Prop :=
  forall w, fst (snd (f w)) = fst w
            /\ store (snd (snd (f w))) = store (snd w)
            /\ currentView (snd (snd (f w))) = currentView (snd w)
            /\ completions (snd (snd (f w))) = completions (snd w).

(** A collaborator that resolves. *)
Definition resolves {A} (f : Ext World A) : Prop :=
  forall w, exists a, fst (f w) = Ok a.

End WithPage.
End App.

Module AppScenarios.

Definition World : Type := App.World (E := unit).

(** A collaborator that resolves with [a] and touches nothing. *)
Definition silent {A} (a : A) : Ext World A := fun w => (Ok a, w).

(** A batch of two images, the first of which is being exported. *)
Definition exportingFirst : World :=
  (ErrorHandler.initial,
   App.mkPage (Store.run Scenario.clock Store.initial
                         [Store.StartBatch [Scenario.item1; Scenario.item2];
                          Store.UpdateJobProgress "1" 0
                                                  "Exporting Image 1..."])
              App.processingView [] tt).

(** A fresh component showing the main view. *)
Definition idle : World :=
  (ErrorHandler.initial, App.mkPage Store.initial App.main [] tt).

(** A remote API that answers every request. *)
Definition steadyApi : Api.ApiService World :=
  Api.mkApiService
    (fun _ _ _ w =>
       (Ok (Api.mkRemoveBgResponse (Api.mkRemoveBgResult Scenario.maskUrl 1)),
        w, []))
    (fun _ _ w => (Ok [], w, [])).

End AppScenarios.
(* ===================================================================== *)
(** ** Results *)
(* ===================================================================== *)

(** *** Error classifier *)

(** C10.  Whatever value is caught -- an error of any class or a value
    that is no [Error] at all -- [mapErrorToDetails] answers with
    [recoverable = true], and so [isRecoverableError] is constantly [true]. *)
Theorem mapErrorToDetails_always_recoverable :
  forall error : JsValue,
    Errors.recoverable (Errors.mapErrorToDetails error) = true
    /\ Errors.isRecoverableError error = true.
Proof.
  intro error.
  assert (H : Errors.recoverable (Errors.mapErrorToDetails error) = true).
  { unfold Errors.mapErrorToDetails.
    destruct (isAbortError error); [reflexivity|].
    destruct error; simpl;
      repeat match goal with
             | |- context [if ?b then _ else _] => destruct b
             end; reflexivity. }
  split; [exact H | exact H].
Qed.

(** *** Default retry predicate *)

Lemma isRetryableError_abort :
  forall message, Retry.isRetryableError (DOMException message "AbortError") = false.
Proof. reflexivity. Qed.

Lemma isRetryableError_non_error :
  forall d, Retry.isRetryableError (JsNonError d) = false.
Proof. reflexivity. Qed.

(** C5.  The predicate looks for the substring [timeout] in the lower-cased
    message.  The [TimeoutError] that [withTimeout] rejects with says
    "Operation timed out after 10000ms" (10000 is
    [config.penpot.messageTimeout]): the predicate answers [false] for it,
    although a plain [Error('Request timeout')] is retryable.  In the same
    way the [ApiError] built by [createApiError] for a 500 or 503 response
    carries the status text, not the number, and is not retried, although
    [Error('Server returned 500')] is. *)
Theorem isRetryableError_misses_withTimeout_error :
  Cleanup.withTimeout (W := unit) (T := unit) (fun _ w => (None, w)) 10000 None tt
  = (Throw (TimeoutError "Operation timed out after 10000ms"), tt)
  /\ Retry.isRetryableError (TimeoutError "Operation timed out after 10000ms")
     = false
  /\ Retry.isRetryableError (Error "Request timeout") = true
  /\ Retry.isRetryableError (Api.createApiError 500 "Internal Server Error")
     = false
  /\ Retry.isRetryableError (Api.createApiError 503 "Service Unavailable")
     = false
  /\ Retry.isRetryableError (Error "Server returned 500") = true.
Proof. repeat split; reflexivity. Qed.

(** *** Job store: terminal statuses *)

(** [completeJob] and [failJob] act on the job found by id whatever its
    status is, and each call puts one more entry in front of the history. *)
Lemma completeJob_ignores_status :
  forall (Date_now : nat -> Z) (s : Store.State) (id : string)
         (job : Store.ProcessingJob),
    Store.find_job id (Store.jobs s) = Some job ->
    let now := Date_now (Store.ticks s) in
    Store.history (Store.completeJob Date_now id s)
    = Store.mkHistoryItem (Store.j_id job) (Store.j_name job) Store.completed
                          (Store.duration job now) now None
      :: Store.history s.
Proof.
  intros Date_now s id job Hfind. unfold Store.completeJob.
  now rewrite Hfind.
Qed.

Lemma failJob_ignores_status :
  forall (Date_now : nat -> Z) (s : Store.State) (id error : string)
         (job : Store.ProcessingJob),
    Store.find_job id (Store.jobs s) = Some job ->
    let now := Date_now (Store.ticks s) in
    Store.history (Store.failJob Date_now id error s)
    = Store.mkHistoryItem (Store.j_id job) (Store.j_name job) Store.failed
                          (Store.duration job now) now (Some error)
      :: Store.history s.
Proof.
  intros Date_now s id error job Hfind. unfold Store.failJob.
  now rewrite Hfind.
Qed.

(** C2.  [completeJob] and [failJob] do not look at the job's status.  A
    job cancelled while its last stage was running is still completed by
    the caller when the pipeline yields: it leaves [cancelled] for
    [completed] and gets a second history entry.  Likewise a completed job
    can be failed. *)
Theorem terminal_status_overwritten :
  forall Date_now : nat -> Z,
    let cancelled_then_completed :=
      [Store.StartBatch [Scenario.item1];
       Store.UpdateJobProgress "1" 0 "Applying mask...";
       Store.Cancel] in
    let s1 := Store.run Date_now Store.initial cancelled_then_completed in
    let s2 := Store.step Date_now s1 (Store.CompleteJob "1") in
    let s3 := Store.step Date_now s2 (Store.FailJob "1" "boom") in
    map Store.j_status (Store.jobs s1) = [Store.cancelled]
    /\ map Store.h_status (Store.history s1) = [Store.cancelled]
    /\ map Store.j_status (Store.jobs s2) = [Store.completed]
    /\ map (fun h => (Store.h_id h, Store.h_status h)) (Store.history s2)
       = [("1", Store.completed); ("1", Store.cancelled)]
    /\ map Store.j_status (Store.jobs s3) = [Store.failed]
    /\ map (fun h => (Store.h_id h, Store.h_status h)) (Store.history s3)
       = [("1", Store.failed); ("1", Store.completed); ("1", Store.cancelled)].
Proof. intro Date_now. repeat split; reflexivity. Qed.

(** *** Cleanup registry *)

Lemma registered_in_order :
  forall (W : Type) (fns acc : Cleanup.Registry W),
    fold_left (fun r fn => Cleanup.register fn r) fns acc = acc ++ fns.
Proof.
  intros W fns; induction fns as [|fn fns IH]; intro acc; simpl.
  - now rewrite app_nil_r.
  - rewrite IH. unfold Cleanup.register. now rewrite <- app_assoc.
Qed.

Lemma pop_last :
  forall (W : Type) (fns : Cleanup.Registry W) (fn : Cleanup.CleanupFn W),
    Cleanup.pop (fns ++ [fn]) = (Some fn, fns).
Proof.
  intros W fns fn. unfold Cleanup.pop.
  rewrite rev_unit. now rewrite rev_involutive.
Qed.

Lemma cleanup_loop_spec :
  forall (W : Type) (fns : Cleanup.Registry W) (fuel : nat) (w : W),
    (List.length fns <= fuel)%nat ->
    Cleanup.cleanup_loop fuel fns w
    = Some ([], fst (run_all (rev fns) w), snd (run_all (rev fns) w)).
Proof.
  intros W fns. induction fns as [|fn fns IH] using rev_ind; intros fuel w Hfuel.
  - destruct fuel; reflexivity.
  - rewrite length_app in Hfuel. simpl in Hfuel.
    destruct fuel as [|fuel]; [lia|].
    simpl. unfold Cleanup.size at 1. rewrite length_app. simpl.
    destruct (Z.of_nat (List.length fns + 1) >? 0) eqn:Hpos.
    2:{ rewrite Z.gtb_ltb in Hpos. apply Z.ltb_ge in Hpos. lia. }
    rewrite pop_last, rev_unit. simpl.
    destruct (fn w) as [[error|] w'] eqn:Hfn;
      rewrite (IH fuel w') by lia;
      destruct (run_all (rev fns) w') as [w'' log]; reflexivity.
Qed.

Lemma run_all_invokes :
  forall (W : Type) (fs : list (Cleanup.CleanupFn W)) (w : W),
    map fst (snd (run_all fs w)) = fs.
Proof.
  intros W fs; induction fs as [|f fs IH]; intro w; simpl; [reflexivity|].
  destruct (f w) as [thrown w']. specialize (IH w').
  destruct (run_all fs w') as [w'' log]. simpl in *. now rewrite IH.
Qed.

(** C8.  After any sequence of [register] calls, [cleanup()] terminates,
    calls the registered functions once each, last registered first, goes
    on after a function that throws (its error is only logged), and leaves
    the registry empty. *)
Theorem cleanup_runs_all_in_reverse :
  forall (W : Type) (fns : list (Cleanup.CleanupFn W)) (w : W),
    let registry :=
      fold_left (fun r fn => Cleanup.register fn r) fns
                Cleanup.createCleanupRegistry in
    exists final w' log,
      Cleanup.cleanup registry w = Some (final, w', log)
      /\ map fst log = rev fns
      /\ (w', log) = run_all (rev fns) w
      /\ Cleanup.size final = 0.
Proof.
  intros W fns w registry. subst registry.
  rewrite registered_in_order. simpl.
  exists [], (fst (run_all (rev fns) w)), (snd (run_all (rev fns) w)).
  repeat split.
  - unfold Cleanup.cleanup. now apply cleanup_loop_spec.
  - apply run_all_invokes.
  - now destruct (run_all (rev fns) w).
Qed.

(** *** Job store: cancel *)

Lemma abort_length :
  forall c cs, List.length (Store.abort c cs) = List.length cs.
Proof.
  intros c cs; revert c; induction cs as [|b cs IH]; intros [|c]; simpl;
    try reflexivity.
  now rewrite IH.
Qed.

Lemma abort_sets_flag :
  forall c cs, (c < List.length cs)%nat -> nth c (Store.abort c cs) false = true.
Proof.
  intros c cs; revert c; induction cs as [|b cs IH]; intros [|c] H; simpl in *;
    try lia; try reflexivity.
  apply IH. lia.
Qed.

Lemma cancel_jobs_spec :
  forall Date_now js hist t,
    exists entries,
      Store.cancel_jobs Date_now js hist t
      = (fst (fst (Store.cancel_jobs Date_now js hist t)),
         rev entries ++ hist,
         (t + List.length entries)%nat)
      /\ Forall2 cancel_outcome js
                 (fst (fst (Store.cancel_jobs Date_now js hist t)))
      /\ map (fun h => (Store.h_id h, Store.h_name h, Store.h_status h)) entries
         = map (fun j => (Store.j_id j, Store.j_name j, Store.cancelled))
               (filter Store.cancellable js).
Proof.
  intros Date_now js; induction js as [|job js IH]; intros hist t.
  - exists []. simpl. repeat split; [now rewrite Nat.add_0_r | constructor].
  - simpl. destruct (Store.cancellable job) eqn:Hc.
    + destruct (IH (Store.cancelledEntry job (Date_now t) :: hist) (S t))
        as (entries & Heq & Hjobs & Hentries).
      destruct (Store.cancel_jobs Date_now js _ (S t)) as [[js' hist'] t'].
      simpl in *. inversion Heq; subst hist' t'.
      exists (Store.cancelledEntry job (Date_now t) :: entries). simpl.
      repeat split.
      * rewrite <- app_assoc. simpl. f_equal. lia.
      * constructor; [|assumption].
        unfold cancel_outcome. rewrite Hc. now repeat split.
      * now rewrite Hentries.
    + destruct (IH hist t) as (entries & Heq & Hjobs & Hentries).
      destruct (Store.cancel_jobs Date_now js hist t) as [[js' hist'] t'].
      simpl in *. inversion Heq; subst hist' t'.
      exists entries. repeat split; [|assumption].
      constructor; [|assumption].
      unfold cancel_outcome. now rewrite Hc.
Qed.

Lemma step_controller_allocated :
  forall Date_now s a,
    controller_allocated s -> controller_allocated (Store.step Date_now s a).
Proof.
  intros Date_now s a H. unfold controller_allocated in *.
  destruct a; simpl.
  - rewrite length_app. simpl. lia.
  - unfold Store.updateJobProgress. now destruct (Store.find_job _ _).
  - unfold Store.completeJob. now destruct (Store.find_job _ _).
  - unfold Store.failJob. now destruct (Store.find_job _ _).
  - unfold Store.cancel. destruct (Store.abortController s) as [c|] eqn:Hc.
    + destruct (Store.cancel_jobs _ _ _ _) as [[js hist] t]. simpl.
      now rewrite abort_length.
    + now rewrite Hc.
  - exact I.
  - exact I.
  - exact H.
Qed.

Lemma run_controller_allocated :
  forall Date_now actions s,
    controller_allocated s -> controller_allocated (Store.run Date_now s actions).
Proof.
  intros Date_now actions; induction actions as [|a actions IH]; intros s H.
  - exact H.
  - simpl. apply IH. now apply step_controller_allocated.
Qed.

(** C6.  In any state the store can reach, if a batch is active (the store
    holds a controller), [cancel()] turns every pending or processing job
    into a cancelled one and leaves the other jobs as they are; it puts in
    front of the history one [cancelled] entry per job it cancelled, the
    entry of the last such job first; and the signal that [startBatch]
    handed out for this controller reports [aborted]. *)
Theorem cancel_cancels_open_jobs :
  forall (Date_now : nat -> Z) (actions : list Store.Action) (c : nat),
    let s := Store.run Date_now Store.initial actions in
    Store.abortController s = Some c ->
    let s' := Store.cancel Date_now s in
    Forall2 cancel_outcome (Store.jobs s) (Store.jobs s')
    /\ (exists entries,
           Store.history s' = rev entries ++ Store.history s
           /\ map (fun h => (Store.h_id h, Store.h_name h, Store.h_status h))
                  entries
              = map (fun j => (Store.j_id j, Store.j_name j, Store.cancelled))
                    (filter Store.cancellable (Store.jobs s)))
    /\ Store.signal_aborted s' c = true.
Proof.
  intros Date_now actions c s Hc s'.
  assert (Hwf : controller_allocated s).
  { apply run_controller_allocated. exact I. }
  unfold controller_allocated in Hwf. rewrite Hc in Hwf.
  subst s'. unfold Store.cancel. rewrite Hc.
  destruct (cancel_jobs_spec Date_now (Store.jobs s) (Store.history s)
                             (Store.ticks s))
    as (entries & Heq & Hjobs & Hentries).
  destruct (Store.cancel_jobs Date_now (Store.jobs s) (Store.history s)
                              (Store.ticks s)) as [[js hist] t].
  simpl in *. inversion Heq; subst hist t.
  split; [assumption|]. split.
  - exists entries. now split.
  - unfold Store.signal_aborted. simpl. now apply abort_sets_flag.
Qed.

Lemma cancel_cancels_open_jobs_witness :
  let s := Store.run Scenario.clock Store.initial
                     [Store.StartBatch [Scenario.item1; Scenario.item2]] in
  let s' := Store.cancel Scenario.clock s in
  Forall2 cancel_outcome (Store.jobs s) (Store.jobs s')
  /\ (exists entries,
         Store.history s' = rev entries ++ Store.history s
         /\ map (fun h => (Store.h_id h, Store.h_name h, Store.h_status h))
                entries
            = map (fun j => (Store.j_id j, Store.j_name j, Store.cancelled))
                  (filter Store.cancellable (Store.jobs s)))
  /\ Store.signal_aborted s' 0 = true.
Proof.
  apply (cancel_cancels_open_jobs Scenario.clock
           [Store.StartBatch [Scenario.item1; Scenario.item2]] 0%nat).
  reflexivity.
Defined.

(** *** Job store: aggregate progress *)

Lemma Math_round_compat :
  forall x y : Q, (x == y)%Q -> Math_round x = Math_round y.
Proof.
  intros x y H. unfold Math_round. apply Qfloor_comp. now rewrite H.
Qed.

Lemma inject_Z_length_nonzero :
  forall (A : Type) (l : list A),
    l <> [] -> ~ (inject_Z (Z.of_nat (List.length l)) == 0)%Q.
Proof.
  intros A l Hl H. destruct l as [|a l]; [now apply Hl|].
  unfold Qeq in H. simpl in H. lia.
Qed.




(** *** Retry executor *)

Lemma Zseq_cons :
  forall from n, Zseq from (S n) = from :: Zseq (from + 1) n.
Proof.
  intros from n. unfold Zseq. simpl. rewrite Z.add_0_r. f_equal.
  rewrite <- seq_shift, map_map. apply map_ext. intro i. lia.
Qed.

Lemma operations_app :
  forall t1 t2, operations (t1 ++ t2) = operations t1 ++ operations t2.
Proof.
  induction t1 as [|ev t1 IH]; intro t2; [reflexivity|].
  destruct ev; simpl; now rewrite IH.
Qed.

Lemma waits_app :
  forall t1 t2, waits (t1 ++ t2) = waits t1 ++ waits t2.
Proof.
  induction t1 as [|ev t1 IH]; intro t2; [reflexivity|].
  destruct ev; simpl; now rewrite IH.
Qed.

Lemma retries_app :
  forall t1 t2, retries (t1 ++ t2) = retries t1 ++ retries t2.
Proof.
  induction t1 as [|ev t1 IH]; intro t2; [reflexivity|].
  destruct ev; simpl; now rewrite IH.
Qed.

Section RetryFacts.

Context {W T : Type}.
Variable elapse : Z -> W -> W.
Variable Math_random : W -> Q * W.
Variable fn : Ext W T.
Variables (N b Mx m : Z).
Variable j : bool.
Variable isR : JsValue -> bool.
Variable onR : option (Z -> JsValue -> Z -> Ext W unit).
Variable sig : option (AbortSignal W).

Let loop := Retry.retry_loop elapse Math_random fn N b Mx m j isR onR sig.

(** One iteration of the loop. *)
Lemma retry_loop_step :
  forall (r : nat) (attempt : Z) (lastError : JsValue) (w : W),
    loop (S r) attempt lastError w
    = if aborted sig w then (Throw Retry.AbortedException, w, [])
      else
        match fn w with
        | (Ok v, w1) => (Ok v, w1, [EvOperation attempt None])
        | (Throw error, w1) =>
          let '(res, w2, t) :=
            (if attempt >=? N then throw error
             else if negb (isR error) then throw error
             else
               delay <- (fun w => let '(d, w') :=
                           Retry.calculateDelay Math_random attempt b Mx m j w in
                         (Ok d, w', [])) ;;
               match onR with
               | Some cb => emit (EvOnRetry attempt error delay) ;;;
                            lift (cb attempt error delay)
               | None => ret tt
               end ;;;
               Retry.sleep elapse delay sig ;;;
               loop r (attempt + 1) error)%eff w1 in
          (res, w2, EvOperation attempt (Some error) :: t)
        end.
Proof. reflexivity. Qed.

(** An iteration whose invocation rejects with a retryable error before
    the last attempt, under a signal that does not fire and an [onRetry]
    that returns: it logs the attempt, the callback and the wait, and goes
    on with the next attempt. *)
Lemma retry_loop_retries :
  forall (r : nat) (attempt : Z) (lastError e : JsValue) (w w1 : W),
    (forall w, aborted sig w = false) ->
    (forall cb attempt e d w, onR = Some cb -> fst (cb attempt e d w) = Ok tt) ->
    fn w = (Throw e, w1) ->
    attempt < N ->
    isR e = true ->
    exists w3 d evs,
      operations evs = []
      /\ d = fst (Retry.calculateDelay Math_random attempt b Mx m j w1)
      /\ waits evs = [d]
      /\ retries evs = match onR with
                       | Some _ => [(attempt, e, d)]
                       | None => []
                       end
      /\ loop (S r) attempt lastError w
         = let '(res, w', t) := loop r (attempt + 1) e w3 in
           (res, w', EvOperation attempt (Some e) :: evs ++ t).
Proof.
  intros r attempt lastError e w w1 Hsig Hcb Hw Hlt Hretry.
  destruct (Retry.calculateDelay Math_random attempt b Mx m j w1)
    as [d w2] eqn:Hd.
  rewrite retry_loop_step, Hsig, Hw.
  replace (attempt >=? N) with false
    by (symmetry; rewrite Z.geb_leb; apply Z.leb_gt; lia).
  rewrite Hretry. cbn [negb].
  unfold bind, emit, lift, ret, Retry.sleep. rewrite Hd.
  destruct onR as [cb|] eqn:HonR.
  - destruct (cb attempt e d w2) as [rc w3] eqn:Hc.
    pose proof (Hcb cb attempt e d w2 eq_refl) as Hok.
    rewrite Hc in Hok. simpl in Hok. subst rc.
    exists (elapse d w3), d, [EvOnRetry attempt e d; EvSleep d].
    repeat split. rewrite !Hsig.
    destruct (loop r (attempt + 1) e (elapse d w3)) as [[res w'] t].
    reflexivity.
  - exists (elapse d w2), d, [EvSleep d].
    repeat split. rewrite !Hsig.
    destruct (loop r (attempt + 1) e (elapse d w2)) as [[res w'] t].
    reflexivity.
Qed.

(** An operation that always rejects with a retryable error, under a
    signal that never fires and an [onRetry] that returns: the loop uses
    all the iterations it has left. *)
Lemma retry_loop_exhausts :
  (forall w, aborted sig w = false) ->
  (forall w, exists e, fst (fn w) = Throw e /\ isR e = true) ->
  (forall cb attempt e d w, onR = Some cb -> fst (cb attempt e d w) = Ok tt) ->
  forall (r : nat) (attempt : Z) (lastError : JsValue) (w : W),
    attempt + Z.of_nat (S r) = N + 1 ->
    exists e w' t earlier,
      loop (S r) attempt lastError w = (Throw e, w', t)
      /\ map fst (operations t) = Zseq attempt (S r)
      /\ operations t = earlier ++ [(N, Some e)].
Proof.
  intros Hsig Hfn Hcb.
  induction r as [|r IH]; intros attempt lastError w Hinv.
  - destruct (Hfn w) as (e & He & _).
    destruct (fn w) as [res w1] eqn:Hw. simpl in He. subst res.
    exists e, w1, [EvOperation attempt (Some e)], [].
    rewrite retry_loop_step, Hsig, Hw.
    replace (attempt >=? N) with true by (symmetry; apply Z.geb_le; lia).
    simpl. repeat split.
    + unfold Zseq. simpl. now rewrite Z.add_0_r.
    + repeat f_equal. lia.
  - destruct (Hfn w) as (e & He & Hretry).
    destruct (fn w) as [res w1] eqn:Hw. simpl in He. subst res.
    destruct (retry_loop_retries (S r) attempt lastError e w w1 Hsig Hcb Hw)
      as (w3 & d & evs & Hevs & _ & _ & _ & Hstep); [lia | exact Hretry |].
    destruct (IH (attempt + 1) e w3)
      as (e' & w' & t & earlier & Hrun & Hatt & Hlast); [lia|].
    rewrite Hrun in Hstep.
    exists e', w', (EvOperation attempt (Some e) :: evs ++ t),
      ((attempt, Some e) :: earlier).
    split; [exact Hstep|].
    simpl. rewrite operations_app, Hevs. simpl. split.
    + rewrite Hatt. now rewrite (Zseq_cons attempt (S r)).
    + now rewrite Hlast.
Qed.



End RetryFacts.

(** C3.  With [maxAttempts = N >= 1], a signal that never fires, an
    operation that rejects on every invocation with an error the predicate
    in force accepts as retryable (and an [onRetry], if given, that
    returns): [withRetry] invokes the operation on the attempts
    [1, ..., N], that is exactly [N] times, and rejects with the very error
    of the [N]-th invocation. *)
Theorem withRetry_exhausts_attempts :
  forall (W T : Type) (elapse : Z -> W -> W) (Math_random : W -> Q * W)
         (fn : Ext W T) (options : Retry.RetryOptions) (N : Z) (w : W),
    1 <= N ->
    Retry.maxAttempts options = Some N ->
    (forall w, aborted (Retry.signal options) w = false) ->
    (forall w, exists e,
        fst (fn w) = Throw e
        /\ Retry.orDefault (Retry.isRetryable options) Retry.isRetryableError e
           = true) ->
    (forall cb attempt e d w,
        Retry.onRetry options = Some cb -> fst (cb attempt e d w) = Ok tt) ->
    exists e w' t earlier,
      Retry.withRetry elapse Math_random fn options w = (Throw e, w', t)
      /\ Z.of_nat (List.length (operations t)) = N
      /\ map fst (operations t) = Zseq 1 (Z.to_nat N)
      /\ operations t = earlier ++ [(N, Some e)].
Proof.
  intros W T elapse Math_random fn options N w HN Hmax Hsig Hfn Hcb.
  unfold Retry.withRetry. rewrite Hmax. cbn [Retry.orDefault].
  destruct (Z.to_nat N) as [|r] eqn:Hr; [lia|].
  destruct (retry_loop_exhausts elapse Math_random fn N
              (Retry.orDefault (Retry.baseDelay options) 1000)
              (Retry.orDefault (Retry.maxDelay options) 30000)
              (Retry.orDefault (Retry.multiplier options) 2)
              (Retry.orDefault (Retry.jitter options) true)
              (Retry.orDefault (Retry.isRetryable options)
                               Retry.isRetryableError)
              (Retry.onRetry options) (Retry.signal options)
              Hsig Hfn Hcb r 1 (JsNonError "undefined") w)
    as (e & w' & t & earlier & Hrun & Hatt & Hlast); [lia|].
  exists e, w', t, earlier. repeat split; try assumption.
  rewrite <- (length_map fst), Hatt. unfold Zseq.
  rewrite length_map, length_seq. lia.
Qed.

Lemma withRetry_exhausts_attempts_witness :
  exists e w' t earlier,
    Retry.withRetry Scenario.no_elapse Scenario.fixed_random
                    Scenario.alwaysFails Scenario.scenarioOptions 0%nat
    = (Throw e, w', t)
    /\ Z.of_nat (List.length (operations t)) = 3
    /\ map fst (operations t) = Zseq 1 (Z.to_nat 3)
    /\ operations t = earlier ++ [(3, Some e)].
Proof.
  apply (withRetry_exhausts_attempts Scenario.World string Scenario.no_elapse
           Scenario.fixed_random Scenario.alwaysFails Scenario.scenarioOptions
           3 0%nat).
  - lia.
  - reflexivity.
  - reflexivity.
  - intro w. exists Scenario.networkError. split; reflexivity.
  - intros cb attempt e d w H. injection H as <-. reflexivity.
Defined.



(** *** Pipeline *)

Section PipelineFacts.

Context {W : Type}.
Variable api : Api.ApiService W.
Variable applyMaskToImage : Uint8Array -> Uint8Array -> Ext W Uint8Array.
Variable exportImage : string -> Ext W Uint8Array.
Variable onProgress : ProcessingProgress -> Ext W unit.
Variable signal : option (AbortSignal W).

Let item := Pipeline.process_item api applyMaskToImage exportImage onProgress
                                  signal.

(** The progress reports of the first three stages. *)
Let exportingOf (total i : Z) (image : Pipeline.PenpotImageInfo) :=
  mkProgress i total ("Exporting " ++ Pipeline.name image ++ "...")%string
             (Pipeline.id image) exporting.
Let processingOf (total i : Z) (image : Pipeline.PenpotImageInfo) :=
  mkProgress i total ("Processing " ++ Pipeline.name image ++ "...")%string
             (Pipeline.id image) processing.
Let filenameOf (image : Pipeline.PenpotImageInfo) :=
  (Pipeline.name image ++ ".png")%string.

(** A rejection of [removeBackground] is the rejection of the item: the
    call is made once, and nothing follows it. *)
Lemma process_item_removeBackground_rejects :
  forall (total i : Z) (image : Pipeline.PenpotImageInfo)
         (w w1 w2 w3 w4 : W) (imageData : Uint8Array) (e : JsValue)
         (t : list Event),
    aborted signal w = false ->
    onProgress (exportingOf total i image) w = (Ok tt, w1) ->
    exportImage (Pipeline.id image) w1 = (Ok imageData, w2) ->
    aborted signal w2 = false ->
    onProgress (processingOf total i image) w2 = (Ok tt, w3) ->
    Api.removeBackground api imageData (filenameOf image) signal w3
    = (Throw e, w4, t) ->
    item total i image w
    = (Throw e, w4,
       [EvProgress (exportingOf total i image);
        EvExportImage (Pipeline.id image);
        EvProgress (processingOf total i image);
        EvRemoveBackground (filenameOf image)] ++ t).
Proof.
  intros total i image w w1 w2 w3 w4 imageData e t Ha Hp1 Hex Ha2 Hp2 Hrb.
  subst item exportingOf processingOf filenameOf. cbv beta in *.
  unfold Pipeline.process_item, Pipeline.checkCancelled, Pipeline.report,
    bind, emit, lift, ret.
  rewrite Ha, Hp1, Hex, Ha2, Hp2, Hrb. reflexivity.
Qed.


(** The first rejection of an item ends the sequence. *)
Lemma process_rejects_with_first_item :
  forall (consumer : ProcessingResult -> Ext W unit)
         (image : Pipeline.PenpotImageInfo)
         (rest : list Pipeline.PenpotImageInfo) (w w' : W) (e : JsValue)
         (t : list Event),
    item (Z.of_nat (List.length (image :: rest))) 0 image w = (Throw e, w', t) ->
    Pipeline.process api applyMaskToImage exportImage onProgress signal
                     (image :: rest) consumer w
    = (Throw e, w', t).
Proof.
  intros consumer image rest w w' e t H. subst item.
  unfold Pipeline.process. cbn [Pipeline.process_loop]. unfold bind at 1.
  now rewrite H.
Qed.

End PipelineFacts.

Section RetryScenario.

Context {W T : Type}.
Variable elapse : Z -> W -> W.
Variable Math_random : W -> Q * W.


(** An operation whose first invocation rejects with an error that the
    default predicate does not retry is invoked once; there is no wait. *)
Lemma withRetry_gives_up_on_non_retryable :
  forall (fn : Ext W T) (e : JsValue) (w w1 : W),
    fn w = (Throw e, w1) ->
    Retry.isRetryableError e = false ->
    Retry.withRetry elapse Math_random fn Retry.noOptions w
    = (Throw e, w1, [EvOperation 1 (Some e)]).
Proof.
  intros fn e w w1 Hfail Hretry.
  unfold Retry.withRetry. cbn [Retry.orDefault Retry.maxAttempts
    Retry.baseDelay Retry.maxDelay Retry.multiplier Retry.jitter
    Retry.isRetryable Retry.onRetry Retry.signal Retry.noOptions].
  change (Z.to_nat 3) with 3%nat.
  rewrite retry_loop_step. cbn [aborted]. rewrite Hfail.
  change (1 >=? 3) with false. rewrite Hretry. reflexivity.
Qed.

End RetryScenario.




(** *** Missing token *)

(** Without a token [request] rejects before it reaches [fetch]. *)
Lemma request_without_token :
  forall (W T : Type) (baseUrl : string)
         (fetch : forall T : Type, string -> option (AbortSignal W)
                                   -> Ext W (Api.Response T))
         (getToken : W -> option string) (endpoint : string)
         (signal : option (AbortSignal W)) (w : W),
    getToken w = None ->
    Api.request (T := T) baseUrl fetch getToken endpoint signal w
    = (Throw (ApiError "Not authenticated" 401 (Some "UNAUTHENTICATED")), w,
       [EvGetToken]).
Proof.
  intros W T baseUrl fetch getToken endpoint signal w Htoken.
  unfold Api.request, bind, emit. now rewrite Htoken.
Qed.

(** C9.  When the token provider returns [null], [removeBackground]
    rejects with the [ApiError] of status 401 after asking for the token and
    nothing else: [fetch] is not called.  The classifier maps this error to
    [SESSION_EXPIRED].  In the pipeline the processing stage of the first
    item rejects with it; the log of the whole run holds no request and no
    wait.  The error is not retryable, so that even under [withRetry] the
    call would be attempted once and not retried. *)
Theorem missing_token_fails_without_request :
  forall (W : Type) (baseUrl : string)
         (fetch : forall T : Type, string -> option (AbortSignal W)
                                   -> Ext W (Api.Response T))
         (getToken : W -> option string)
         (applyMaskToImage : Uint8Array -> Uint8Array -> Ext W Uint8Array)
         (exportImage : string -> Ext W Uint8Array)
         (onProgress : ProcessingProgress -> Ext W unit)
         (signal : option (AbortSignal W))
         (consumer : ProcessingResult -> Ext W unit)
         (image : Pipeline.PenpotImageInfo)
         (rest : list Pipeline.PenpotImageInfo)
         (imageData : Uint8Array) (w w1 w2 w3 : W),
    let api := Api.createApiService baseUrl fetch getToken in
    let unauthenticated :=
      ApiError "Not authenticated" 401 (Some "UNAUTHENTICATED") in
    let total := Z.of_nat (List.length (image :: rest)) in
    let exportingP :=
      mkProgress 0 total ("Exporting " ++ Pipeline.name image ++ "...")%string
                 (Pipeline.id image) exporting in
    let processingP :=
      mkProgress 0 total ("Processing " ++ Pipeline.name image ++ "...")%string
                 (Pipeline.id image) processing in
    (forall w, getToken w = None) ->
    aborted signal w = false ->
    onProgress exportingP w = (Ok tt, w1) ->
    exportImage (Pipeline.id image) w1 = (Ok imageData, w2) ->
    aborted signal w2 = false ->
    onProgress processingP w2 = (Ok tt, w3) ->
    (forall data filename sig w0,
        Api.removeBackground api data filename sig w0
        = (Throw unauthenticated, w0, [EvGetToken]))
    /\ Errors.code (Errors.mapErrorToDetails unauthenticated) = SESSION_EXPIRED
    /\ Errors.isAuthError unauthenticated = true
    /\ Retry.isRetryableError unauthenticated = false
    /\ (exists t,
           Pipeline.process api applyMaskToImage exportImage onProgress signal
                            (image :: rest) consumer w
           = (Throw unauthenticated, w3, t)
           /\ fetches t = [] /\ waits t = [] /\ operations t = []
           /\ yields t = [])
    /\ (forall elapse Math_random data filename sig w0,
           Retry.withRetry elapse Math_random
                           (fun w => let '(r, w', _) :=
                                       Api.removeBackground api data filename
                                                            sig w in
                                     (r, w'))
                           Retry.noOptions w0
           = (Throw unauthenticated, w0,
              [EvOperation 1 (Some unauthenticated)])).
Proof.
  intros W baseUrl fetch getToken applyMaskToImage exportImage onProgress
         signal consumer image rest imageData w w1 w2 w3 api unauthenticated
         total exportingP processingP Htoken Ha Hp1 Hex Ha2 Hp2.
  assert (Hcall : forall data filename sig w0,
             Api.removeBackground api data filename sig w0
             = (Throw unauthenticated, w0, [EvGetToken])).
  { intros data filename sig w0. subst api. cbn [Api.createApiService
      Api.removeBackground]. now apply request_without_token. }
  split; [exact Hcall|]. repeat (split; [reflexivity|]). split.
  - eexists. split.
    + apply process_rejects_with_first_item.
      apply (process_item_removeBackground_rejects
               api applyMaskToImage exportImage onProgress signal total 0
               image w w1 w2 w3 w3 imageData unauthenticated [EvGetToken]);
        try assumption.
      apply Hcall.
    + repeat split.
  - intros elapse Math_random data filename sig w0.
    apply withRetry_gives_up_on_non_retryable; [|reflexivity].
    now rewrite Hcall.
Qed.

Lemma missing_token_fails_without_request_witness :
  let api := Api.createApiService "https://api.example" Scenario.deadFetch
                                  Scenario.noToken in
  let unauthenticated :=
    ApiError "Not authenticated" 401 (Some "UNAUTHENTICATED") in
  (forall data filename sig w0,
      Api.removeBackground api data filename sig w0
      = (Throw unauthenticated, w0, [EvGetToken]))
  /\ Errors.code (Errors.mapErrorToDetails unauthenticated) = SESSION_EXPIRED
  /\ Errors.isAuthError unauthenticated = true
  /\ Retry.isRetryableError unauthenticated = false
  /\ (exists t,
         Pipeline.process api Scenario.applyMask Scenario.exportImage
                          Scenario.onProgress None [Scenario.image1]
                          Scenario.consumer 0%nat
         = (Throw unauthenticated, 0%nat, t)
         /\ fetches t = [] /\ waits t = [] /\ operations t = []
         /\ yields t = [])
  /\ (forall elapse Math_random data filename sig w0,
         Retry.withRetry elapse Math_random
                         (fun w => let '(r, w', _) :=
                                     Api.removeBackground api data filename
                                                          sig w in
                                   (r, w'))
                         Retry.noOptions w0
         = (Throw unauthenticated, w0,
            [EvOperation 1 (Some unauthenticated)])).
Proof.
  apply (missing_token_fails_without_request
           Scenario.World "https://api.example" Scenario.deadFetch
           Scenario.noToken Scenario.applyMask Scenario.exportImage
           Scenario.onProgress None Scenario.consumer Scenario.image1 [] []
           0%nat 0%nat 0%nat 0%nat);
    reflexivity.
Defined.

(* ===================================================================== *)
(** ** More about the code *)
(* ===================================================================== *)


(** *** Retry executor: the shape of every run *)

Lemma Zseq_length : forall from n, List.length (Zseq from n) = n.
Proof. intros. unfold Zseq. now rewrite length_map, length_seq. Qed.

Section RetryShape.

Context {W T : Type}.
Variable elapse : Z -> W -> W.
Variable Math_random : W -> Q * W.
Variable fn : Ext W T.
Variables (N b Mx m : Z).
Variable j : bool.
Variable isR : JsValue -> bool.
Variable onR : option (Z -> JsValue -> Z -> Ext W unit).
Variable sig : option (AbortSignal W).

Let loop := Retry.retry_loop elapse Math_random fn N b Mx m j isR onR sig.

(** Where a rejection of the loop can come from. *)
Let origin (lastError x : JsValue) (r : nat) (t : list Event) : Prop :=
  x = Retry.AbortedException
  \/ (exists k, last (operations t) (0, None) = (k, Some x))
  \/ (r = O /\ x = lastError)
  \/ (exists cb attempt e d w,
         onR = Some cb /\ fst (cb attempt e d w) = Throw x).

Lemma retry_loop_shape :
  forall (r : nat) (attempt : Z) (lastError : JsValue) (w : W),
    r = O \/ attempt + Z.of_nat r = N + 1 ->
    let '(res, _, t) := loop r attempt lastError w in
    map fst (operations t) = Zseq attempt (List.length (operations t))
    /\ (List.length (operations t) <= r)%nat
    /\ (List.length (waits t) <= List.length (operations t))%nat
    /\ match res with
       | Ok _ =>
         exists earlier k,
           operations t = earlier ++ [(k, None)]
           /\ Forall (fun op => snd op <> None) earlier
       | Throw x =>
         Forall (fun op => snd op <> None) (operations t)
         /\ origin lastError x r t
       end.
Proof.
  unfold loop, origin.
  induction r as [|r IH]; intros attempt lastError w Hinv.
  - simpl. split; [reflexivity|]. split; [lia|]. split; [lia|].
    split; [constructor|]. right. right. left. now split.
  - destruct Hinv as [Hinv|Hinv]; [discriminate|].
    rewrite retry_loop_step.
    destruct (aborted sig w).
    { simpl. split; [reflexivity|]. split; [lia|]. split; [lia|].
      split; [constructor | now left]. }
    destruct (fn w) as [[v|e] w1].
    { cbn [operations waits List.length map fst]. unfold Zseq.
      cbn [seq map Z.of_nat]. rewrite Z.add_0_r.
      split; [reflexivity|]. split; [lia|].
      split; [lia|]. exists [], attempt. split; [reflexivity | constructor]. }
    assert (Hstop : forall x evs,
               operations evs = [] ->
               (List.length (waits evs) <= 1)%nat ->
               x = Retry.AbortedException
               \/ x = e
               \/ (exists cb attempt e d w,
                      onR = Some cb /\ fst (cb attempt e d w) = Throw x) ->
               let t' := EvOperation attempt (Some e) :: evs in
               map fst (operations t') = Zseq attempt (List.length (operations t'))
               /\ (List.length (operations t') <= S r)%nat
               /\ (List.length (waits t') <= List.length (operations t'))%nat
               /\ Forall (fun op => snd op <> None) (operations t')
               /\ (x = Retry.AbortedException
                   \/ (exists k, last (operations t') (0, None) = (k, Some x))
                   \/ (S r = O /\ x = lastError)
                   \/ (exists cb attempt e d w,
                          onR = Some cb /\ fst (cb attempt e d w) = Throw x))).
    { intros x evs Hevs Hwaits Hx. cbv zeta.
      cbn [operations waits]. rewrite Hevs. cbn [List.length map fst].
      unfold Zseq. cbn [seq map]. rewrite Z.add_0_r.
      split; [reflexivity|]. split; [lia|]. split; [lia|]. split.
      - constructor; [discriminate | constructor].
      - destruct Hx as [Hx|[Hx|Hx]].
        + now left.
        + right. left. exists attempt. now subst x.
        + right. right. right. exact Hx. }
    destruct (attempt >=? N) eqn:Hlast.
    { apply (Hstop e []); [reflexivity | simpl; lia | right; now left]. }
    destruct (negb (isR e)).
    { apply (Hstop e []); [reflexivity | simpl; lia | right; now left]. }
    assert (Hr : (1 <= r)%nat).
    { rewrite Z.geb_leb in Hlast. apply Z.leb_gt in Hlast. lia. }
    unfold bind, emit, lift, ret, Retry.sleep.
    destruct (Retry.calculateDelay Math_random attempt b Mx m j w1) as [d w2].
    assert (Hnext : forall w4 evs,
               operations evs = [] ->
               (List.length (waits evs) <= 1)%nat ->
               let '(res, _, t) :=
                 Retry.retry_loop elapse Math_random fn N b Mx m j isR onR sig
                                  r (attempt + 1) e w4 in
               let t' := EvOperation attempt (Some e) :: evs ++ t in
               map fst (operations t') = Zseq attempt (List.length (operations t'))
               /\ (List.length (operations t') <= S r)%nat
               /\ (List.length (waits t') <= List.length (operations t'))%nat
               /\ match res with
                  | Ok _ =>
                    exists earlier k,
                      operations t' = earlier ++ [(k, None)]
                      /\ Forall (fun op => snd op <> None) earlier
                  | Throw x =>
                    Forall (fun op => snd op <> None) (operations t')
                    /\ (x = Retry.AbortedException
                        \/ (exists k,
                               last (operations t') (0, None) = (k, Some x))
                        \/ (S r = O /\ x = lastError)
                        \/ (exists cb attempt e d w,
                               onR = Some cb
                               /\ fst (cb attempt e d w) = Throw x))
                  end).
    { intros w4 evs Hevs Hwaits. specialize (IH (attempt + 1) e w4).
      destruct (Retry.retry_loop elapse Math_random fn N b Mx m j isR onR sig
                                 r (attempt + 1) e w4) as [[res w'] t].
      destruct IH as (Hatt & Hlen & Hw & Hres); [lia|].
      cbv zeta. cbn [operations waits].
      rewrite operations_app, waits_app, Hevs. cbn [app List.length map fst].
      rewrite Zseq_cons, <- Hatt, ?length_app.
      split; [reflexivity|]. split; [lia|]. split; [lia|].
      destruct res as [v|x].
      - destruct Hres as (earlier & k & Heq & Hall).
        exists ((attempt, Some e) :: earlier), k. rewrite Heq. split;
          [reflexivity|]. constructor; [discriminate | assumption].
      - destruct Hres as (Hall & Horigin). split.
        + constructor; [discriminate | assumption].
        + destruct Horigin as [Hx|[(k & Hk)|[(Hr0 & _)|Hcb]]].
          * now left.
          * right. left. exists k.
            destruct (operations t) as [|op ops] eqn:Hops;
              [discriminate|].
            cbn [last] in *. exact Hk.
          * lia.
          * right. right. right. exact Hcb. }
    destruct onR as [cb|] eqn:HonR.
    + destruct (cb attempt e d w2) as [[[]|ec] w3] eqn:Hcb.
      * destruct (aborted sig w3).
        { apply (Hstop _ [EvOnRetry attempt e d]);
            [reflexivity | simpl; lia | now left]. }
        destruct (aborted sig (elapse d w3)).
        { apply (Hstop _ [EvOnRetry attempt e d; EvSleepAborted d]);
            [reflexivity | simpl; lia | now left]. }
        specialize (Hnext (elapse d w3) [EvOnRetry attempt e d; EvSleep d]
                          eq_refl).
        destruct (Retry.retry_loop elapse Math_random fn N b Mx m j isR
                                   (Some cb) sig r (attempt + 1) e
                                   (elapse d w3)) as [[res w'] t].
        apply Hnext. simpl. lia.
      * apply (Hstop _ [EvOnRetry attempt e d]);
          [reflexivity | simpl; lia |].
        right. right. exists cb, attempt, e, d, w2. split; [reflexivity|].
        now rewrite Hcb.
    + destruct (aborted sig w2).
      { apply (Hstop _ []); [reflexivity | simpl; lia | now left]. }
      destruct (aborted sig (elapse d w2)).
      { apply (Hstop _ [EvSleepAborted d]);
          [reflexivity | simpl; lia | now left]. }
      specialize (Hnext (elapse d w2) [EvSleep d] eq_refl).
      destruct (Retry.retry_loop elapse Math_random fn N b Mx m j isR
                                 None sig r (attempt + 1) e
                                 (elapse d w2)) as [[res w'] t].
      apply Hnext. simpl. lia.
Qed.

End RetryShape.

Lemma withRetry_shape :
  forall (W T : Type) (elapse : Z -> W -> W) (Math_random : W -> Q * W)
         (fn : Ext W T) (options : Retry.RetryOptions) (w : W),
    let N := Retry.orDefault (Retry.maxAttempts options) 3 in
    let '(res, _, t) := Retry.withRetry elapse Math_random fn options w in
    map fst (operations t) = Zseq 1 (List.length (operations t))
    /\ Z.of_nat (List.length (operations t)) <= Z.max 0 N
    /\ (List.length (waits t) <= List.length (operations t))%nat
    /\ match res with
       | Ok _ =>
         exists earlier k,
           operations t = earlier ++ [(k, None)]
           /\ Forall (fun op => snd op <> None) earlier
       | Throw x =>
         Forall (fun op => snd op <> None) (operations t)
         /\ (x = Retry.AbortedException
             \/ (exists k, last (operations t) (0, None) = (k, Some x))
             \/ (N <= 0 /\ x = JsNonError "undefined")
             \/ (exists cb attempt e d w0,
                    Retry.onRetry options = Some cb
                    /\ fst (cb attempt e d w0) = Throw x))
       end.
Proof.
  intros W T elapse Math_random fn options w N.
  unfold Retry.withRetry. fold N.
  pose proof (retry_loop_shape elapse Math_random fn N
                (Retry.orDefault (Retry.baseDelay options) 1000)
                (Retry.orDefault (Retry.maxDelay options) 30000)
                (Retry.orDefault (Retry.multiplier options) 2)
                (Retry.orDefault (Retry.jitter options) true)
                (Retry.orDefault (Retry.isRetryable options)
                                 Retry.isRetryableError)
                (Retry.onRetry options) (Retry.signal options)
                (Z.to_nat N) 1 (JsNonError "undefined") w) as H.
  destruct (Retry.retry_loop _ _ _ _ _ _ _ _ _ _ _ _ _ _ _) as [[res w'] t].
  destruct H as (H1 & H2 & H3 & H4).
  { destruct (Z.to_nat N) eqn:HN; [now left | right; lia]. }
  split; [exact H1|]. split; [lia|]. split; [exact H3|].
  destruct res as [v|x]; [exact H4|].
  destruct H4 as (H4 & H5). split; [exact H4|].
  destruct H5 as [H5|[H5|[(H5 & H6)|H5]]].
  - now left.
  - right. now left.
  - right. right. left. split; [lia | exact H6].
  - right. right. now right.
Qed.


Lemma withRetry_not_invoked :
  forall (W T : Type) (elapse : Z -> W -> W) (Math_random : W -> Q * W)
         (fn : Ext W T) (options : Retry.RetryOptions) (w : W),
    let N := Retry.orDefault (Retry.maxAttempts options) 3 in
    (N <= 0 ->
     Retry.withRetry elapse Math_random fn options w
     = (Throw (JsNonError "undefined"), w, []))
    /\ (1 <= N ->
        aborted (Retry.signal options) w = true ->
        Retry.withRetry elapse Math_random fn options w
        = (Throw (DOMException "Aborted" "AbortError"), w, [])).
Proof.
  intros W T elapse Math_random fn options w N. split.
  - intro HN. unfold Retry.withRetry. fold N.
    replace (Z.to_nat N) with O by lia. reflexivity.
  - intros HN Hab. unfold Retry.withRetry. fold N.
    destruct (Z.to_nat N) as [|r] eqn:Hr; [lia|].
    rewrite retry_loop_step, Hab. reflexivity.
Qed.

(** X2.  Two ways in which the operation is never invoked: with
    [maxAttempts <= 0] the loop body is not entered and [withRetry] rejects
    with [undefined]; with [maxAttempts >= 1] and a signal that has already
    fired it rejects with the [AbortError] "Aborted".  Neither waits nor
    calls [onRetry]. *)
Theorem withRetry_without_invocation :
  forall (W T : Type) (elapse : Z -> W -> W) (Math_random : W -> Q * W)
         (fn : Ext W T) (options : Retry.RetryOptions) (w : W),
    let N := Retry.orDefault (Retry.maxAttempts options) 3 in
    (N <= 0 ->
     Retry.withRetry elapse Math_random fn options w
     = (Throw (JsNonError "undefined"), w, []))
    /\ (1 <= N ->
        aborted (Retry.signal options) w = true ->
        Retry.withRetry elapse Math_random fn options w
        = (Throw (DOMException "Aborted" "AbortError"), w, [])).
Proof. exact withRetry_not_invoked. Qed.

Lemma withRetry_without_invocation_witness :
  Retry.withRetry Scenario.no_elapse Scenario.fixed_random Scenario.failsOnce
                  MoreScenarios.zeroAttempts 0%nat
  = (Throw (JsNonError "undefined"), 0%nat, [])
  /\ Retry.withRetry Scenario.no_elapse Scenario.fixed_random
                     Scenario.failsOnce MoreScenarios.abortedOptions 0%nat
     = (Throw (DOMException "Aborted" "AbortError"), 0%nat, []).
Proof.
  split.
  - apply (withRetry_without_invocation Scenario.World string
             Scenario.no_elapse Scenario.fixed_random Scenario.failsOnce
             MoreScenarios.zeroAttempts 0%nat).
    simpl. lia.
  - apply (withRetry_without_invocation Scenario.World string
             Scenario.no_elapse Scenario.fixed_random Scenario.failsOnce
             MoreScenarios.abortedOptions 0%nat).
    + simpl. lia.
    + reflexivity.
Defined.

(** X3.  A first attempt that settles the run.  If the first invocation
    resolves, [withRetry] resolves with its value; if it rejects with an
    error that the predicate in force refuses, or [maxAttempts] is 1,
    [withRetry] rejects with that error.  In both cases the operation was
    invoked once, [onRetry] was not called and nothing was waited for. *)
Theorem withRetry_settles_on_first_attempt :
  forall (W T : Type) (elapse : Z -> W -> W) (Math_random : W -> Q * W)
         (fn : Ext W T) (options : Retry.RetryOptions) (w w1 : W),
    let N := Retry.orDefault (Retry.maxAttempts options) 3 in
    let isR := Retry.orDefault (Retry.isRetryable options)
                               Retry.isRetryableError in
    1 <= N ->
    aborted (Retry.signal options) w = false ->
    (forall v, fn w = (Ok v, w1) ->
               Retry.withRetry elapse Math_random fn options w
               = (Ok v, w1, [EvOperation 1 None]))
    /\ (forall e, fn w = (Throw e, w1) ->
                  isR e = false \/ N = 1 ->
                  Retry.withRetry elapse Math_random fn options w
                  = (Throw e, w1, [EvOperation 1 (Some e)])).
Proof.
  intros W T elapse Math_random fn options w w1 N isR HN Hab.
  unfold Retry.withRetry. fold N. fold isR.
  destruct (Z.to_nat N) as [|r] eqn:Hr; [lia|].
  rewrite retry_loop_step, Hab. split.
  - intros v Hv. now rewrite Hv.
  - intros e He Hstop. rewrite He.
    destruct (1 >=? N) eqn:Hlast; [reflexivity|].
    destruct Hstop as [Hstop|Hstop].
    + rewrite Hstop. reflexivity.
    + subst N. rewrite Hstop in Hlast. discriminate.
Qed.

Lemma withRetry_settles_on_first_attempt_witness :
  Retry.withRetry Scenario.no_elapse Scenario.fixed_random Scenario.failsOnce
                  Retry.noOptions 1%nat
  = (Ok "success", 2%nat, [EvOperation 1 None])
  /\ Retry.withRetry Scenario.no_elapse Scenario.fixed_random
                     MoreScenarios.rejectsUnauthorized Retry.noOptions 0%nat
     = (Throw MoreScenarios.unauthorized, 1%nat,
        [EvOperation 1 (Some MoreScenarios.unauthorized)]).
Proof.
  split.
  - apply (withRetry_settles_on_first_attempt Scenario.World string
             Scenario.no_elapse Scenario.fixed_random Scenario.failsOnce
             Retry.noOptions 1%nat 2%nat); [simpl; lia | reflexivity..].
  - apply (withRetry_settles_on_first_attempt Scenario.World string
             Scenario.no_elapse Scenario.fixed_random
             MoreScenarios.rejectsUnauthorized Retry.noOptions 0%nat 1%nat);
      [simpl; lia | reflexivity | reflexivity | left; reflexivity].
Defined.

(** X4.  Cancellation during the backoff wait.  If the first attempt
    rejects with a retryable error, more attempts are allowed, [onRetry] (if
    any) returns, and the signal fires while the wait is pending, then
    [withRetry] rejects with the [AbortError] "Aborted" -- not with the
    operation's error -- and the operation is not invoked a second time. *)
Theorem withRetry_cancelled_while_waiting :
  forall (W T : Type) (elapse : Z -> W -> W) (Math_random : W -> Q * W)
         (fn : Ext W T) (options : Retry.RetryOptions) (w w1 w2 w3 : W)
         (e : JsValue) (d : Z),
    let N := Retry.orDefault (Retry.maxAttempts options) 3 in
    let isR := Retry.orDefault (Retry.isRetryable options)
                               Retry.isRetryableError in
    2 <= N ->
    aborted (Retry.signal options) w = false ->
    fn w = (Throw e, w1) ->
    isR e = true ->
    Retry.calculateDelay Math_random 1
      (Retry.orDefault (Retry.baseDelay options) 1000)
      (Retry.orDefault (Retry.maxDelay options) 30000)
      (Retry.orDefault (Retry.multiplier options) 2)
      (Retry.orDefault (Retry.jitter options) true) w1 = (d, w2) ->
    match Retry.onRetry options with
    | Some cb => cb 1 e d w2 = (Ok tt, w3)
    | None => w3 = w2
    end ->
    aborted (Retry.signal options) w3 = false ->
    aborted (Retry.signal options) (elapse d w3) = true ->
    exists t,
      Retry.withRetry elapse Math_random fn options w
      = (Throw (DOMException "Aborted" "AbortError"), elapse d w3, t)
      /\ operations t = [(1, Some e)]
      /\ waits t = [d]
      /\ t = EvOperation 1 (Some e)
             :: match Retry.onRetry options with
                | Some _ => [EvOnRetry 1 e d]
                | None => []
                end ++ [EvSleepAborted d].
Proof.
  intros W T elapse Math_random fn options w w1 w2 w3 e d N isR
         HN Hab Hfn Hretry Hd Hcb Hab3 Hab4.
  unfold Retry.withRetry. fold N. fold isR.
  destruct (Z.to_nat N) as [|r] eqn:Hr; [lia|].
  rewrite retry_loop_step, Hab, Hfn.
  replace (1 >=? N) with false
    by (symmetry; rewrite Z.geb_leb; apply Z.leb_gt; lia).
  rewrite Hretry. cbn [negb].
  unfold bind, emit, lift, ret, Retry.sleep. rewrite Hd.
  destruct (Retry.onRetry options) as [cb|].
  - rewrite Hcb, Hab3, Hab4. eexists. repeat split.
  - subst w3. rewrite Hab3, Hab4. eexists. repeat split.
Qed.

Lemma withRetry_cancelled_while_waiting_witness :
  exists t,
    Retry.withRetry MoreScenarios.bumping_elapse Scenario.fixed_random
                    Scenario.alwaysFails MoreScenarios.cancelledWhileWaiting
                    0%nat
    = (Throw (DOMException "Aborted" "AbortError"), 2%nat, t)
    /\ operations t = [(1, Some Scenario.networkError)]
    /\ waits t = [1]
    /\ t = EvOperation 1 (Some Scenario.networkError)
           :: [] ++ [EvSleepAborted 1].
Proof.
  apply (withRetry_cancelled_while_waiting Scenario.World string
           MoreScenarios.bumping_elapse Scenario.fixed_random
           Scenario.alwaysFails MoreScenarios.cancelledWhileWaiting
           0%nat 1%nat 1%nat 1%nat Scenario.networkError 1);
    try reflexivity.
  simpl. lia.
Defined.

(** *** [tryWithRetry] *)

Section TryRetryFacts.

Context {W T : Type}.
Variable elapse : Z -> W -> W.
Variable Math_random : W -> Q * W.
Variable fn : Ext W T.
Variable options : Retry.RetryOptions (W := W).
Variables (N b Mx m : Z).
Variable j : bool.
Variable isR : JsValue -> bool.

Let loop :=
  Retry.retry_loop (RetryResults.local_elapse elapse)
                   (RetryResults.local_random Math_random)
                   (RetryResults.local_ext fn) N b Mx m j isR
                   (Some (RetryResults.countingOnRetry options))
                   (option_map RetryResults.local_signal
                               (Retry.signal options)).

(** The local variable follows the attempts: when the loop resolves it is
    one less than the number of the attempt that succeeded; when the loop
    rejects it is that or one more. *)
Lemma counting_loop :
  forall (r : nat) (attempt : Z) (lastError : JsValue) (w : W),
    let '(res, (_, attempts), t) := loop r attempt lastError (w, attempt - 1) in
    let k := Z.of_nat (List.length (operations t)) in
    match res with
    | Ok _ => attempts + 1 = attempt - 1 + k
    | Throw _ => attempt - 1 + k <= attempts + 1 <= attempt + k
    end.
Proof.
  unfold loop.
  set (sig' := option_map RetryResults.local_signal (Retry.signal options)).
  induction r as [|r IH]; intros attempt lastError w.
  - simpl. lia.
  - rewrite retry_loop_step.
    destruct (aborted sig' (w, attempt - 1)); [simpl; lia|].
    cbn [RetryResults.local_ext].
    destruct (fn w) as [[v|e] w1]; [simpl; lia|].
    destruct (attempt >=? N); [simpl; lia|].
    destruct (negb (isR e)); [simpl; lia|].
    unfold bind, emit, lift, ret, Retry.sleep.
    destruct (Retry.calculateDelay (RetryResults.local_random Math_random)
                                   attempt b Mx m j (w1, attempt - 1))
      as [d [w2 a2]] eqn:Hd.
    assert (Ha2 : a2 = attempt - 1).
    { unfold Retry.calculateDelay in Hd. destruct j.
      - cbn [RetryResults.local_random] in Hd.
        destruct (Math_random w1) as [x w']. now inversion Hd.
      - now inversion Hd. }
    subst a2.
    assert (Hnext : forall w4 evs,
               operations evs = [] ->
               let '(res, (_, attempts), t) :=
                 Retry.retry_loop (RetryResults.local_elapse elapse)
                   (RetryResults.local_random Math_random)
                   (RetryResults.local_ext fn) N b Mx m j isR
                   (Some (RetryResults.countingOnRetry options)) sig'
                   r (attempt + 1) e (w4, attempt) in
               let k := Z.of_nat (List.length
                                    (operations (EvOperation attempt (Some e)
                                                 :: evs ++ t))) in
               match res with
               | Ok _ => attempts + 1 = attempt - 1 + k
               | Throw _ => attempt - 1 + k <= attempts + 1 <= attempt + k
               end).
    { intros w4 evs Hevs. specialize (IH (attempt + 1) e w4).
      replace (attempt + 1 - 1) with attempt in IH by lia.
      destruct (Retry.retry_loop _ _ _ _ _ _ _ _ _ _ _ r _ _ _)
        as [[res [w' a']] t].
      cbv zeta in *. cbn [operations]. rewrite operations_app, Hevs.
      cbn [app List.length]. destruct res; lia. }
    unfold RetryResults.countingOnRetry at 1.
    destruct (Retry.onRetry options) as [cb|].
    + destruct (cb attempt e d w2) as [[[]|ec] w3]; [|simpl; lia].
      destruct (aborted sig' (w3, attempt)); [simpl; lia|].
      cbn [RetryResults.local_elapse].
      destruct (aborted sig' (elapse d w3, attempt)); [simpl; lia|].
      specialize (Hnext (elapse d w3) [EvOnRetry attempt e d; EvSleep d]
                        eq_refl).
      destruct (Retry.retry_loop _ _ _ _ _ _ _ _ _ _ _ r _ _ _)
        as [[res [w' a']] t].
      exact Hnext.
    + destruct (aborted sig' (w2, attempt)); [simpl; lia|].
      cbn [RetryResults.local_elapse].
      destruct (aborted sig' (elapse d w2, attempt)); [simpl; lia|].
      specialize (Hnext (elapse d w2) [EvSleep d] eq_refl).
      destruct (Retry.retry_loop _ _ _ _ _ _ _ _ _ _ _ r _ _ _)
        as [[res [w' a']] t].
      exact Hnext.
Qed.

End TryRetryFacts.

(** X5.  [tryWithRetry] always resolves with a result object.  When the
    result says [success], its [attempts] is exactly the number of times the
    operation was invoked.  When it says failure, [attempts] is at most
    [maxAttempts] and, for [maxAttempts >= 1], it is the number of
    invocations or one more (one more e.g. when the signal fired during a
    wait). *)
Theorem tryWithRetry_reports_attempts :
  forall (W T : Type) (elapse : Z -> W -> W) (Math_random : W -> Q * W)
         (fn : Ext W T) (options : Retry.RetryOptions) (w : W),
    let N := Retry.orDefault (Retry.maxAttempts options) 3 in
    let '(r, _, t) :=
      RetryResults.tryWithRetry elapse Math_random fn options w in
    let k := Z.of_nat (List.length (operations t)) in
    exists result,
      r = Ok result
      /\ if RetryResults.success result
         then RetryResults.attempts result = k
              /\ RetryResults.data result <> None
              /\ RetryResults.error result = None
         else RetryResults.attempts result <= N
              /\ RetryResults.data result = None
              /\ RetryResults.error result <> None
              /\ (1 <= N -> k <= RetryResults.attempts result <= k + 1).
Proof.
  intros W T elapse Math_random fn options w N.
  unfold RetryResults.tryWithRetry. fold N.
  pose proof (withRetry_shape
                RetryResults.Local T (RetryResults.local_elapse elapse)
                (RetryResults.local_random Math_random)
                (RetryResults.local_ext fn)
                (RetryResults.countingOptions options) (w, 0)) as Hshape.
  cbv zeta in Hshape.
  pose proof (counting_loop elapse Math_random fn options N
                (Retry.orDefault (Retry.baseDelay options) 1000)
                (Retry.orDefault (Retry.maxDelay options) 30000)
                (Retry.orDefault (Retry.multiplier options) 2)
                (Retry.orDefault (Retry.jitter options) true)
                (Retry.orDefault (Retry.isRetryable options)
                                 Retry.isRetryableError)
                (Z.to_nat N) 1 (JsNonError "undefined") w) as Hcount.
  change (1 - 1) with 0 in Hcount.
  unfold Retry.withRetry in *.
  cbn [RetryResults.countingOptions Retry.maxAttempts Retry.baseDelay
       Retry.maxDelay Retry.multiplier Retry.jitter Retry.isRetryable
       Retry.onRetry Retry.signal] in *.
  fold N in Hshape.
  destruct (Retry.retry_loop _ _ _ _ _ _ _ _ _ _ _ _ _ _ _)
    as [[res [w' a']] t].
  cbv zeta in *. destruct Hshape as (_ & Hk & _).
  destruct res as [v|x].
  - eexists. split; [reflexivity|]. cbn.
    split; [lia|]. split; [discriminate | reflexivity].
  - eexists. split; [reflexivity|]. cbn.
    split; [lia|]. split; [reflexivity|]. split; [discriminate|]. lia.
Qed.

(** X6.  On a signal that has already fired, [tryWithRetry] (with
    [maxAttempts >= 1]) reports a failure with the [AbortError] and
    [attempts = 1], although the operation was not invoked at all. *)
Theorem tryWithRetry_counts_aborted_start :
  forall (W T : Type) (elapse : Z -> W -> W) (Math_random : W -> Q * W)
         (fn : Ext W T) (options : Retry.RetryOptions) (w : W),
    1 <= Retry.orDefault (Retry.maxAttempts options) 3 ->
    aborted (Retry.signal options) w = true ->
    RetryResults.tryWithRetry elapse Math_random fn options w
    = (Ok (RetryResults.mkRetryResult
             false None (Some (DOMException "Aborted" "AbortError")) 1),
       w, []).
Proof.
  intros W T elapse Math_random fn options w HN Hab.
  unfold RetryResults.tryWithRetry.
  destruct (withRetry_not_invoked
              RetryResults.Local T (RetryResults.local_elapse elapse)
              (RetryResults.local_random Math_random)
              (RetryResults.local_ext fn)
              (RetryResults.countingOptions options) (w, 0)) as (_ & H).
  rewrite H.
  - cbv beta iota. change (0 + 1) with 1.
    rewrite Z.min_l by exact HN. reflexivity.
  - exact HN.
  - cbn [RetryResults.countingOptions Retry.signal].
    destruct (Retry.signal options) as [s|]; [exact Hab | discriminate].
Qed.

Lemma tryWithRetry_counts_aborted_start_witness :
  RetryResults.tryWithRetry Scenario.no_elapse Scenario.fixed_random
                            Scenario.failsOnce MoreScenarios.abortedOptions
                            0%nat
  = (Ok (RetryResults.mkRetryResult
           false None (Some (DOMException "Aborted" "AbortError")) 1),
     0%nat, []).
Proof.
  apply (tryWithRetry_counts_aborted_start Scenario.World string
           Scenario.no_elapse Scenario.fixed_random Scenario.failsOnce
           MoreScenarios.abortedOptions 0%nat).
  - simpl. lia.
  - reflexivity.
Defined.

(** *** Error classifier and its helpers *)

(** X7.  What [mapErrorToDetails] can answer.  The code is [CANCELLED]
    exactly for an [AbortError], and such an error is never retryable; the
    codes [UNAUTHENTICATED] and [EXPORT_FAILED] are never produced; and for
    [CANCELLED], [SESSION_EXPIRED], [INSUFFICIENT_CREDITS], [NETWORK_ERROR]
    and [TIMEOUT] the user message is the fixed text of the code, never the
    text of the error. *)
Theorem mapErrorToDetails_codes :
  forall error : JsValue,
    let details := Errors.mapErrorToDetails error in
    (Errors.code details = CANCELLED <-> isAbortError error = true)
    /\ (Errors.code details = CANCELLED ->
        Retry.isRetryableError error = false)
    /\ Errors.code details <> UNAUTHENTICATED
    /\ Errors.code details <> EXPORT_FAILED
    /\ (forall text,
           AppErrors.fixedMessage (Errors.code details) = Some text ->
           Errors.userMessage details = text).
Proof.
  intro error. cbv zeta.
  assert (Hcancel : Errors.code (Errors.mapErrorToDetails error) = CANCELLED
                    <-> isAbortError error = true).
  { unfold Errors.mapErrorToDetails.
    destruct (isAbortError error) eqn:Hab; [now split|].
    split; [|discriminate].
    destruct error; simpl;
      repeat match goal with
             | |- context [if ?b then _ else _] => destruct b
             end; discriminate. }
  split; [exact Hcancel|]. split.
  { intro H. apply Hcancel in H. unfold Retry.isRetryableError.
    now rewrite H. }
  unfold Errors.mapErrorToDetails.
  destruct (isAbortError error).
  { repeat split; try discriminate. simpl. intros text H. now inversion H. }
  destruct error; simpl;
    repeat match goal with
           | |- context [if ?b then _ else _] => destruct b
           end;
    (repeat split; try discriminate; simpl; intros text H;
     now inversion H).
Qed.

(** X8.  [AppError.from] is idempotent and keeps what the helpers
    [isCancellationError], [isAuthError] and [isCreditsError] say of the
    error it wraps; an error it builds is marked recoverable. *)
Theorem AppError_from_keeps_classification :
  forall error : JsValue,
    AppErrors.from (AppErrors.from error) = AppErrors.from error
    /\ Errors.isCancellationError (AppErrors.from error)
       = Errors.isCancellationError error
    /\ Errors.isAuthError (AppErrors.from error) = Errors.isAuthError error
    /\ Errors.isCreditsError (AppErrors.from error)
       = Errors.isCreditsError error
    /\ match error with
       | AppError _ _ _ _ => True
       | _ => exists m c u, AppErrors.from error = AppError m c u true
       end.
Proof.
  intro error.
  destruct error as [m n|m|m s c|m|m|m c u r|m|d];
    try (split; [reflexivity|]).
  - (* DOMException *)
    unfold AppErrors.from, Errors.isCancellationError, Errors.isAuthError,
      Errors.isCreditsError, Errors.mapErrorToDetails.
    destruct (isAbortError (DOMException m n)) eqn:Hab; simpl.
    + repeat split. eauto.
    + destruct (includes m "network" || includes m "fetch")%bool; simpl;
        repeat split; eauto.
  - unfold AppErrors.from, Errors.mapErrorToDetails. simpl.
    destruct (includes m "network" || includes m "fetch")%bool; simpl;
      repeat split; eauto.
  - unfold AppErrors.from, Errors.mapErrorToDetails, Errors.isAuthError,
      Errors.isCreditsError, Errors.api_isAuthError, Errors.api_isCreditsError,
      Errors.api_isNetworkError. simpl.
    destruct (s =? 401) eqn:H1; simpl.
    { apply Z.eqb_eq in H1. subst s. repeat split; eauto. }
    destruct (s =? 402) eqn:H2; simpl; [repeat split; eauto|].
    destruct (s =? 0) eqn:H3; simpl; repeat split; eauto.
  - simpl. repeat split; eauto.
  - simpl. repeat split; eauto.
  - repeat split.
  - unfold AppErrors.from, Errors.mapErrorToDetails. simpl.
    destruct (includes m "network" || includes m "fetch")%bool; simpl;
      repeat split; eauto.
  - simpl. repeat split; eauto.
Qed.

(** X9.  The error [createApiError] builds keeps the HTTP status, and the
    classifier and its helpers go by that status alone: 401 is
    [SESSION_EXPIRED] and an auth error, 402 is [INSUFFICIENT_CREDITS] and a
    credits error, 0 is [NETWORK_ERROR], any other status is
    [PROCESSING_FAILED].  Whatever the status text, the errors for 401, 402
    and 429 are not retried by the default predicate. *)
Theorem createApiError_classification :
  forall (status : Z) (statusText : string),
    let e := Api.createApiError status statusText in
    (exists m c, e = ApiError m status c)
    /\ Errors.code (Errors.mapErrorToDetails e)
       = (if status =? 401 then SESSION_EXPIRED
          else if status =? 402 then INSUFFICIENT_CREDITS
               else if status =? 0 then NETWORK_ERROR
                    else PROCESSING_FAILED)
    /\ Errors.isAuthError e = (status =? 401)
    /\ Errors.isCreditsError e = (status =? 402)
    /\ (status = 401 \/ status = 402 \/ status = 429 ->
        Retry.isRetryableError e = false).
Proof.
  intros status statusText. cbv zeta. unfold Api.createApiError.
  destruct (status =? 401) eqn:H1.
  { apply Z.eqb_eq in H1. subst status. repeat split; eauto. }
  destruct (status =? 402) eqn:H2.
  { apply Z.eqb_eq in H2. subst status. repeat split; eauto. }
  destruct (status =? 429) eqn:H3.
  { apply Z.eqb_eq in H3. subst status. repeat split; eauto. }
  split; [eauto|].
  unfold Errors.mapErrorToDetails, Errors.isAuthError, Errors.isCreditsError,
    Errors.api_isAuthError, Errors.api_isCreditsError,
    Errors.api_isNetworkError. simpl. rewrite H1, H2.
  split; [now destruct (status =? 0)|]. split; [reflexivity|].
  split; [reflexivity|].
  intros [H|[H|H]]; subst status; discriminate.
Qed.


(** *** API service *)

Lemma token_present :
  forall token : string,
    token <> EmptyString -> Api.token_missing (Some token) = false.
Proof.
  intros token H. unfold Api.token_missing.
  destruct (String.eqb_spec token EmptyString); [contradiction | reflexivity].
Qed.

(** X11.  [request] with a token makes exactly one [fetch], of
    [baseUrl + endpoint].  A response that is not [ok] becomes the
    [ApiError] of its status; an [ok] response yields what [json()] yields;
    an [ApiError] or [AbortError] thrown by [fetch] is passed on; any other
    failure of [fetch] becomes the [ApiError] of status 0, which the
    classifier reports as [NETWORK_ERROR] and the default predicate
    retries.  Hence [request] never rejects with anything but an [ApiError],
    an [AbortError] or the rejection of [json()]. *)
Theorem request_outcomes :
  forall (W T : Type) (baseUrl : string)
         (fetch : forall T : Type, string -> option (AbortSignal W)
                                   -> Ext W (Api.Response T))
         (getToken : W -> option string) (endpoint : string)
         (signal : option (AbortSignal W)) (w : W) (token : string),
    getToken w = Some token ->
    token <> EmptyString ->
    let url := (baseUrl ++ endpoint)%string in
    let networkError :=
      ApiError "Network error. Please check your connection." 0
               (Some "NETWORK_ERROR") in
    let '(r, w', t) :=
      Api.request (T := T) baseUrl fetch getToken endpoint signal w in
    t = [EvGetToken; EvFetch url]
    /\ w' = snd (fetch T url signal w)
    /\ match fst (fetch T url signal w) with
       | Ok response =>
         r = if Api.ok response then Api.json response
             else Throw (Api.createApiError (Api.status response)
                                            (Api.statusText response))
       | Throw x =>
         r = Throw (match x with
                    | ApiError _ _ _ => x
                    | _ => if isAbortError x then x else networkError
                    end)
       end
    /\ (forall x, r = Throw x ->
                  (exists m s c, x = ApiError m s c)
                  \/ isAbortError x = true
                  \/ (exists response,
                         fst (fetch T url signal w) = Ok response
                         /\ Api.ok response = true
                         /\ Api.json response = Throw x))
    /\ Errors.code (Errors.mapErrorToDetails networkError) = NETWORK_ERROR
    /\ Retry.isRetryableError networkError = true.
Proof.
  intros W T baseUrl fetch getToken endpoint signal w token Htoken Hne
         url networkError.
  unfold Api.request, bind, emit, lift, ret, try_catch, throw, Api.rethrow_or.
  rewrite Htoken, (token_present token Hne). fold url.
  destruct (fetch T url signal w) as [[response|x] w1]; cbn [fst snd].
  - destruct (Api.ok response) eqn:Hok; cbn [negb].
    + destruct (Api.json response) as [v|x] eqn:Hjson.
      * repeat split. intros x Hx. discriminate.
      * repeat split. intros y Hy. inversion Hy; subst y.
        right. right. exists response. now repeat split.
    + unfold Api.createApiError.
      destruct (Api.status response =? 401);
        [|destruct (Api.status response =? 402);
          [|destruct (Api.status response =? 429)]];
        (repeat split; intros y Hy; inversion Hy; subst y; left; eauto).
  - destruct x as [m n|m|m s c|m|m|m c u r|m|d];
      try (repeat split; intros y Hy; inversion Hy; subst y; left;
           unfold networkError; eauto).
    destruct (isAbortError (DOMException m n)) eqn:Hab.
    + repeat split. intros y Hy. inversion Hy; subst y. right. now left.
    + repeat split. intros y Hy. inversion Hy; subst y. left.
      unfold networkError. eauto.
Qed.

Lemma request_outcomes_witness :
  let networkError :=
    ApiError "Network error. Please check your connection." 0
             (Some "NETWORK_ERROR") in
  let '(r, w', t) :=
    Api.request (T := unit) "https://api.example" Scenario.deadFetch
                MoreScenarios.someToken "/v1/remove-bg?output=mask" None
                0%nat in
  t = [EvGetToken; EvFetch "https://api.example/v1/remove-bg?output=mask"]
  /\ w' = 0%nat
  /\ r = Throw networkError
  /\ (forall x, r = Throw x ->
                (exists m s c, x = ApiError m s c)
                \/ isAbortError x = true
                \/ (exists response,
                       fst (Scenario.deadFetch
                              unit
                              "https://api.example/v1/remove-bg?output=mask"
                              None 0%nat) = Ok response
                       /\ Api.ok response = true
                       /\ Api.json response = Throw x))
  /\ Errors.code (Errors.mapErrorToDetails networkError) = NETWORK_ERROR
  /\ Retry.isRetryableError networkError = true.
Proof.
  exact (request_outcomes Scenario.World unit "https://api.example"
           Scenario.deadFetch MoreScenarios.someToken
           "/v1/remove-bg?output=mask" None 0%nat "test-token" eq_refl
           ltac:(discriminate)).
Defined.

(** X12.  [downloadMask] does not ask for the token and makes exactly one
    [fetch], of the mask URL.  It resolves with the bytes of an [ok]
    response; a response that is not [ok] becomes the [ApiError]
    "Failed to download mask" of its status; and it never rejects with
    anything but an [ApiError] or an [AbortError].  The [ApiError] of status
    0 it builds for a network failure is classified [NETWORK_ERROR], yet the
    default predicate does not retry it. *)
Theorem downloadMask_outcomes :
  forall (W : Type) (baseUrl : string)
         (fetch : forall T : Type, string -> option (AbortSignal W)
                                   -> Ext W (Api.Response T))
         (getToken : W -> option string) (url : string)
         (signal : option (AbortSignal W)) (w : W),
    let downloadFailed :=
      ApiError "Failed to download mask" 0 (Some "NETWORK_ERROR") in
    let '(r, w', t) :=
      Api.downloadMask (Api.createApiService baseUrl fetch getToken)
                       url signal w in
    t = [EvFetch url]
    /\ w' = snd (fetch unit url signal w)
    /\ (forall response,
           fst (fetch unit url signal w) = Ok response ->
           r = if Api.ok response
               then match Api.arrayBuffer response with
                    | Ok buffer => Ok buffer
                    | Throw x =>
                      Throw (match x with
                             | ApiError _ _ _ => x
                             | _ => if isAbortError x then x
                                    else downloadFailed
                             end)
                    end
               else Throw (ApiError "Failed to download mask"
                                    (Api.status response)
                                    (Some "DOWNLOAD_ERROR")))
    /\ (forall x, r = Throw x ->
                  (exists m s c, x = ApiError m s c) \/ isAbortError x = true)
    /\ Errors.code (Errors.mapErrorToDetails downloadFailed) = NETWORK_ERROR
    /\ Retry.isRetryableError downloadFailed = false.
Proof.
  intros W baseUrl fetch getToken url signal w downloadFailed.
  cbn [Api.createApiService Api.downloadMask].
  unfold bind, emit, lift, ret, try_catch, throw, Api.rethrow_or.
  destruct (fetch unit url signal w) as [[response|x] w1]; cbn [fst snd].
  - destruct (Api.ok response) eqn:Hok; cbn [negb].
    + destruct (Api.arrayBuffer response) as [buffer|x] eqn:Hbuf.
      * repeat split.
        -- intros response' H. inversion H; subst response'.
           now rewrite Hok, Hbuf.
        -- intros y Hy. discriminate.
      * destruct x as [m n|m|m s c|m|m|m c u r|m|d];
          try (repeat split;
               [intros response' H; inversion H; subst response';
                now rewrite Hok, Hbuf
               |intros y Hy; inversion Hy; subst y; left;
                unfold downloadFailed; eauto]).
        destruct (isAbortError (DOMException m n)) eqn:Hab.
        -- repeat split.
           ++ intros response' H. inversion H; subst response'.
              now rewrite Hok, Hbuf, Hab.
           ++ intros y Hy. inversion Hy; subst y. now right.
        -- repeat split.
           ++ intros response' H. inversion H; subst response'.
              now rewrite Hok, Hbuf, Hab.
           ++ intros y Hy. inversion Hy; subst y. left.
              unfold downloadFailed. eauto.
    + repeat split.
      * intros response' H. inversion H; subst response'. now rewrite Hok.
      * intros y Hy. inversion Hy; subst y. left. eauto.
  - destruct x as [m n|m|m s c|m|m|m c u r|m|d];
      try (repeat split;
           [intros response' H; discriminate
           |intros y Hy; inversion Hy; subst y; left;
            unfold downloadFailed; eauto]).
    destruct (isAbortError (DOMException m n)) eqn:Hab.
    + repeat split; [intros response' H; discriminate|].
      intros y Hy. inversion Hy; subst y. now right.
    + repeat split; [intros response' H; discriminate|].
      intros y Hy. inversion Hy; subst y. left. unfold downloadFailed. eauto.
Qed.

(** *** Pipeline: whole runs *)

Lemma progresses_app :
  forall t1 t2, progresses (t1 ++ t2) = progresses t1 ++ progresses t2.
Proof.
  induction t1 as [|ev t1 IH]; intro t2; [reflexivity|].
  destruct ev; simpl; now rewrite IH.
Qed.

Lemma yields_app :
  forall t1 t2, yields (t1 ++ t2) = yields t1 ++ yields t2.
Proof.
  induction t1 as [|ev t1 IH]; intro t2; [reflexivity|].
  destruct ev; simpl; now rewrite IH.
Qed.

Section PipelineRuns.

Context {W : Type}.
Variable api : Api.ApiService W.
Variable applyMaskToImage : Uint8Array -> Uint8Array -> Ext W Uint8Array.
Variable exportImage : string -> Ext W Uint8Array.
Variable onProgress : ProcessingProgress -> Ext W unit.
Variable signal : option (AbortSignal W).

Let item := Pipeline.process_item api applyMaskToImage exportImage onProgress
                                  signal.

(** An item all of whose stages succeed, under a signal that has not fired
    at any of the four checks. *)
Lemma process_item_succeeds :
  forall (total i : Z) (image : Pipeline.PenpotImageInfo)
         (w w1 w2 w3 w4 w5 w6 w7 w8 w9 : W) (imageData maskData out : Uint8Array)
         (response : Api.RemoveBgResponse) (t4 t6 : list Event),
    aborted signal w = false ->
    onProgress (mkProgress i total
                           ("Exporting " ++ Pipeline.name image ++ "...")%string
                           (Pipeline.id image) exporting) w = (Ok tt, w1) ->
    exportImage (Pipeline.id image) w1 = (Ok imageData, w2) ->
    aborted signal w2 = false ->
    onProgress (mkProgress i total
                           ("Processing " ++ Pipeline.name image ++ "...")%string
                           (Pipeline.id image) processing) w2 = (Ok tt, w3) ->
    Api.removeBackground api imageData (Pipeline.name image ++ ".png")%string
                         signal w3 = (Ok response, w4, t4) ->
    aborted signal w4 = false ->
    onProgress (mkProgress i total "Downloading mask..." (Pipeline.id image)
                           downloading) w4 = (Ok tt, w5) ->
    Api.downloadMask api (Api.output_url (Api.result response)) signal w5
    = (Ok maskData, w6, t6) ->
    aborted signal w6 = false ->
    onProgress (mkProgress i total "Applying mask..." (Pipeline.id image)
                           applying) w6 = (Ok tt, w7) ->
    applyMaskToImage imageData maskData w7 = (Ok out, w8) ->
    onProgress (mkProgress (i + 1) total
                           ("Completed " ++ Pipeline.name image)%string
                           (Pipeline.id image) complete) w8 = (Ok tt, w9) ->
    item total i image w
    = (Ok (mkResult (Pipeline.id image)
                    (Pipeline.name image ++ " - No BG")%string out),
       w9,
       [EvProgress (mkProgress i total
                      ("Exporting " ++ Pipeline.name image ++ "...")%string
                      (Pipeline.id image) exporting);
        EvExportImage (Pipeline.id image);
        EvProgress (mkProgress i total
                      ("Processing " ++ Pipeline.name image ++ "...")%string
                      (Pipeline.id image) processing);
        EvRemoveBackground (Pipeline.name image ++ ".png")%string]
       ++ t4
       ++ [EvProgress (mkProgress i total "Downloading mask..."
                                  (Pipeline.id image) downloading);
           EvDownloadMask (Api.output_url (Api.result response))]
       ++ t6
       ++ [EvProgress (mkProgress i total "Applying mask..."
                                  (Pipeline.id image) applying);
           EvApplyMask;
           EvProgress (mkProgress (i + 1) total
                         ("Completed " ++ Pipeline.name image)%string
                         (Pipeline.id image) complete)]).
Proof.
  intros total i image w w1 w2 w3 w4 w5 w6 w7 w8 w9 imageData maskData out
         response t4 t6 Ha Hp1 Hex Ha2 Hp2 Hrb Ha4 Hp3 Hdl Ha6 Hp4 Hap Hp5.
  subst item.
  unfold Pipeline.process_item, Pipeline.checkCancelled, Pipeline.report,
    bind, emit, lift, ret.
  rewrite Ha, Hp1, Hex, Ha2, Hp2, Hrb, Ha4, Hp3, Hdl, Ha6, Hp4, Hap, Hp5.
  cbn [app]. rewrite ?app_nil_r. reflexivity.
Qed.

End PipelineRuns.

Section PipelineBatches.

Context {W : Type}.
Variable api : Api.ApiService W.
Variable applyMaskToImage : Uint8Array -> Uint8Array -> Ext W Uint8Array.
Variable exportImage : string -> Ext W Uint8Array.
Variable onProgress : ProcessingProgress -> Ext W unit.
Variable signal : option (AbortSignal W).
Variable consumer : ProcessingResult -> Ext W unit.

Hypothesis Hquiet : quietApi api.
Hypothesis Hsignal : forall w, aborted signal w = false.
Hypothesis Hprogress : forall p w, fst (onProgress p w) = Ok tt.
Hypothesis Hexport : forall id w, exists data, fst (exportImage id w) = Ok data.
Hypothesis Hremove :
  forall data filename sig w,
    exists response,
      fst (fst (Api.removeBackground api data filename sig w)) = Ok response.
Hypothesis Hdownload :
  forall url sig w,
    exists mask, fst (fst (Api.downloadMask api url sig w)) = Ok mask.
Hypothesis Happly :
  forall original mask w,
    exists out, fst (applyMaskToImage original mask w) = Ok out.
Hypothesis Hconsumer : forall r w, fst (consumer r w) = Ok tt.

Lemma process_item_all_succeed :
  forall (total i : Z) (image : Pipeline.PenpotImageInfo) (w : W),
    exists out w' t,
      Pipeline.process_item api applyMaskToImage exportImage onProgress signal
                            total i image w
      = (Ok (mkResult (Pipeline.id image)
                      (Pipeline.name image ++ " - No BG")%string out), w', t)
      /\ yields t = []
      /\ map progressKey (progresses t) = stagesOf total i image.
Proof.
  intros total i image w.
  set (p1 := mkProgress i total
                        ("Exporting " ++ Pipeline.name image ++ "...")%string
                        (Pipeline.id image) exporting).
  set (p2 := mkProgress i total
                        ("Processing " ++ Pipeline.name image ++ "...")%string
                        (Pipeline.id image) processing).
  set (p3 := mkProgress i total "Downloading mask..." (Pipeline.id image)
                        downloading).
  set (p4 := mkProgress i total "Applying mask..." (Pipeline.id image)
                        applying).
  set (p5 := mkProgress (i + 1) total
                        ("Completed " ++ Pipeline.name image)%string
                        (Pipeline.id image) complete).
  pose proof (Hprogress p1 w) as H1.
  destruct (onProgress p1 w) as [r1 w1] eqn:E1. simpl in H1. subst r1.
  destruct (Hexport (Pipeline.id image) w1) as (imageData & H2).
  destruct (exportImage (Pipeline.id image) w1) as [r2 w2] eqn:E2.
  simpl in H2. subst r2.
  pose proof (Hprogress p2 w2) as H3.
  destruct (onProgress p2 w2) as [r3 w3] eqn:E3. simpl in H3. subst r3.
  destruct (Hremove imageData (Pipeline.name image ++ ".png")%string signal w3)
    as (response & H4).
  pose proof (proj1 Hquiet imageData (Pipeline.name image ++ ".png")%string
                    signal w3) as Hq4.
  destruct (Api.removeBackground api imageData
                                 (Pipeline.name image ++ ".png")%string
                                 signal w3) as [[r4 w4] t4] eqn:E4.
  simpl in H4, Hq4. subst r4.
  pose proof (Hprogress p3 w4) as H5.
  destruct (onProgress p3 w4) as [r5 w5] eqn:E5. simpl in H5. subst r5.
  destruct (Hdownload (Api.output_url (Api.result response)) signal w5)
    as (maskData & H6).
  pose proof (proj2 Hquiet (Api.output_url (Api.result response)) signal w5)
    as Hq6.
  destruct (Api.downloadMask api (Api.output_url (Api.result response))
                             signal w5) as [[r6 w6] t6] eqn:E6.
  simpl in H6, Hq6. subst r6.
  pose proof (Hprogress p4 w6) as H7.
  destruct (onProgress p4 w6) as [r7 w7] eqn:E7. simpl in H7. subst r7.
  destruct (Happly imageData maskData w7) as (out & H8).
  destruct (applyMaskToImage imageData maskData w7) as [r8 w8] eqn:E8.
  simpl in H8. subst r8.
  pose proof (Hprogress p5 w8) as H9.
  destruct (onProgress p5 w8) as [r9 w9] eqn:E9. simpl in H9. subst r9.
  exists out, w9. eexists. split.
  - apply (process_item_succeeds api applyMaskToImage exportImage onProgress
             signal total i image w w1 w2 w3 w4 w5 w6 w7 w8 w9 imageData
             maskData out response t4 t6); auto.
  - destruct Hq4 as (Hq4p & Hq4y). destruct Hq6 as (Hq6p & Hq6y).
    cbn [app yields progresses].
    rewrite !yields_app, !progresses_app, Hq4p, Hq4y. cbn [app yields progresses].
    rewrite !yields_app, !progresses_app, Hq6p, Hq6y.
    split; reflexivity.
Qed.

Lemma process_loop_all_succeed :
  forall (rest : list Pipeline.PenpotImageInfo) (total i : Z) (w : W),
    exists w' t,
      Pipeline.process_loop api applyMaskToImage exportImage onProgress signal
                            consumer total i rest w
      = (Ok tt, w', t)
      /\ map (fun r => (pr_imageId r, pr_name r)) (yields t)
         = map (fun image => (Pipeline.id image,
                              (Pipeline.name image ++ " - No BG")%string))
               rest
      /\ map progressKey (progresses t) = stagesFrom total i rest.
Proof.
  induction rest as [|image rest IH]; intros total i w.
  - exists w, []. repeat split.
  - destruct (process_item_all_succeed total i image w)
      as (out & w1 & t1 & Hitem & Hy & Hp).
    pose proof (Hconsumer (mkResult (Pipeline.id image)
                                    (Pipeline.name image ++ " - No BG")%string
                                    out) w1) as Hc.
    destruct (consumer _ w1) as [rc w2] eqn:Ec. simpl in Hc. subst rc.
    destruct (IH total (i + 1) w2) as (w' & t & Hrest & Hyr & Hpr).
    exists w'. eexists. split.
    + cbn [Pipeline.process_loop]. unfold bind, emit, lift.
      rewrite Hitem, Ec, Hrest. reflexivity.
    + split.
      * rewrite !yields_app, Hy. cbn [app yields map pr_imageId pr_name].
        now rewrite Hyr.
      * rewrite !progresses_app, !map_app, Hp.
        cbn [app progresses map stagesFrom]. now rewrite Hpr.
Qed.

End PipelineBatches.

(** X13.  A batch on which nothing goes wrong -- the signal never fires
    and every collaborator succeeds -- is processed to the end: [process]
    resolves, hands the consumer one result per image, in the order of the
    input, named after the image with the suffix " - No BG", and reports
    for each image, in turn, the stages exporting, processing, downloading,
    applying at position [i] and complete at position [i + 1] of
    [images.length]. *)
Theorem process_yields_every_item :
  forall (W : Type) (api : Api.ApiService W)
         (applyMaskToImage : Uint8Array -> Uint8Array -> Ext W Uint8Array)
         (exportImage : string -> Ext W Uint8Array)
         (onProgress : ProcessingProgress -> Ext W unit)
         (signal : option (AbortSignal W))
         (consumer : ProcessingResult -> Ext W unit)
         (images : list Pipeline.PenpotImageInfo) (w : W),
    quietApi api ->
    (forall w, aborted signal w = false) ->
    (forall p w, fst (onProgress p w) = Ok tt) ->
    (forall id w, exists data, fst (exportImage id w) = Ok data) ->
    (forall data filename sig w,
        exists response,
          fst (fst (Api.removeBackground api data filename sig w))
          = Ok response) ->
    (forall url sig w,
        exists mask, fst (fst (Api.downloadMask api url sig w)) = Ok mask) ->
    (forall original mask w,
        exists out, fst (applyMaskToImage original mask w) = Ok out) ->
    (forall r w, fst (consumer r w) = Ok tt) ->
    exists w' t,
      Pipeline.process api applyMaskToImage exportImage onProgress signal
                       images consumer w
      = (Ok tt, w', t)
      /\ map (fun r => (pr_imageId r, pr_name r)) (yields t)
         = map (fun image => (Pipeline.id image,
                              (Pipeline.name image ++ " - No BG")%string))
               images
      /\ map progressKey (progresses t)
         = stagesFrom (Z.of_nat (List.length images)) 0 images.
Proof.
  intros W api applyMaskToImage exportImage onProgress signal consumer images
         w Hq Hs Hp He Hr Hd Ha Hc.
  unfold Pipeline.process.
  now apply process_loop_all_succeed.
Qed.

Lemma process_yields_every_item_witness :
  exists w' t,
    Pipeline.process MoreScenarios.steadyApi Scenario.applyMask
                     Scenario.exportImage Scenario.onProgress None
                     [Scenario.image1; MoreScenarios.image2]
                     Scenario.consumer 0%nat
    = (Ok tt, w', t)
    /\ map (fun r => (pr_imageId r, pr_name r)) (yields t)
       = [("1", "Image 1 - No BG"); ("2", "Image 2 - No BG")]
    /\ map progressKey (progresses t)
       = stagesFrom 2 0 [Scenario.image1; MoreScenarios.image2].
Proof.
  apply (process_yields_every_item Scenario.World MoreScenarios.steadyApi
           Scenario.applyMask Scenario.exportImage Scenario.onProgress None
           Scenario.consumer [Scenario.image1; MoreScenarios.image2] 0%nat).
  - split; intros; split; reflexivity.
  - reflexivity.
  - reflexivity.
  - intros id w. now exists [].
  - intros data filename sig w. eexists. reflexivity.
  - intros url sig w. now exists [].
  - intros original mask w. now exists original.
  - reflexivity.
Defined.

(** *** Pipeline: cancellation *)

(** X14.  An empty batch resolves at once, whatever the signal says.  A
    non-empty batch started on a signal that has already fired rejects with
    the [AbortError] "Processing cancelled" before anything is reported,
    exported or sent; the classifier reports that error as [CANCELLED] and
    [isCancellationError] recognises it. *)
Theorem process_cancelled_before_start :
  forall (W : Type) (api : Api.ApiService W)
         (applyMaskToImage : Uint8Array -> Uint8Array -> Ext W Uint8Array)
         (exportImage : string -> Ext W Uint8Array)
         (onProgress : ProcessingProgress -> Ext W unit)
         (signal : option (AbortSignal W))
         (consumer : ProcessingResult -> Ext W unit)
         (image : Pipeline.PenpotImageInfo)
         (rest : list Pipeline.PenpotImageInfo) (w : W),
    Pipeline.process api applyMaskToImage exportImage onProgress signal []
                     consumer w
    = (Ok tt, w, [])
    /\ (aborted signal w = true ->
        Pipeline.process api applyMaskToImage exportImage onProgress signal
                         (image :: rest) consumer w
        = (Throw (DOMException "Processing cancelled" "AbortError"), w, []))
    /\ Errors.code (Errors.mapErrorToDetails
                      (DOMException "Processing cancelled" "AbortError"))
       = CANCELLED
    /\ Errors.isCancellationError
         (DOMException "Processing cancelled" "AbortError") = true.
Proof.
  intros W api applyMaskToImage exportImage onProgress signal consumer image
         rest w.
  split; [reflexivity|]. split; [|split; reflexivity].
  intro Hab. unfold Pipeline.process. cbn [Pipeline.process_loop].
  unfold bind at 1. unfold Pipeline.process_item, bind at 1.
  unfold Pipeline.checkCancelled at 1. now rewrite Hab.
Qed.

Lemma process_cancelled_before_start_witness :
  Pipeline.process MoreScenarios.steadyApi Scenario.applyMask
                   Scenario.exportImage Scenario.onProgress
                   (Some MoreScenarios.firedSignal) [] Scenario.consumer 0%nat
  = (Ok tt, 0%nat, [])
  /\ Pipeline.process MoreScenarios.steadyApi Scenario.applyMask
                      Scenario.exportImage Scenario.onProgress
                      (Some MoreScenarios.firedSignal)
                      [Scenario.image1; MoreScenarios.image2]
                      Scenario.consumer 0%nat
     = (Throw (DOMException "Processing cancelled" "AbortError"), 0%nat, []).
Proof.
  destruct (process_cancelled_before_start
              Scenario.World MoreScenarios.steadyApi Scenario.applyMask
              Scenario.exportImage Scenario.onProgress
              (Some MoreScenarios.firedSignal) Scenario.consumer
              Scenario.image1 [MoreScenarios.image2] 0%nat)
    as (Hempty & Hfired & _).
  split; [exact Hempty|]. apply Hfired. reflexivity.
Defined.





(** *** Pipeline: what is yielded when something fails *)

Section PipelinePrefix.

Context {W : Type}.
Variable api : Api.ApiService W.
Variable applyMaskToImage : Uint8Array -> Uint8Array -> Ext W Uint8Array.
Variable exportImage : string -> Ext W Uint8Array.
Variable onProgress : ProcessingProgress -> Ext W unit.
Variable signal : option (AbortSignal W).
Variable consumer : ProcessingResult -> Ext W unit.
Hypothesis Hquiet : quietApi api.

(** Whatever happens to an item, the item itself logs no yield; and if it
    resolves, its result carries the id of the image and the derived
    name. *)
Lemma process_item_result :
  forall (total i : Z) (image : Pipeline.PenpotImageInfo) (w : W),
    let '(res, _, t) :=
      Pipeline.process_item api applyMaskToImage exportImage onProgress signal
                            total i image w in
    yields t = []
    /\ forall r, res = Ok r ->
                 pr_imageId r = Pipeline.id image
                 /\ pr_name r = (Pipeline.name image ++ " - No BG")%string.
Proof.
  intros total i image w.
  unfold Pipeline.process_item, Pipeline.checkCancelled, Pipeline.report,
    bind, emit, lift, ret.
  destruct (aborted signal w); [split; [reflexivity | discriminate]|].
  destruct (onProgress _ w) as [[[]|e1] w1];
    [|split; [reflexivity | discriminate]].
  destruct (exportImage _ w1) as [[imageData|e2] w2];
    [|split; [reflexivity | discriminate]].
  destruct (aborted signal w2); [split; [reflexivity | discriminate]|].
  destruct (onProgress _ w2) as [[[]|e3] w3];
    [|split; [reflexivity | discriminate]].
  pose proof (proj1 Hquiet imageData (Pipeline.name image ++ ".png")%string
                    signal w3) as Hq4.
  destruct (Api.removeBackground api imageData _ signal w3)
    as [[[response|e4] w4] t4];
    cbn [snd] in Hq4; destruct Hq4 as (_ & Hq4);
    [|split; [cbn [app yields]; now rewrite ?yields_app, Hq4 | discriminate]].
  destruct (aborted signal w4);
    [split; [cbn [app yields]; now rewrite ?yields_app, Hq4 | discriminate]|].
  destruct (onProgress _ w4) as [[[]|e5] w5];
    [|split; [cbn [app yields]; now rewrite ?yields_app, Hq4 | discriminate]].
  pose proof (proj2 Hquiet (Api.output_url (Api.result response)) signal w5)
    as Hq6.
  destruct (Api.downloadMask api _ signal w5) as [[[maskData|e6] w6] t6];
    cbn [snd] in Hq6; destruct Hq6 as (_ & Hq6).
  2:{ split; [|discriminate].
      repeat (progress (rewrite ?yields_app, ?Hq4, ?Hq6; cbn [app yields])).
      reflexivity. }
  assert (Hdone : forall tail,
             yields tail = [] ->
             yields ([] ++ ([EvProgress
                               (mkProgress i total
                                  ("Exporting " ++ Pipeline.name image ++ "...")%string
                                  (Pipeline.id image) exporting)] ++ [])
                        ++ ([EvExportImage (Pipeline.id image)] ++ [])
                        ++ [] ++ ([EvProgress
                                     (mkProgress i total
                                        ("Processing " ++ Pipeline.name image
                                                       ++ "...")%string
                                        (Pipeline.id image) processing)] ++ [])
                        ++ ([EvRemoveBackground
                               (Pipeline.name image ++ ".png")%string] ++ t4)
                        ++ tail) = []).
  { intros tail Htail.
    repeat (progress (rewrite ?yields_app, ?Hq4, ?Htail; cbn [app yields])).
    reflexivity. }
  destruct (aborted signal w6).
  { split; [|discriminate]. apply Hdone.
    repeat (progress (rewrite ?yields_app, ?Hq6; cbn [app yields])).
    reflexivity. }
  destruct (onProgress _ w6) as [[[]|e7] w7].
  2:{ split; [|discriminate]. apply Hdone.
      repeat (progress (rewrite ?yields_app, ?Hq6; cbn [app yields])).
      reflexivity. }
  destruct (applyMaskToImage imageData maskData w7) as [[out|e8] w8].
  2:{ split; [|discriminate]. apply Hdone.
      repeat (progress (rewrite ?yields_app, ?Hq6; cbn [app yields])).
      reflexivity. }
  destruct (onProgress _ w8) as [[[]|e9] w9].
  2:{ split; [|discriminate]. apply Hdone.
      repeat (progress (rewrite ?yields_app, ?Hq6; cbn [app yields])).
      reflexivity. }
  split.
  - apply Hdone.
    repeat (progress (rewrite ?yields_app, ?Hq6; cbn [app yields])).
    reflexivity.
  - intros r Hr. inversion Hr. now split.
Qed.

Lemma process_loop_prefix :
  forall (rest : list Pipeline.PenpotImageInfo) (total i : Z) (w : W),
    let '(res, _, t) :=
      Pipeline.process_loop api applyMaskToImage exportImage onProgress signal
                            consumer total i rest w in
    exists k,
      (k <= List.length rest)%nat
      /\ map (fun r => (pr_imageId r, pr_name r)) (yields t)
         = firstn k (map (fun image =>
                            (Pipeline.id image,
                             (Pipeline.name image ++ " - No BG")%string))
                         rest)
      /\ (res = Ok tt -> k = List.length rest).
Proof.
  induction rest as [|image rest IH]; intros total i w.
  - exists O. simpl. split; [lia|]. split; reflexivity.
  - cbn [Pipeline.process_loop]. unfold bind at 1.
    pose proof (process_item_result total i image w) as Hitem.
    destruct (Pipeline.process_item _ _ _ _ _ total i image w)
      as [[[r|e] w1] t1]; destruct Hitem as (Hy & Hr).
    + destruct (Hr r eq_refl) as (Hid & Hname).
      unfold bind, emit, lift.
      destruct (consumer r w1) as [[[]|ec] w2].
      * specialize (IH total (i + 1) w2).
        destruct (Pipeline.process_loop _ _ _ _ _ _ total (i + 1) rest w2)
          as [[res w'] t].
        destruct IH as (k & Hk & Hpre & Hall).
        exists (S k). split; [simpl; lia|]. split.
        -- rewrite !yields_app, Hy. cbn [app yields map firstn].
           now rewrite Hid, Hname, Hpre.
        -- intro Hres. simpl. f_equal. now apply Hall.
      * exists 1%nat. split; [simpl; lia|]. split; [|discriminate].
        rewrite !yields_app, Hy. cbn [app yields map firstn].
        now rewrite Hid, Hname.
    + exists O. split; [lia|]. split; [|discriminate].
      now rewrite Hy.
Qed.

End PipelinePrefix.

(** X17.  Whatever fails and wherever, the results handed to the consumer
    are those of the first [k] images of the batch, in the order of the
    input and with their derived names, for some [k]; and when [process]
    resolves, [k] is the size of the batch.  (Results yielded before a
    failure stay yielded.) *)
Theorem process_yields_a_prefix :
  forall (W : Type) (api : Api.ApiService W)
         (applyMaskToImage : Uint8Array -> Uint8Array -> Ext W Uint8Array)
         (exportImage : string -> Ext W Uint8Array)
         (onProgress : ProcessingProgress -> Ext W unit)
         (signal : option (AbortSignal W))
         (consumer : ProcessingResult -> Ext W unit)
         (images : list Pipeline.PenpotImageInfo) (w : W),
    quietApi api ->
    let '(res, _, t) :=
      Pipeline.process api applyMaskToImage exportImage onProgress signal
                       images consumer w in
    exists k,
      (k <= List.length images)%nat
      /\ map (fun r => (pr_imageId r, pr_name r)) (yields t)
         = firstn k (map (fun image =>
                            (Pipeline.id image,
                             (Pipeline.name image ++ " - No BG")%string))
                         images)
      /\ (res = Ok tt -> k = List.length images).
Proof.
  intros W api applyMaskToImage exportImage onProgress signal consumer images
         w Hquiet.
  unfold Pipeline.process.
  now apply process_loop_prefix.
Qed.

Lemma process_yields_a_prefix_witness :
  let '(res, _, t) :=
    Pipeline.process Scenario.flakyApi Scenario.applyMask Scenario.exportImage
                     Scenario.onProgress None
                     [Scenario.image1; MoreScenarios.image2]
                     Scenario.consumer 0%nat in
  exists k,
    (k <= 2)%nat
    /\ map (fun r => (pr_imageId r, pr_name r)) (yields t)
       = firstn k [("1", "Image 1 - No BG"); ("2", "Image 2 - No BG")]
    /\ (res = Ok tt -> k = 2%nat).
Proof.
  apply (process_yields_a_prefix Scenario.World Scenario.flakyApi
           Scenario.applyMask Scenario.exportImage Scenario.onProgress None
           Scenario.consumer [Scenario.image1; MoreScenarios.image2] 0%nat).
  split.
  - intros data filename signal w. destruct w; split; reflexivity.
  - intros url signal w. split; reflexivity.
Defined.

(** The service built by [createApiService] logs the token lookup and its
    requests, nothing else. *)
Lemma createApiService_quiet :
  forall (W : Type) (baseUrl : string)
         (fetch : forall T : Type, string -> option (AbortSignal W)
                                   -> Ext W (Api.Response T))
         (getToken : W -> option string),
    quietApi (Api.createApiService baseUrl fetch getToken).
Proof.
  intros W baseUrl fetch getToken. split.
  - intros data filename signal w.
    cbn [Api.createApiService Api.removeBackground].
    unfold Api.request, bind, emit, lift, ret, try_catch, throw,
      Api.rethrow_or.
    destruct (Api.token_missing (getToken w)); [split; reflexivity|].
    destruct (fetch _ _ signal w) as [[response|x] w1].
    + destruct (negb (Api.ok response)).
      * unfold Api.createApiError.
        destruct (Api.status response =? 401);
          [|destruct (Api.status response =? 402);
            [|destruct (Api.status response =? 429)]];
          split; reflexivity.
      * destruct (Api.json response); split; reflexivity.
    + destruct x; try (split; reflexivity).
      destruct (isAbortError _); split; reflexivity.
  - intros url signal w.
    cbn [Api.createApiService Api.downloadMask].
    unfold bind, emit, lift, ret, try_catch, throw, Api.rethrow_or.
    destruct (fetch unit url signal w) as [[response|x] w1].
    + destruct (negb (Api.ok response)); [split; reflexivity|].
      destruct (Api.arrayBuffer response) as [buffer|x];
        [split; reflexivity|].
      destruct x; try (split; reflexivity).
      destruct (isAbortError _); split; reflexivity.
    + destruct x; try (split; reflexivity).
      destruct (isAbortError _); split; reflexivity.
Qed.

(** *** Job store: what the actions keep *)

Lemma Forall2_same :
  forall (A : Type) (R : A -> A -> Prop) (l : list A),
    (forall a, R a a) -> Forall2 R l l.
Proof.
  intros A R l H. induction l as [|a l IH]; [constructor|].
  constructor; [apply H | exact IH].
Qed.

Lemma mutate_first_found :
  forall (R : Store.ProcessingJob -> Store.ProcessingJob -> Prop)
         (id : string) (f : Store.ProcessingJob -> Store.ProcessingJob)
         (js : list Store.ProcessingJob) (job : Store.ProcessingJob),
    (forall j, R j j) ->
    Store.find_job id js = Some job ->
    R job (f job) ->
    Forall2 R js (Store.mutate_first id f js).
Proof.
  intros R id f js job Hrefl. unfold Store.find_job.
  induction js as [|j js IH]; intros Hfind Hjob; [discriminate|].
  simpl in *. destruct (String.eqb (Store.j_id j) id).
  - inversion Hfind; subst j. constructor; [exact Hjob|].
    now apply Forall2_same.
  - constructor; [apply Hrefl | now apply IH].
Qed.

Lemma Forall2_keys :
  forall js js',
    Forall2 (fun before after =>
               Store.j_id after = Store.j_id before
               /\ Store.j_name after = Store.j_name before) js js' ->
    map (fun j => (Store.j_id j, Store.j_name j)) js'
    = map (fun j => (Store.j_id j, Store.j_name j)) js.
Proof.
  intros js js' H. induction H as [|j j' js js' (H1 & H2) _ IH];
    [reflexivity|].
  simpl. now rewrite H1, H2, IH.
Qed.

Lemma cancel_outcome_keeps :
  forall js js',
    Forall2 cancel_outcome js js' ->
    Forall2 (fun before after =>
               (Store.j_id after = Store.j_id before
                /\ Store.j_name after = Store.j_name before)
               /\ (Store.cancellable before = false ->
                   Store.j_status after = Store.j_status before)) js js'.
Proof.
  intros js js' H. induction H as [|j j' js js' Hj _ IH]; constructor;
    [|assumption].
  unfold cancel_outcome in Hj. destruct (Store.cancellable j).
  - destruct Hj as (_ & H1 & H2). split; [now split | discriminate].
  - subst j'. split; [now split | reflexivity].
Qed.

Lemma Forall2_and :
  forall (A B : Type) (P Q : A -> B -> Prop) l l',
    Forall2 (fun a b => P a b /\ Q a b) l l' ->
    Forall2 P l l' /\ Forall2 Q l l'.
Proof.
  intros A B P Q l l' H. induction H as [|a b l l' (H1 & H2) _ (IH1 & IH2)];
    split; constructor; assumption.
Qed.

(** X18.  What the actions of the store leave alone.  Every action other
    than [startBatch] and [reset] keeps the list of jobs as to length, ids
    and names.  [updateJobProgress], [cancel], [finish] and [clearHistory]
    never change the status of a job that is completed, failed or
    cancelled.  Every action other than [clearHistory] only adds entries in
    front of the history. *)
Theorem store_actions_preserve :
  forall (Date_now : nat -> Z) (s : Store.State) (a : Store.Action),
    let s' := Store.step Date_now s a in
    (match a with
     | Store.StartBatch _ | Store.Reset => True
     | _ => map (fun j => (Store.j_id j, Store.j_name j)) (Store.jobs s')
            = map (fun j => (Store.j_id j, Store.j_name j)) (Store.jobs s)
     end)
    /\ (match a with
        | Store.UpdateJobProgress _ _ _ | Store.Cancel | Store.Finish
        | Store.ClearHistory =>
          Forall2 (fun before after =>
                     Store.cancellable before = false ->
                     Store.j_status after = Store.j_status before)
                  (Store.jobs s) (Store.jobs s')
        | _ => True
        end)
    /\ (match a with
        | Store.ClearHistory => Store.history s' = []
        | _ => exists added, Store.history s' = added ++ Store.history s
        end).
Proof.
  intros Date_now s a. cbv zeta.
  destruct a as [items|id progress stage|id|id error| | | |]; simpl.
  - split; [exact I|]. split; [exact I|]. now exists [].
  - unfold Store.updateJobProgress.
    destruct (Store.find_job id (Store.jobs s)) as [job|] eqn:Hfind; simpl.
    + split; [|split; [|now exists []]].
      * apply Forall2_keys.
        apply (mutate_first_found _ id _ (Store.jobs s) job);
          [now split | exact Hfind |].
        destruct (Store.JobStatus_eqb (Store.j_status job) Store.pending);
          now split.
      * apply (mutate_first_found _ id _ (Store.jobs s) job);
          [reflexivity | exact Hfind |].
        unfold Store.cancellable. intro Hterminal.
        destruct (Store.JobStatus_eqb (Store.j_status job) Store.pending);
          [discriminate | reflexivity].
    + split; [reflexivity|]. split; [now apply Forall2_same|]. now exists [].
  - unfold Store.completeJob.
    destruct (Store.find_job id (Store.jobs s)) as [job|] eqn:Hfind; simpl.
    + split; [|split; [exact I|]].
      * apply Forall2_keys.
        apply (mutate_first_found _ id _ (Store.jobs s) job);
          [now split | exact Hfind | now split].
      * eexists [_]. reflexivity.
    + split; [reflexivity|]. split; [exact I|]. now exists [].
  - unfold Store.failJob.
    destruct (Store.find_job id (Store.jobs s)) as [job|] eqn:Hfind; simpl.
    + split; [|split; [exact I|]].
      * apply Forall2_keys.
        apply (mutate_first_found _ id _ (Store.jobs s) job);
          [now split | exact Hfind | now split].
      * eexists [_]. reflexivity.
    + split; [reflexivity|]. split; [exact I|]. now exists [].
  - unfold Store.cancel.
    destruct (Store.abortController s) as [c|].
    + destruct (cancel_jobs_spec Date_now (Store.jobs s) (Store.history s)
                                 (Store.ticks s))
        as (entries & Heq & Hjobs & _).
      destruct (Store.cancel_jobs Date_now (Store.jobs s) (Store.history s)
                                  (Store.ticks s)) as [[js hist] t].
      simpl in *. inversion Heq; subst hist t.
      destruct (Forall2_and _ _ _ _ _ _ (cancel_outcome_keeps _ _ Hjobs))
        as (Hkeys & Hterm).
      split; [now apply Forall2_keys|]. split; [exact Hterm|].
      now exists (rev entries).
    + split; [reflexivity|]. split; [now apply Forall2_same|]. now exists [].
  - split; [reflexivity|]. split; [now apply Forall2_same|]. now exists [].
  - split; [exact I|]. split; [exact I|]. now exists [].
  - split; [reflexivity|]. split; [now apply Forall2_same|]. reflexivity.
Qed.

(** *** Job store: history, unknown ids, cancelling twice, signals *)

Lemma cancel_jobs_history_terminal :
  forall Date_now js hist t,
    Forall (fun h => Store.h_status h <> Store.pending
                     /\ Store.h_status h <> Store.processing) hist ->
    Forall (fun h => Store.h_status h <> Store.pending
                     /\ Store.h_status h <> Store.processing)
           (snd (fst (Store.cancel_jobs Date_now js hist t))).
Proof.
  intros Date_now js. induction js as [|j js IH]; intros hist t H;
    [exact H|].
  simpl. destruct (Store.cancellable j).
  - specialize (IH (Store.cancelledEntry j (Date_now t) :: hist) (S t)).
    destruct (Store.cancel_jobs Date_now js _ (S t)) as [[js' h'] t'].
    simpl in *. apply IH. constructor; [split; discriminate | exact H].
  - specialize (IH hist t H).
    now destruct (Store.cancel_jobs Date_now js hist t) as [[js' h'] t'].
Qed.

(** X19.  In every state the store can reach from its initial state, by
    any sequence of actions, the history holds only entries with a terminal
    status: [completed], [failed] or [cancelled]. *)
Theorem history_statuses_terminal :
  forall (Date_now : nat -> Z) (actions : list Store.Action),
    Forall (fun h => Store.h_status h = Store.completed
                     \/ Store.h_status h = Store.failed
                     \/ Store.h_status h = Store.cancelled)
           (Store.history (Store.run Date_now Store.initial actions)).
Proof.
  intros Date_now actions.
  assert (H : Forall (fun h => Store.h_status h <> Store.pending
                               /\ Store.h_status h <> Store.processing)
                     (Store.history
                        (Store.run Date_now Store.initial actions))).
  { unfold Store.run.
    assert (Hinit : Forall (fun h => Store.h_status h <> Store.pending
                                     /\ Store.h_status h <> Store.processing)
                           (Store.history Store.initial)) by constructor.
    revert Hinit. generalize Store.initial as s.
    induction actions as [|a actions IH]; intros s Hs; [exact Hs|].
    simpl. apply IH.
    destruct a as [items|id progress stage|id|id error| | | |]; simpl.
    - exact Hs.
    - unfold Store.updateJobProgress.
      now destruct (Store.find_job id (Store.jobs s)).
    - unfold Store.completeJob.
      destruct (Store.find_job id (Store.jobs s)); [|exact Hs].
      simpl. constructor; [split; discriminate | exact Hs].
    - unfold Store.failJob.
      destruct (Store.find_job id (Store.jobs s)); [|exact Hs].
      simpl. constructor; [split; discriminate | exact Hs].
    - unfold Store.cancel. destruct (Store.abortController s); [|exact Hs].
      pose proof (cancel_jobs_history_terminal
                    Date_now (Store.jobs s) (Store.history s) (Store.ticks s)
                    Hs) as Hc.
      now destruct (Store.cancel_jobs _ _ _ _) as [[js h] t].
    - exact Hs.
    - exact Hs.
    - constructor. }
  eapply Forall_impl; [|exact H].
  intros h (H1 & H2). destruct (Store.h_status h); auto; contradiction.
Qed.

Lemma find_job_unknown :
  forall (id : string) (js : list Store.ProcessingJob),
    ~ In id (map Store.j_id js) -> Store.find_job id js = None.
Proof.
  intros id js. unfold Store.find_job.
  induction js as [|j js IH]; intro H; [reflexivity|].
  simpl in *. destruct (String.eqb_spec (Store.j_id j) id) as [Heq|Hne].
  - exfalso. apply H. now left.
  - apply IH. intro Hin. apply H. now right.
Qed.

(** X20.  [updateJobProgress], [completeJob] and [failJob] with an id that
    no job of the batch has change nothing at all: no job, no history
    entry, no call of [Date.now()]. *)
Theorem store_ignores_unknown_id :
  forall (Date_now : nat -> Z) (s : Store.State) (id stage error : string)
         (progress : Z),
    ~ In id (map Store.j_id (Store.jobs s)) ->
    Store.updateJobProgress Date_now id progress stage s = s
    /\ Store.completeJob Date_now id s = s
    /\ Store.failJob Date_now id error s = s.
Proof.
  intros Date_now s id stage error progress H.
  apply find_job_unknown in H.
  unfold Store.updateJobProgress, Store.completeJob, Store.failJob.
  rewrite H. repeat split.
Qed.

Lemma store_ignores_unknown_id_witness :
  let s := fst (Store.startBatch [Scenario.item1] Store.initial) in
  Store.updateJobProgress Scenario.clock "2" 50 "Half done" s = s
  /\ Store.completeJob Scenario.clock "2" s = s
  /\ Store.failJob Scenario.clock "2" "boom" s = s.
Proof.
  apply (store_ignores_unknown_id Scenario.clock
           (fst (Store.startBatch [Scenario.item1]
                                  Store.initial))
           "2" "Half done" "boom" 50).
  simpl. intros [H|H]; [discriminate | exact H].
Defined.

Lemma cancel_jobs_nothing_open :
  forall Date_now js hist t,
    Forall (fun j => Store.cancellable j = false) js ->
    Store.cancel_jobs Date_now js hist t = (js, hist, t).
Proof.
  intros Date_now js hist t H. induction H as [|j js Hj _ IH];
    [reflexivity|].
  simpl. now rewrite Hj, IH.
Qed.

Lemma cancel_jobs_closes_all :
  forall Date_now js hist t,
    Forall (fun j => Store.cancellable j = false)
           (fst (fst (Store.cancel_jobs Date_now js hist t))).
Proof.
  intros Date_now js. induction js as [|j js IH]; intros hist t;
    [constructor|].
  simpl. destruct (Store.cancellable j) eqn:Hj.
  - specialize (IH (Store.cancelledEntry j (Date_now t) :: hist) (S t)).
    destruct (Store.cancel_jobs Date_now js _ (S t)) as [[js' h'] t'].
    simpl in *. constructor; [reflexivity | exact IH].
  - specialize (IH hist t).
    destruct (Store.cancel_jobs Date_now js hist t) as [[js' h'] t'].
    simpl in *. constructor; [exact Hj | exact IH].
Qed.

Lemma abort_twice :
  forall c cs, Store.abort c (Store.abort c cs) = Store.abort c cs.
Proof.
  intros c cs. revert c. induction cs as [|b cs IH]; intros [|c]; simpl;
    try reflexivity.
  now rewrite IH.
Qed.

(** X21.  [cancel()] is idempotent: a second call, in any state, changes
    nothing -- no job, no further history entry, no call of [Date.now()].
    After [cancel()] no job is pending or processing any more when a batch
    was active. *)
Theorem cancel_twice :
  forall (Date_now : nat -> Z) (s : Store.State),
    Store.cancel Date_now (Store.cancel Date_now s) = Store.cancel Date_now s
    /\ (Store.abortController s <> None ->
        Forall (fun j => Store.j_status j <> Store.pending
                         /\ Store.j_status j <> Store.processing)
               (Store.jobs (Store.cancel Date_now s))).
Proof.
  intros Date_now s. unfold Store.cancel at 2 3 4.
  destruct (Store.abortController s) as [c|] eqn:Hc.
  - pose proof (cancel_jobs_closes_all Date_now (Store.jobs s)
                                       (Store.history s) (Store.ticks s))
      as Hclosed.
    destruct (Store.cancel_jobs Date_now (Store.jobs s) (Store.history s)
                                (Store.ticks s)) as [[js hist] t].
    simpl in Hclosed. split.
    + unfold Store.cancel. simpl.
      rewrite (cancel_jobs_nothing_open Date_now js hist t Hclosed).
      now rewrite abort_twice.
    + intros _. simpl. eapply Forall_impl; [|exact Hclosed].
      intros j Hj. unfold Store.cancellable in Hj.
      destruct (Store.j_status j); simpl in Hj;
        try discriminate; split; discriminate.
  - split; [|now intro H; elim H].
    unfold Store.cancel. now rewrite Hc.
Qed.

Lemma nth_abort_other :
  forall c c' cs,
    nth c' (Store.abort c cs) false = true ->
    nth c' cs false = true \/ c' = c.
Proof.
  intros c c' cs. revert c c'.
  induction cs as [|b cs IH]; intros [|c] [|c']; simpl; intro H; auto.
  destruct (IH c c' H) as [H1|H1]; [now left | right; now f_equal].
Qed.

Lemma nth_abort_monotone :
  forall c c' cs,
    nth c' cs false = true -> nth c' (Store.abort c cs) false = true.
Proof.
  intros c c' cs. revert c c'.
  induction cs as [|b cs IH]; intros [|c] [|c']; simpl; intro H; auto.
Qed.

Lemma nth_snoc_false :
  forall (cs : list bool) (c : nat),
    nth c (cs ++ [false]) false = nth c cs false.
Proof.
  induction cs as [|b cs IH]; intros [|c]; simpl; try reflexivity.
  - now destruct c.
  - apply IH.
Qed.

(** X22.  Abort signals of the store.  A signal that has fired stays
    fired.  A signal only fires through [cancel()], and then it is the
    signal of the batch that is active: no other action -- in particular
    neither [startBatch], which drops the controller of the previous batch,
    nor [finish] or [reset] -- aborts anything.  The signal that
    [startBatch] returns has not fired and is the one [cancel()] will
    fire. *)
Theorem store_signals :
  forall (Date_now : nat -> Z) (s : Store.State) (a : Store.Action) (c : nat)
         (items : list Store.Item),
    (Store.signal_aborted s c = true ->
     Store.signal_aborted (Store.step Date_now s a) c = true)
    /\ (Store.signal_aborted (Store.step Date_now s a) c = true ->
        Store.signal_aborted s c = true
        \/ (a = Store.Cancel /\ Store.abortController s = Some c))
    /\ (let '(s', signal) := Store.startBatch items s in
        Store.signal_aborted s' signal = false
        /\ Store.abortController s' = Some signal
        /\ Store.signal_aborted (Store.cancel Date_now s') signal = true).
Proof.
  intros Date_now s a c items. unfold Store.signal_aborted.
  split; [|split].
  - intro H. destruct a as [i|id p st|id|id e| | | |]; simpl; try exact H.
    + now rewrite nth_snoc_false.
    + unfold Store.updateJobProgress. now destruct (Store.find_job _ _).
    + unfold Store.completeJob. now destruct (Store.find_job _ _).
    + unfold Store.failJob. now destruct (Store.find_job _ _).
    + unfold Store.cancel. destruct (Store.abortController s); [|exact H].
      destruct (Store.cancel_jobs _ _ _ _) as [[js h] t]. simpl.
      now apply nth_abort_monotone.
  - intro H. destruct a as [i|id p st|id|id e| | | |]; simpl in H;
      try (now left).
    + rewrite nth_snoc_false in H. now left.
    + unfold Store.updateJobProgress in H.
      destruct (Store.find_job _ _); now left.
    + unfold Store.completeJob in H. destruct (Store.find_job _ _); now left.
    + unfold Store.failJob in H. destruct (Store.find_job _ _); now left.
    + unfold Store.cancel in H.
      destruct (Store.abortController s) as [c0|]; [|now left].
      destruct (Store.cancel_jobs _ _ _ _) as [[js h] t]. simpl in H.
      destruct (nth_abort_other c0 c _ H) as [H1|H1]; [now left|].
      right. subst c0. now split.
  - unfold Store.startBatch, Store.cancel. simpl.
    split; [|split; [reflexivity|]].
    + rewrite nth_snoc_false. apply nth_overflow. lia.
    + destruct (Store.cancel_jobs _ _ _ _) as [[js h] t]. simpl.
      apply abort_sets_flag. rewrite length_app. simpl. lia.
Qed.

(** *** Job store: bounds of the aggregate progress *)


Lemma overallProgress_all_completed :
  forall s : Store.State,
    Store.jobs s <> [] ->
    Forall (fun j => Store.j_status j = Store.completed) (Store.jobs s) ->
    Store.overallProgress s = 100.
Proof.
  intros s Hne Hall. unfold Store.overallProgress.
  destruct (Store.jobs s) as [|j js] eqn:Hjs; [now elim Hne|].
  change (Nat.eqb (List.length (j :: js)) 0) with false. cbv iota.
  unfold Store.completedCount, Store.currentProgress, Store.currentJob.
  rewrite Hjs.
  assert (Hfilter : filter (fun job => Store.JobStatus_eqb
                                         (Store.j_status job)
                                         Store.completed) (j :: js)
                    = j :: js).
  { clear Hjs Hne. induction Hall as [|a l Ha _ IH]; [reflexivity|].
    simpl. now rewrite Ha, IH. }
  assert (Hfind : find (fun job => Store.JobStatus_eqb
                                     (Store.j_status job)
                                     Store.processing) (j :: js) = None).
  { clear Hjs Hne Hfilter. induction Hall as [|a l Ha _ IH]; [reflexivity|].
    simpl. now rewrite Ha. }
  rewrite Hfilter, Hfind.
  transitivity (Math_round 100); [|reflexivity]. apply Math_round_compat.
  field. apply (inject_Z_length_nonzero _ (j :: js)). discriminate.
Qed.



(** *** Processing controller *)

Lemma nth_abort_ne :
  forall c c' cs,
    c' <> c -> nth c' (Store.abort c cs) false = nth c' cs false.
Proof.
  intros c c' cs. revert c c'.
  induction cs as [|b cs IH]; intros [|c] [|c'] Hne; simpl; try reflexivity.
  - now elim Hne.
  - apply IH. intro H. apply Hne. now f_equal.
Qed.

(** The controller the closure holds, if any, is one that has been created
    and whose signal has not fired. *)
Lemma controller_step_live :
  forall (s : Controller.State) (a : Controller.Action),
    (forall c, Controller.abortController s = Some c ->
               (c < List.length (Controller.controllers s))%nat
               /\ Controller.signal_aborted s c = false) ->
    forall c, Controller.abortController (Controller.step s a) = Some c ->
              (c < List.length (Controller.controllers
                                  (Controller.step s a)))%nat
              /\ Controller.signal_aborted (Controller.step s a) c = false.
Proof.
  intros s a Hs c.
  destruct a; simpl; unfold Controller.cancel, Controller.finish;
    destruct (Controller.abortController s) as [c0|] eqn:Hc0; simpl;
    try discriminate.
  - intro H; injection H as <-. unfold Controller.signal_aborted. simpl.
    rewrite length_app, abort_length. simpl. split; [lia|].
    rewrite nth_snoc_false. apply nth_overflow. rewrite abort_length. lia.
  - intro H; injection H as <-. unfold Controller.signal_aborted. simpl.
    rewrite length_app. simpl. split; [lia|].
    rewrite nth_snoc_false. apply nth_overflow. lia.
  - rewrite Hc0. discriminate.
  - rewrite Hc0. discriminate.
Qed.

Lemma controller_run_live :
  forall (actions : list Controller.Action) (s : Controller.State),
    (forall c, Controller.abortController s = Some c ->
               (c < List.length (Controller.controllers s))%nat
               /\ Controller.signal_aborted s c = false) ->
    forall c, Controller.abortController (Controller.run s actions) = Some c ->
              (c < List.length (Controller.controllers
                                  (Controller.run s actions)))%nat
              /\ Controller.signal_aborted (Controller.run s actions) c = false.
Proof.
  induction actions as [|a actions IH]; intros s Hs; simpl; [exact Hs|].
  apply IH. now apply controller_step_live.
Qed.

(** A signal whose controller the closure no longer holds is out of
    reach: no later call changes it. *)
Lemma controller_step_dropped :
  forall (s : Controller.State) (a : Controller.Action) (c : nat),
    (forall c0, Controller.abortController s = Some c0 ->
                (c0 < List.length (Controller.controllers s))%nat) ->
    (c < List.length (Controller.controllers s))%nat ->
    Controller.abortController s <> Some c ->
    (forall c0, Controller.abortController (Controller.step s a) = Some c0 ->
                (c0 < List.length (Controller.controllers
                                     (Controller.step s a)))%nat)
    /\ (c < List.length (Controller.controllers (Controller.step s a)))%nat
    /\ Controller.abortController (Controller.step s a) <> Some c
    /\ Controller.signal_aborted (Controller.step s a) c
       = Controller.signal_aborted s c.
Proof.
  intros s a c Hs Hc Hne.
  assert (Hother : forall c0, Controller.abortController s = Some c0 ->
                              c <> c0).
  { intros c0 H0 ->. now apply Hne. }
  destruct a; simpl; unfold Controller.cancel, Controller.finish,
    Controller.signal_aborted;
    destruct (Controller.abortController s) as [c0|] eqn:Hc0; simpl;
    rewrite ?length_app, ?abort_length, ?nth_snoc_false; simpl;
    repeat split; try discriminate; try lia;
    try (intros c1 H1; injection H1 as <-; lia);
    try (intro H1; injection H1 as H1; lia);
    try (apply nth_abort_ne; now apply Hother);
    try reflexivity.
  - rewrite Hc0. discriminate.
  - rewrite Hc0. discriminate.
  - rewrite Hc0. discriminate.
  - rewrite Hc0. discriminate.
Qed.

Lemma controller_run_dropped :
  forall (actions : list Controller.Action) (s : Controller.State) (c : nat),
    (forall c0, Controller.abortController s = Some c0 ->
                (c0 < List.length (Controller.controllers s))%nat) ->
    (c < List.length (Controller.controllers s))%nat ->
    Controller.abortController s <> Some c ->
    Controller.signal_aborted (Controller.run s actions) c
    = Controller.signal_aborted s c.
Proof.
  induction actions as [|a actions IH]; intros s c Hs Hc Hne; simpl;
    [reflexivity|].
  destruct (controller_step_dropped s a c Hs Hc Hne) as (H1 & H2 & H3 & H4).
  rewrite IH; assumption.
Qed.

(** X24.  The life of a signal of [useProcessingController], in every
    state the controller can reach.  [isCancelled()] answers [false]
    always, also right after [cancel()]: the closure never holds a
    controller whose signal has fired.  The signal that [startProcessing]
    returns has not fired; the call fires the signal of the operation that
    was running, if any.  The returned signal is fired by the next
    [cancel()] or the next [startProcessing()]; after [finish()] nothing
    fires it any more. *)
Theorem controller_signal_lifecycle :
  forall actions : list Controller.Action,
    let s := Controller.run Controller.initial actions in
    let s1 := fst (Controller.startProcessing s) in
    let signal := snd (Controller.startProcessing s) in
    Controller.isCancelled s = false
    /\ Controller.isCancelled (Controller.cancel s) = false
    /\ Controller.signal_aborted s1 signal = false
    /\ (forall previous,
           Controller.abortController s = Some previous ->
           Controller.signal_aborted s1 previous = true)
    /\ Controller.signal_aborted (Controller.cancel s1) signal = true
    /\ Controller.signal_aborted (fst (Controller.startProcessing s1)) signal
       = true
    /\ (forall more,
           Controller.signal_aborted
             (Controller.run (Controller.finish s1) more) signal = false).
Proof.
  intros actions s s1 signal.
  assert (Hlive : forall c, Controller.abortController s = Some c ->
                            (c < List.length (Controller.controllers s))%nat
                            /\ Controller.signal_aborted s c = false).
  { apply controller_run_live. simpl. discriminate. }
  assert (Hlive1 : forall c, Controller.abortController s1 = Some c ->
                             (c < List.length (Controller.controllers s1))%nat
                             /\ Controller.signal_aborted s1 c = false).
  { apply (controller_step_live s Controller.StartProcessing Hlive). }
  assert (Hsig : Controller.abortController s1 = Some signal) by reflexivity.
  destruct (Hlive1 signal Hsig) as (Hlt & Hfresh).
  split; [|split; [|split; [|split; [|split; [|split]]]]].
  - unfold Controller.isCancelled.
    destruct (Controller.abortController s) as [c|] eqn:Hc; [|reflexivity].
    now apply Hlive.
  - unfold Controller.isCancelled, Controller.cancel.
    destruct (Controller.abortController s) as [c|] eqn:Hc; simpl;
      [reflexivity | now rewrite Hc].
  - exact Hfresh.
  - intros previous Hp. destruct (Hlive previous Hp) as (Hplt & _).
    subst s1. unfold Controller.startProcessing, Controller.cancel,
      Controller.signal_aborted. rewrite Hp. simpl.
    rewrite nth_snoc_false. now apply abort_sets_flag.
  - unfold Controller.cancel, Controller.signal_aborted. rewrite Hsig. simpl.
    now apply abort_sets_flag.
  - unfold Controller.startProcessing at 1, Controller.cancel,
      Controller.signal_aborted.
    rewrite Hsig. simpl. rewrite nth_snoc_false. now apply abort_sets_flag.
  - intro more. rewrite controller_run_dropped.
    + exact Hfresh.
    + simpl. discriminate.
    + exact Hlt.
    + simpl. discriminate.
Qed.

(** *** Job store: time stamps of the history *)

Lemma Forall_mutate_first :
  forall (P : Store.ProcessingJob -> Prop) id f js,
    (forall j, P j -> P (f j)) ->
    Forall P js -> Forall P (Store.mutate_first id f js).
Proof.
  intros P id f js Hf H. induction H as [|j js Hj Hjs IH]; simpl;
    [constructor|].
  destruct (String.eqb (Store.j_id j) id); constructor; auto.
Qed.

Lemma find_job_In :
  forall id js job, Store.find_job id js = Some job -> In job js.
Proof.
  intros id js job H. unfold Store.find_job in H.
  now apply find_some in H.
Qed.

Section HistoryClock.

Variable Date_now : nat -> Z.
Hypothesis monotone : forall m n, (m <= n)%nat -> Date_now m <= Date_now n.

(** Started no later than the [t]-th reading of the clock. *)
Let started_by (t : nat) (j : Store.ProcessingJob) : Prop :=
  forall t0, Store.j_startedAt j = Some t0 -> t0 <= Date_now t.

Let entry_by (t : nat) (h : Store.ProcessingHistoryItem) : Prop :=
  0 <= Store.h_duration h /\ Store.h_timestamp h <= Date_now t.

Let newest_first : list Store.ProcessingHistoryItem -> Prop :=
  StronglySorted (fun a b => Store.h_timestamp b <= Store.h_timestamp a).

Let timed (s : Store.State) : Prop :=
  Forall (started_by (Store.ticks s)) (Store.jobs s)
  /\ Forall (entry_by (Store.ticks s)) (Store.history s)
  /\ newest_first (Store.history s).

Lemma started_by_later :
  forall t t' js, (t <= t')%nat ->
                  Forall (started_by t) js -> Forall (started_by t') js.
Proof.
  intros t t' js Ht H. eapply Forall_impl; [|exact H].
  intros j Hj t0 H0. specialize (Hj t0 H0).
  pose proof (monotone t t' Ht). lia.
Qed.

Lemma entry_by_later :
  forall t t' hist, (t <= t')%nat ->
                    Forall (entry_by t) hist -> Forall (entry_by t') hist.
Proof.
  intros t t' hist Ht H. eapply Forall_impl; [|exact H].
  intros h (Hd & Hts). split; [exact Hd|].
  pose proof (monotone t t' Ht). lia.
Qed.

Lemma duration_nonneg :
  forall t job, started_by t job -> 0 <= Store.duration job (Date_now t).
Proof.
  intros t job Hjob. unfold Store.duration.
  destruct (Store.j_startedAt job) as [t0|] eqn:H0; [|lia].
  specialize (Hjob t0 H0). lia.
Qed.

Lemma newest_first_cons :
  forall t h hist,
    Store.h_timestamp h = Date_now t ->
    Forall (entry_by t) hist -> newest_first hist ->
    newest_first (h :: hist).
Proof.
  intros t h hist Hh Hall Hsorted. constructor; [exact Hsorted|].
  eapply Forall_impl; [|exact Hall]. intros a (_ & Ha). simpl. lia.
Qed.

Lemma cancel_jobs_timed :
  forall js hist t,
    Forall (started_by t) js -> Forall (entry_by t) hist ->
    newest_first hist ->
    let '(js', hist', t') := Store.cancel_jobs Date_now js hist t in
    (t <= t')%nat
    /\ Forall (started_by t') js' /\ Forall (entry_by t') hist'
    /\ newest_first hist'.
Proof.
  induction js as [|job js IH]; intros hist t Hjs Hhist Hsorted; simpl.
  - repeat split; auto.
  - inversion Hjs as [|? ? Hjob Hrest]; subst.
    destruct (Store.cancellable job).
    + assert (Hentry : entry_by (S t)
                                (Store.cancelledEntry job (Date_now t))).
      { split; simpl; [now apply duration_nonneg|].
        apply monotone. lia. }
      specialize (IH (Store.cancelledEntry job (Date_now t) :: hist) (S t)).
      destruct (Store.cancel_jobs Date_now js
                  (Store.cancelledEntry job (Date_now t) :: hist) (S t))
        as [[js' hist'] t'].
      destruct IH as (Ht & Hjs' & Hhist' & Hsorted').
      * apply started_by_later with t; [lia | exact Hrest].
      * constructor; [exact Hentry|].
        apply entry_by_later with t; [lia | exact Hhist].
      * now apply newest_first_cons with t.
      * repeat split; auto; [lia|]. constructor; [|exact Hjs'].
        intros t0 H0. simpl in H0. specialize (Hjob t0 H0).
        pose proof (monotone t t' ltac:(lia)). lia.
    + specialize (IH hist t Hrest Hhist Hsorted).
      destruct (Store.cancel_jobs Date_now js hist t) as [[js' hist'] t'].
      destruct IH as (Ht & Hjs' & Hhist' & Hsorted').
      repeat split; auto. constructor; [|exact Hjs'].
      intros t0 H0. specialize (Hjob t0 H0).
      pose proof (monotone t t' Ht). lia.
Qed.

Lemma step_timed :
  forall s a, timed s -> timed (Store.step Date_now s a).
Proof.
  intros s a (Hjobs & Hhist & Hsorted). destruct a; simpl.
  - (* startBatch *)
    split; [|split; assumption]. simpl.
    apply Forall_forall. intros j Hj. apply in_map_iff in Hj.
    destruct Hj as (item & <- & _). intros t0 H0. discriminate.
  - (* updateJobProgress *)
    unfold Store.updateJobProgress.
    destruct (Store.find_job id (Store.jobs s)) as [job|] eqn:Hfind;
      [|repeat split; assumption].
    destruct (Store.JobStatus_eqb (Store.j_status job) Store.pending);
      split; simpl.
    + apply Forall_mutate_first.
      * intros j _ t0 H0. simpl in H0. injection H0 as <-.
        apply monotone. lia.
      * apply started_by_later with (Store.ticks s); [lia | exact Hjobs].
    + split; [|exact Hsorted].
      apply entry_by_later with (Store.ticks s); [lia | exact Hhist].
    + apply Forall_mutate_first; [|exact Hjobs].
      intros j Hj t0 H0. simpl in H0. now apply Hj.
    + split; assumption.
  - (* completeJob *)
    unfold Store.completeJob.
    destruct (Store.find_job id (Store.jobs s)) as [job|] eqn:Hfind;
      [|repeat split; assumption].
    assert (Hjob : started_by (Store.ticks s) job).
    { apply find_job_In in Hfind.
      now apply (proj1 (Forall_forall _ _) Hjobs). }
    split; [|split]; simpl.
    + apply Forall_mutate_first.
      * intros j Hj t0 H0. simpl in H0. now apply Hj.
      * apply started_by_later with (Store.ticks s); [lia | exact Hjobs].
    + constructor.
      * split; simpl; [now apply duration_nonneg | apply monotone; lia].
      * apply entry_by_later with (Store.ticks s); [lia | exact Hhist].
    + now apply newest_first_cons with (Store.ticks s).
  - (* failJob *)
    unfold Store.failJob.
    destruct (Store.find_job id (Store.jobs s)) as [job|] eqn:Hfind;
      [|repeat split; assumption].
    assert (Hjob : started_by (Store.ticks s) job).
    { apply find_job_In in Hfind.
      now apply (proj1 (Forall_forall _ _) Hjobs). }
    split; [|split]; simpl.
    + apply Forall_mutate_first.
      * intros j Hj t0 H0. simpl in H0. now apply Hj.
      * apply started_by_later with (Store.ticks s); [lia | exact Hjobs].
    + constructor.
      * split; simpl; [now apply duration_nonneg | apply monotone; lia].
      * apply entry_by_later with (Store.ticks s); [lia | exact Hhist].
    + now apply newest_first_cons with (Store.ticks s).
  - (* cancel *)
    unfold Store.cancel.
    destruct (Store.abortController s) as [c|];
      [|repeat split; assumption].
    pose proof (cancel_jobs_timed (Store.jobs s) (Store.history s)
                                  (Store.ticks s) Hjobs Hhist Hsorted) as H.
    destruct (Store.cancel_jobs Date_now (Store.jobs s) (Store.history s)
                                (Store.ticks s)) as [[js' hist'] t'].
    destruct H as (_ & H1 & H2 & H3). repeat split; assumption.
  - repeat split; assumption.
  - split; [constructor | split; assumption].
  - split; [exact Hjobs | split; constructor].
Qed.

Lemma run_timed :
  forall actions s, timed s -> timed (Store.run Date_now s actions).
Proof.
  induction actions as [|a actions IH]; intros s Hs; simpl; [exact Hs|].
  apply IH. now apply step_timed.
Qed.

Lemma run_history_timed :
  forall actions,
    let s := Store.run Date_now Store.initial actions in
    Forall (fun h => 0 <= Store.h_duration h) (Store.history s)
    /\ StronglySorted (fun a b => Store.h_timestamp b <= Store.h_timestamp a)
                      (Store.history s).
Proof.
  intros actions s.
  destruct (run_timed actions Store.initial) as (_ & Hhist & Hsorted).
  { repeat split; constructor. }
  split; [|exact Hsorted].
  eapply Forall_impl; [|exact Hhist]. now intros h (Hd & _).
Qed.

End HistoryClock.

(** X25.  With a clock that never runs backwards, in every state the
    store can reach from its initial state every history entry has a
    duration that is not negative, and the history is ordered by time stamp,
    newest first. *)
Theorem history_durations_and_order :
  forall (Date_now : nat -> Z) (actions : list Store.Action),
    (forall m n, (m <= n)%nat -> Date_now m <= Date_now n) ->
    let s := Store.run Date_now Store.initial actions in
    Forall (fun h => 0 <= Store.h_duration h) (Store.history s)
    /\ StronglySorted (fun a b => Store.h_timestamp b <= Store.h_timestamp a)
                      (Store.history s).
Proof.
  intros Date_now actions Hmono. now apply run_history_timed.
Qed.

Lemma history_durations_and_order_witness :
  let s := Store.run Scenario.clock Store.initial
                     [Store.StartBatch [Scenario.item1; Scenario.item2];
                      Store.UpdateJobProgress "1" 40 "Processing...";
                      Store.CompleteJob "1"; Store.Cancel] in
  Forall (fun h => 0 <= Store.h_duration h) (Store.history s)
  /\ StronglySorted (fun a b => Store.h_timestamp b <= Store.h_timestamp a)
                    (Store.history s).
Proof.
  apply (history_durations_and_order
           Scenario.clock
           [Store.StartBatch [Scenario.item1; Scenario.item2];
            Store.UpdateJobProgress "1" 40 "Processing...";
            Store.CompleteJob "1"; Store.Cancel]).
  intros m n Hmn. unfold Scenario.clock. lia.
Defined.

(** *** Error handler *)

Lemma details_recoverable :
  forall error, Errors.recoverable (Errors.mapErrorToDetails error) = true.
Proof.
  intro error. unfold Errors.mapErrorToDetails.
  destruct (isAbortError error); [reflexivity|].
  destruct error; simpl;
    repeat match goal with
           | |- context [if ?b then _ else _] => destruct b
           end; reflexivity.
Qed.

Lemma auth_or_credits :
  forall error,
    (Errors.isAuthError error && Errors.isCreditsError error)%bool = false.
Proof.
  intros [m n|m|m status c|m|m|m c u r|m|d]; simpl; try reflexivity.
  - unfold Errors.api_isAuthError, Errors.api_isCreditsError.
    destruct (status =? 401) eqn:H1; [|reflexivity].
    apply Z.eqb_eq in H1. subst. reflexivity.
  - now destruct c.
Qed.

Section HandlerCalls.

Context {E : Type}.
Variable autoClearMs : option Z.

Lemma invoke_quiet :
  forall (callbacks : option (ErrorHandler.Callbacks (E := E))) pick w,
    ErrorHandler.quiet callbacks ->
    pick = ErrorHandler.onAuthError \/ pick = ErrorHandler.onCreditsError ->
    fst (snd (ErrorHandler.invoke callbacks pick w)) = fst w.
Proof.
  intros callbacks pick w Hq Hpick. unfold ErrorHandler.invoke.
  destruct callbacks as [cbs|]; [|reflexivity].
  destruct (pick cbs) as [f|] eqn:Hf; [|reflexivity].
  assert (H : fst (snd (f w)) = fst w).
  { apply (Hq cbs f eq_refl). destruct Hpick as [-> | ->]; auto. }
  destruct (f w) as [[u|x] w']; exact H.
Qed.

Lemma invoke_returning :
  forall (callbacks : option (ErrorHandler.Callbacks (E := E))) pick w,
    ErrorHandler.returning callbacks ->
    pick = ErrorHandler.onAuthError \/ pick = ErrorHandler.onCreditsError ->
    fst (ErrorHandler.invoke callbacks pick w) = Ok tt.
Proof.
  intros callbacks pick w Hr Hpick. unfold ErrorHandler.invoke.
  destruct callbacks as [cbs|]; [|reflexivity].
  destruct (pick cbs) as [f|] eqn:Hf; [|reflexivity].
  assert (H : exists u, fst (f w) = Ok u).
  { apply (Hr cbs f eq_refl). destruct Hpick as [-> | ->]; auto. }
  destruct H as (u & H). destruct (f w) as [[u'|x] w']; simpl in *;
    [reflexivity | discriminate].
Qed.

End HandlerCalls.

(** X26.  One call of [handleError], in any state of the handler and
    with callbacks that leave the handler alone.  A cancellation error is
    ignored altogether: nothing changes, no callback runs, and a pending
    auto-clear timer stays.  Any other error is put on display with the
    message and code of [mapErrorToDetails], always as recoverable.  No
    error is both an auth and a credits error, so at most one callback
    runs; for an error that is neither, none runs and the page is left
    alone.  If the callback throws, [handleError] throws the same and no
    auto-clear timer is set for the error on display; if the call returns,
    a timer is set exactly when [autoClearMs] is a non-zero number. *)
Theorem handleError_outcome :
  forall (E : Type) (autoClearMs : option Z) (error : JsValue)
         (callbacks : option (ErrorHandler.Callbacks (E := E)))
         (w : ErrorHandler.World (E := E)),
    ErrorHandler.quiet callbacks ->
    let '(r, w') := ErrorHandler.handleError autoClearMs error callbacks w in
    let details := Errors.mapErrorToDetails error in
    let cleared := ErrorHandler.clearAutoClearTimeout (fst w) in
    (Errors.isAuthError error && Errors.isCreditsError error)%bool = false
    /\ if Errors.isCancellationError error then r = Ok tt /\ w' = w
       else
         ErrorHandler.hasError (fst w') = true
         /\ ErrorHandler.errorState (fst w')
            = ErrorHandler.mkErrorState (Some (Errors.userMessage details))
                                        (Some (Errors.code details)) true
         /\ (Errors.isAuthError error = false ->
             Errors.isCreditsError error = false ->
             r = Ok tt /\ snd w' = snd w)
         /\ match r with
            | Ok _ =>
              match ErrorHandler.autoClears autoClearMs true with
              | Some ms =>
                ErrorHandler.timers (fst w')
                = ErrorHandler.timers cleared
                  ++ [(ErrorHandler.nextTimer (fst w), ms)]
                /\ ErrorHandler.autoClearTimeout (fst w')
                   = Some (ErrorHandler.nextTimer (fst w))
              | None =>
                ErrorHandler.timers (fst w') = ErrorHandler.timers cleared
                /\ ErrorHandler.autoClearTimeout (fst w')
                   = ErrorHandler.autoClearTimeout cleared
              end
            | Throw x =>
              ErrorHandler.timers (fst w') = ErrorHandler.timers cleared
              /\ exists cbs f w0,
                  callbacks = Some cbs
                  /\ (ErrorHandler.onAuthError cbs = Some f
                      \/ ErrorHandler.onCreditsError cbs = Some f)
                  /\ fst (f w0) = Throw x
            end.
Proof.
  intros E autoClearMs error callbacks w Hq.
  pose proof (auth_or_credits error) as Hexcl.
  unfold ErrorHandler.handleError.
  destruct (Errors.isCancellationError error) eqn:Hcancel.
  { split; [exact Hexcl | now split]. }
  rewrite details_recoverable.
  set (cleared := ErrorHandler.clearAutoClearTimeout (fst w)).
  set (details := Errors.mapErrorToDetails error).
  set (s2 := ErrorHandler.mkState _ true _ _ _).
  assert (Hnext : ErrorHandler.nextTimer cleared
                  = ErrorHandler.nextTimer (fst w)).
  { subst cleared. unfold ErrorHandler.clearAutoClearTimeout.
    destruct (ErrorHandler.autoClearTimeout (fst w)) as [id|]; [|reflexivity].
    now destruct (Nat.eqb id 0). }
  assert (Hthrown :
            forall pick w0 x w1,
              pick = ErrorHandler.onAuthError
              \/ pick = ErrorHandler.onCreditsError ->
              ErrorHandler.invoke callbacks pick w0 = (Throw x, w1) ->
              exists cbs f w0,
                callbacks = Some cbs
                /\ (ErrorHandler.onAuthError cbs = Some f
                    \/ ErrorHandler.onCreditsError cbs = Some f)
                /\ fst (f w0) = Throw x).
  { intros pick w0 x w1 Hpick H. unfold ErrorHandler.invoke in H.
    destruct callbacks as [cbs|]; [|discriminate].
    destruct (pick cbs) as [f|] eqn:Hf; [|discriminate].
    exists cbs, f, w0. split; [reflexivity|]. split.
    - destruct Hpick as [-> | ->]; auto.
    - destruct (f w0) as [[u|y] w2]; [discriminate|].
      injection H as <- _. reflexivity. }
  destruct (Errors.isAuthError error) eqn:Hauth;
    destruct (Errors.isCreditsError error) eqn:Hcredits;
    try discriminate Hexcl.
  - (* an auth error *)
    pose proof (invoke_quiet callbacks ErrorHandler.onAuthError
                             (s2, snd w) Hq (or_introl eq_refl)) as Hkeep.
    destruct (ErrorHandler.invoke callbacks ErrorHandler.onAuthError
                                  (s2, snd w)) as [[u|x] w3] eqn:Hcall;
      simpl in Hkeep.
    + destruct (ErrorHandler.autoClears autoClearMs true) as [ms|];
        simpl; rewrite Hkeep; simpl;
        (split; [reflexivity|]); (split; [reflexivity|]);
        (split; [reflexivity|]); (split; [discriminate|]);
        rewrite ?Hnext; now split.
    + simpl. rewrite Hkeep. simpl.
      split; [reflexivity|]. split; [reflexivity|]. split; [reflexivity|].
      split; [discriminate|]. split; [reflexivity|].
      now apply (Hthrown ErrorHandler.onAuthError (s2, snd w) x w3);
        [left|].
  - (* a credits error *)
    pose proof (invoke_quiet callbacks ErrorHandler.onCreditsError
                             (s2, snd w) Hq (or_intror eq_refl)) as Hkeep.
    destruct (ErrorHandler.invoke callbacks ErrorHandler.onCreditsError
                                  (s2, snd w)) as [[u|x] w3] eqn:Hcall;
      simpl in Hkeep.
    + destruct (ErrorHandler.autoClears autoClearMs true) as [ms|];
        simpl; rewrite Hkeep; simpl;
        (split; [reflexivity|]); (split; [reflexivity|]);
        (split; [reflexivity|]); (split; [discriminate|]);
        rewrite ?Hnext; now split.
    + simpl. rewrite Hkeep. simpl.
      split; [reflexivity|]. split; [reflexivity|]. split; [reflexivity|].
      split; [discriminate|]. split; [reflexivity|].
      now apply (Hthrown ErrorHandler.onCreditsError (s2, snd w) x w3);
        [right|].
  - (* neither *)
    destruct (ErrorHandler.autoClears autoClearMs true) as [ms|];
      simpl; rewrite ?Hnext; repeat split; reflexivity.
Qed.

Lemma handleError_outcome_witness :
  let '(r, w') :=
    ErrorHandler.handleError (Some 5000) HandlerScenarios.sessionExpired
                             (Some HandlerScenarios.countingCallbacks)
                             (ErrorHandler.initial, 0%nat) in
  r = Ok tt
  /\ ErrorHandler.hasError (fst w') = true
  /\ ErrorHandler.errorState (fst w')
     = ErrorHandler.mkErrorState
         (Some "Your session has expired. Please sign in again.")
         (Some SESSION_EXPIRED) true
  /\ ErrorHandler.timers (fst w') = [(1%nat, 5000)]
  /\ snd w' = 1%nat.
Proof.
  pose proof (handleError_outcome
                nat (Some 5000) HandlerScenarios.sessionExpired
                (Some HandlerScenarios.countingCallbacks)
                (ErrorHandler.initial, 0%nat)) as H.
  cbv zeta in H.
  destruct (ErrorHandler.handleError
              (Some 5000) HandlerScenarios.sessionExpired
              (Some HandlerScenarios.countingCallbacks)
              (ErrorHandler.initial, 0%nat)) as [r w'] eqn:Hrun.
  vm_compute in Hrun. injection Hrun as <- <-.
  destruct H as (_ & Hshown & Hstate & _ & Htimers & _).
  { intros cbs f Hcbs Hf w. injection Hcbs as <-.
    destruct Hf as [Hf|Hf]; [injection Hf as <-; reflexivity | discriminate]. }
  split; [reflexivity|]. split; [exact Hshown|]. split; [exact Hstate|].
  split; [exact Htimers | reflexivity].
Defined.

Section HandlerTimers.

Context {E : Type}.
Variable autoClearMs : option Z.

Let settled := ErrorHandler.settled autoClearMs.

Lemma clearTimeout_only :
  forall id ms, ErrorHandler.clearTimeout id [(id, ms)] = [].
Proof.
  intros id ms. unfold ErrorHandler.clearTimeout. simpl.
  now rewrite Nat.eqb_refl.
Qed.

Lemma settled_clearAutoClearTimeout :
  forall s,
    settled s ->
    ErrorHandler.timers (ErrorHandler.clearAutoClearTimeout s) = []
    /\ ErrorHandler.nextTimer (ErrorHandler.clearAutoClearTimeout s)
       = ErrorHandler.nextTimer s.
Proof.
  intros s (_ & _ & Hs). unfold ErrorHandler.clearAutoClearTimeout.
  assert (Htimers : ErrorHandler.timers s = []
                    \/ exists id ms,
                         (1 <= id)%nat
                         /\ ErrorHandler.timers s = [(id, ms)]
                         /\ ErrorHandler.autoClearTimeout s = Some id).
  { destruct (ErrorHandler.hasError s).
    - destruct Hs as (_ & _ & Hs).
      destruct (ErrorHandler.autoClears autoClearMs true) as [ms|];
        [|now left].
      destruct Hs as (id & H1 & H2 & H3). right. now exists id, ms.
    - now left. }
  destruct Htimers as [Hnone | (id & ms & Hid & Hone & Hheld)].
  - destruct (ErrorHandler.autoClearTimeout s) as [id|]; [|now split].
    destruct (Nat.eqb id 0); simpl; [now split|].
    now rewrite Hnone.
  - rewrite Hheld. destruct (Nat.eqb id 0) eqn:H0.
    + apply Nat.eqb_eq in H0. lia.
    + simpl. rewrite Hone. now rewrite clearTimeout_only.
Qed.

Lemma settled_clearError :
  forall s, settled s -> settled (ErrorHandler.clearError s).
Proof.
  intros s Hs. destruct (settled_clearAutoClearTimeout s Hs) as (Ht & Hn).
  destruct Hs as (_ & Hnext & _).
  unfold settled, ErrorHandler.settled, ErrorHandler.clearError. simpl.
  rewrite Ht, Hn. repeat split; auto.
Qed.

Lemma settled_scheduled :
  forall s ms,
    ErrorHandler.autoClears autoClearMs true = Some ms ->
    ErrorHandler.recoverable (ErrorHandler.errorState s) = true ->
    ErrorHandler.message (ErrorHandler.errorState s) <> None ->
    ErrorHandler.code (ErrorHandler.errorState s) <> None ->
    ErrorHandler.hasError s = true ->
    ErrorHandler.timers s = [] ->
    (1 <= ErrorHandler.nextTimer s)%nat ->
    settled (ErrorHandler.scheduleClear ms s).
Proof.
  intros s ms Hms Hrec Hmsg Hcode Hshown Htimers Hnext.
  unfold settled, ErrorHandler.settled, ErrorHandler.scheduleClear. simpl.
  rewrite Hshown, Hms, Htimers. simpl.
  repeat split; auto.
  exists (ErrorHandler.nextTimer s). repeat split; auto.
Qed.

Lemma settled_setError :
  forall s message code,
    settled s -> settled (ErrorHandler.setError autoClearMs message code s).
Proof.
  intros s message code Hs.
  destruct (settled_clearAutoClearTimeout s Hs) as (Ht & Hn).
  destruct Hs as (_ & Hnext & _).
  unfold ErrorHandler.setError. cbn [ErrorHandler.errorState
                                      ErrorHandler.recoverable].
  destruct (ErrorHandler.autoClears autoClearMs true) as [ms|] eqn:Hms.
  - apply settled_scheduled; simpl; try discriminate; auto.
    now rewrite Hn.
  - unfold settled, ErrorHandler.settled. simpl. rewrite Hms, Ht, Hn.
    repeat split; auto; discriminate.
Qed.

Lemma settled_handleError :
  forall error (callbacks : option (ErrorHandler.Callbacks (E := E))) w,
    ErrorHandler.quiet callbacks -> ErrorHandler.returning callbacks ->
    settled (fst w) ->
    settled (fst (snd (ErrorHandler.handleError autoClearMs error
                                                callbacks w))).
Proof.
  intros error callbacks w Hq Hr Hs.
  destruct (settled_clearAutoClearTimeout (fst w) Hs) as (Ht & Hn).
  destruct Hs as (Hrec0 & Hnext & Hs).
  unfold ErrorHandler.handleError.
  destruct (Errors.isCancellationError error); [now repeat split|].
  rewrite details_recoverable.
  set (s2 := ErrorHandler.mkState _ true _ _ _).
  assert (Hauth :
            exists w3,
              (if Errors.isAuthError error
               then ErrorHandler.invoke callbacks ErrorHandler.onAuthError
                                        (s2, snd w)
               else (Ok tt, (s2, snd w))) = (Ok tt, w3)
              /\ fst w3 = s2).
  { destruct (Errors.isAuthError error); [|now eexists].
    pose proof (invoke_quiet callbacks ErrorHandler.onAuthError (s2, snd w)
                             Hq (or_introl eq_refl)) as H1.
    pose proof (invoke_returning callbacks ErrorHandler.onAuthError
                                 (s2, snd w) Hr (or_introl eq_refl)) as H2.
    destruct (ErrorHandler.invoke callbacks ErrorHandler.onAuthError
                                  (s2, snd w)) as [r w3].
    simpl in H1, H2. subst r. now exists w3. }
  destruct Hauth as (w3 & -> & H3).
  assert (Hcredits :
            exists w4,
              (if Errors.isCreditsError error
               then ErrorHandler.invoke callbacks ErrorHandler.onCreditsError
                                        w3
               else (Ok tt, w3)) = (Ok tt, w4)
              /\ fst w4 = s2).
  { destruct (Errors.isCreditsError error); [|now eexists].
    pose proof (invoke_quiet callbacks ErrorHandler.onCreditsError w3
                             Hq (or_intror eq_refl)) as H1.
    pose proof (invoke_returning callbacks ErrorHandler.onCreditsError
                                 w3 Hr (or_intror eq_refl)) as H2.
    destruct (ErrorHandler.invoke callbacks ErrorHandler.onCreditsError w3)
      as [r w4].
    simpl in H1, H2. subst r. exists w4. split; [reflexivity|]. congruence. }
  destruct Hcredits as (w4 & -> & H4).
  destruct (ErrorHandler.autoClears autoClearMs true) as [ms|] eqn:Hms;
    simpl; rewrite H4.
  - apply settled_scheduled; subst s2; simpl; try discriminate; auto.
    now rewrite Hn.
  - unfold settled, ErrorHandler.settled. subst s2. simpl.
    rewrite Hms, Ht, Hn.
    repeat split; auto; discriminate.
Qed.

Lemma settled_fire :
  forall id s, settled s -> settled (ErrorHandler.fire id s).
Proof.
  intros id s Hs. unfold ErrorHandler.fire.
  destruct (existsb _ (ErrorHandler.timers s)) eqn:Hpending; [|exact Hs].
  destruct Hs as (Hrec & Hnext & Hs).
  unfold settled, ErrorHandler.settled, ErrorHandler.clearError,
    ErrorHandler.clearAutoClearTimeout.
  cbn [ErrorHandler.autoClearTimeout ErrorHandler.timers
       ErrorHandler.nextTimer ErrorHandler.errorState ErrorHandler.hasError
       ErrorHandler.recoverable].
  assert (Hleft : ErrorHandler.clearTimeout id (ErrorHandler.timers s) = []).
  { destruct (ErrorHandler.hasError s).
    - destruct Hs as (_ & _ & Hs).
      destruct (ErrorHandler.autoClears autoClearMs true) as [ms|].
      + destruct Hs as (id' & _ & Hone & _). rewrite Hone in *.
        simpl in Hpending. rewrite orb_false_r in Hpending.
        apply Nat.eqb_eq in Hpending. subst id'.
        apply clearTimeout_only.
      + rewrite Hs in Hpending. discriminate.
    - destruct Hs as (_ & Hs). rewrite Hs in Hpending. discriminate. }
  rewrite Hleft.
  destruct (ErrorHandler.autoClearTimeout s) as [held|];
    [destruct (Nat.eqb held 0)|]; simpl; repeat split; auto.
Qed.

Lemma settled_run :
  forall (actions : list (ErrorHandler.Action (E := E)))
         (w : ErrorHandler.World (E := E)),
    Forall (fun a => match a with
                     | ErrorHandler.HandleError _ callbacks =>
                       ErrorHandler.quiet callbacks
                       /\ ErrorHandler.returning callbacks
                     | _ => True
                     end) actions ->
    settled (fst w) ->
    settled (fst (ErrorHandler.run autoClearMs w actions)).
Proof.
  induction actions as [|a actions IH]; intros w Hall Hs; simpl;
    [exact Hs|].
  inversion Hall as [|? ? Ha Hrest]; subst. apply IH; [exact Hrest|].
  destruct a; simpl.
  - now apply settled_clearError.
  - now apply settled_setError.
  - destruct Ha as (Hq & Hr). now apply settled_handleError.
  - now apply settled_fire.
Qed.

Lemma handler_run_settled :
  forall (actions : list (ErrorHandler.Action (E := E))) (e0 : E),
    Forall (fun a => match a with
                     | ErrorHandler.HandleError _ callbacks =>
                       ErrorHandler.quiet callbacks
                       /\ ErrorHandler.returning callbacks
                     | _ => True
                     end) actions ->
    let s := fst (ErrorHandler.run autoClearMs (ErrorHandler.initial, e0)
                                   actions) in
    ErrorHandler.recoverable (ErrorHandler.errorState s) = true
    /\ (if ErrorHandler.hasError s
        then ErrorHandler.message (ErrorHandler.errorState s) <> None
             /\ ErrorHandler.code (ErrorHandler.errorState s) <> None
        else ErrorHandler.errorState s
             = ErrorHandler.mkErrorState None None true)
    /\ match ErrorHandler.autoClears autoClearMs true with
       | Some ms =>
         if ErrorHandler.hasError s
         then exists id,
             ErrorHandler.timers s = [(id, ms)]
             /\ ErrorHandler.autoClearTimeout s = Some id
             /\ ErrorHandler.hasError (ErrorHandler.fire id s) = false
             /\ ErrorHandler.timers (ErrorHandler.fire id s) = []
         else ErrorHandler.timers s = []
       | None => ErrorHandler.timers s = []
       end.
Proof.
  intros actions e0 Hall s.
  assert (Hs : settled s).
  { apply settled_run; [exact Hall|]. simpl. repeat split; auto. }
  destruct Hs as (Hrec & Hnext & Hs). split; [exact Hrec|].
  destruct (ErrorHandler.hasError s) eqn:Hshown.
  - destruct Hs as (Hmsg & Hcode & Hs). split; [now split|].
    destruct (ErrorHandler.autoClears autoClearMs true) as [ms|];
      [|exact Hs].
    destruct Hs as (id & Hid & Hone & Hheld). exists id.
    split; [exact Hone|]. split; [exact Hheld|].
    unfold ErrorHandler.fire. rewrite Hone. simpl. rewrite Nat.eqb_refl.
    simpl. split; [reflexivity|].
    unfold ErrorHandler.clearAutoClearTimeout. simpl. rewrite Hheld.
    destruct (Nat.eqb id 0); reflexivity.
  - destruct Hs as (Hstate & Htimers). split; [exact Hstate|].
    now destruct (ErrorHandler.autoClears autoClearMs true).
Qed.

End HandlerTimers.

(** X27.  The display and the timers of the error handler, in every
    state reached from a fresh handler by calls of [clearError],
    [setError] and [handleError] (with callbacks that return and leave the
    handler alone) and by its timers firing.  The error on display is
    always marked recoverable.  With [autoClearMs] a non-zero number, an
    error is on display exactly when a timer is pending; there is then one
    timer only, the one the handler remembers, with delay [autoClearMs],
    and when it fires the error is cleared and no timer is left: a new
    error restarts the delay instead of adding a timer.  With
    [autoClearMs] unset or 0 no timer is ever pending. *)
Theorem handler_display_and_timers :
  forall (E : Type) (autoClearMs : option Z)
         (actions : list (ErrorHandler.Action (E := E))) (e0 : E),
    Forall (fun a => match a with
                     | ErrorHandler.HandleError _ callbacks =>
                       ErrorHandler.quiet callbacks
                       /\ ErrorHandler.returning callbacks
                     | _ => True
                     end) actions ->
    let s := fst (ErrorHandler.run autoClearMs (ErrorHandler.initial, e0)
                                   actions) in
    ErrorHandler.recoverable (ErrorHandler.errorState s) = true
    /\ (if ErrorHandler.hasError s
        then ErrorHandler.message (ErrorHandler.errorState s) <> None
             /\ ErrorHandler.code (ErrorHandler.errorState s) <> None
        else ErrorHandler.errorState s
             = ErrorHandler.mkErrorState None None true)
    /\ match ErrorHandler.autoClears autoClearMs true with
       | Some ms =>
         if ErrorHandler.hasError s
         then exists id,
             ErrorHandler.timers s = [(id, ms)]
             /\ ErrorHandler.autoClearTimeout s = Some id
             /\ ErrorHandler.hasError (ErrorHandler.fire id s) = false
             /\ ErrorHandler.timers (ErrorHandler.fire id s) = []
         else ErrorHandler.timers s = []
       | None => ErrorHandler.timers s = []
       end.
Proof.
  intros E autoClearMs actions e0 Hall.
  now apply handler_run_settled.
Qed.

Lemma handler_display_and_timers_witness :
  let s := fst (ErrorHandler.run
                  (Some 5000) (ErrorHandler.initial, 0%nat)
                  [ErrorHandler.SetError "This feature is coming soon!" None;
                   ErrorHandler.HandleError
                     HandlerScenarios.sessionExpired
                     (Some HandlerScenarios.countingCallbacks)]) in
  ErrorHandler.hasError s = true
  /\ ErrorHandler.timers s = [(2%nat, 5000)]
  /\ ErrorHandler.hasError (ErrorHandler.fire 2 s) = false.
Proof.
  pose proof (handler_display_and_timers
                nat (Some 5000)
                [ErrorHandler.SetError "This feature is coming soon!" None;
                 ErrorHandler.HandleError
                   HandlerScenarios.sessionExpired
                   (Some HandlerScenarios.countingCallbacks)] 0%nat) as H.
  cbv zeta in H |- *.
  destruct H as (_ & _ & H).
  { constructor; [exact I|]. constructor; [|constructor]. split.
    - intros cbs f Hcbs Hf w. injection Hcbs as <-.
      destruct Hf as [Hf|Hf];
        [injection Hf as <-; reflexivity | discriminate].
    - intros cbs f Hcbs Hf w. injection Hcbs as <-.
      destruct Hf as [Hf|Hf];
        [injection Hf as <-; now exists tt | discriminate]. }
  change (ErrorHandler.autoClears (Some 5000) true) with (Some 5000) in H.
  split; [reflexivity|].
  change (ErrorHandler.hasError
            (fst (ErrorHandler.run
                    (Some 5000) (ErrorHandler.initial, 0%nat)
                    [ErrorHandler.SetError "This feature is coming soon!" None;
                     ErrorHandler.HandleError
                       HandlerScenarios.sessionExpired
                       (Some HandlerScenarios.countingCallbacks)])))
    with true in H.
  destruct H as (id & Hone & _ & Hfired & _).
  assert (Hid : id = 2%nat).
  { vm_compute in Hone. now injection Hone as <-. }
  subst id. split; [exact Hone | exact Hfired].
Defined.

(** *** The component: failures of a batch *)

Lemma find_job_mutate_first :
  forall id f js j,
    (forall j0, Store.j_id (f j0) = Store.j_id j0) ->
    Store.find_job id js = Some j ->
    Store.find_job id (Store.mutate_first id f js) = Some (f j).
Proof.
  intros id f js j Hf. unfold Store.find_job.
  induction js as [|j0 js IH]; simpl; [discriminate|].
  destruct (String.eqb (Store.j_id j0) id) eqn:Hid; simpl.
  - intro H; injection H as <-. now rewrite Hf, Hid.
  - rewrite Hid. exact IH.
Qed.

Lemma currentJob_found :
  forall s job,
    Store.currentJob s = Some job ->
    exists first, Store.find_job (Store.j_id job) (Store.jobs s) = Some first.
Proof.
  intros s job H. unfold Store.currentJob in H. apply find_some in H.
  destruct H as (Hin & _). unfold Store.find_job.
  destruct (find (fun j => String.eqb (Store.j_id j) (Store.j_id job))
                 (Store.jobs s)) as [first|] eqn:Hfind; [now exists first|].
  exfalso. apply (find_none _ _ Hfind) in Hin.
  now rewrite String.eqb_refl in Hin.
Qed.

Section ComponentCalls.

Context {E : Type}.

Lemma aside_call :
  forall (f : Ext (App.World (E := E)) unit) w,
    App.aside f -> App.resolves f ->
    exists w',
      f w = (Ok tt, w')
      /\ fst w' = fst w
      /\ App.store (snd w') = App.store (snd w)
      /\ App.currentView (snd w') = App.currentView (snd w)
      /\ App.completions (snd w') = App.completions (snd w).
Proof.
  intros f w Ha Hr. destruct (Ha w) as (H1 & H2 & H3 & H4).
  destruct (Hr w) as ([] & H0). destruct (f w) as [r w'].
  simpl in *. subst r. now exists w'.
Qed.

Variable Date_now : nat -> Z.
Variable auth_logout : Ext (App.World (E := E)) unit.
Variable logger_error : string -> JsValue -> Ext (App.World (E := E)) unit.
Variable window_open : string -> Ext (App.World (E := E)) unit.

Hypothesis logger_error_aside : forall m e, App.aside (logger_error m e).
Hypothesis logger_error_resolves : forall m e, App.resolves (logger_error m e).
Hypothesis auth_logout_aside : App.aside auth_logout.
Hypothesis auth_logout_resolves : App.resolves auth_logout.
Hypothesis window_open_aside : forall u, App.aside (window_open u).
Hypothesis window_open_resolves : forall u, App.resolves (window_open u).

Lemma handleSignOut_call :
  forall w,
    exists w',
      App.callback (App.handleSignOut auth_logout) w = (Ok tt, w')
      /\ fst w' = ErrorHandler.clearError (fst w)
      /\ App.store (snd w') = App.store (snd w)
      /\ App.currentView (snd w') = App.login
      /\ App.completions (snd w') = App.completions (snd w).
Proof.
  intro w.
  destruct (aside_call auth_logout w auth_logout_aside auth_logout_resolves)
    as (w1 & Hcall & H1 & H2 & H3 & H4).
  unfold App.callback, App.handleSignOut, bind, lift, App.act.
  rewrite Hcall. simpl. eexists. split; [reflexivity|].
  simpl. rewrite H1, H2, H4. repeat split.
Qed.

Lemma onFailure_run :
  forall (err : JsValue) (w : App.World (E := E)),
    let s := App.store (snd w) in
    exists w' t,
      App.onFailure Date_now auth_logout logger_error window_open err w
      = (Ok tt, w', t)
      /\ App.store (snd w')
         = Store.finish
             match Store.currentJob s, error_message err with
             | Some job, Some message =>
               Store.failJob Date_now (Store.j_id job) message s
             | _, _ => s
             end
      /\ App.completions (snd w') = App.completions (snd w)
      /\ if Errors.isCancellationError err
         then App.currentView (snd w') = App.main /\ fst w' = fst w
         else if Errors.isAuthError err
              then App.currentView (snd w') = App.login
                   /\ ErrorHandler.hasError (fst w') = false
                   /\ ErrorHandler.errorState (fst w')
                      = ErrorHandler.mkErrorState None None true
              else App.currentView (snd w') = App.main
                   /\ ErrorHandler.hasError (fst w') = true
                   /\ ErrorHandler.errorState (fst w')
                      = ErrorHandler.mkErrorState
                          (Some (Errors.getUserMessage err))
                          (Some (Errors.code (Errors.mapErrorToDetails err)))
                          true.
Proof.
  intros err w s.
  set (s1 := match Store.currentJob s, error_message err with
             | Some job, Some message =>
               Store.failJob Date_now (Store.j_id job) message s
             | _, _ => s
             end).
  set (w1 := match Store.currentJob s, error_message err with
             | Some job, Some message =>
               App.withStore (Store.failJob Date_now (Store.j_id job)
                                            message) w
             | _, _ => w
             end).
  assert (Hw1 : App.store (snd w1) = s1
                /\ fst w1 = fst w
                /\ App.completions (snd w1) = App.completions (snd w)).
  { subst w1 s1. destruct (Store.currentJob s) as [job|];
      [destruct (error_message err) as [message|]|]; now repeat split. }
  destruct Hw1 as (Hstore1 & Hh1 & Hdone1).
  set (w3 := App.setView App.main (App.withStore Store.finish w1)).
  set (shown := match error_message err with
                | Some _ => err
                | None => Error (AppErrors.String_of err)
                end).
  destruct (aside_call (logger_error "Processing failed" shown) w3
                       (logger_error_aside _ _) (logger_error_resolves _ _))
    as (w4 & Hlog & H41 & H42 & H43 & H44).
  set (callbacks := Some (ErrorHandler.mkCallbacks
                            (Some (App.callback
                                     (App.handleSignOut auth_logout)))
                            (Some (window_open App.pricing)))).
  assert (Hprefix :
            forall k : M (App.World (E := E)) unit,
              ((fun w0 =>
                  match Store.currentJob (App.store (snd w0)),
                        error_message err with
                  | Some currentJob, Some message =>
                    App.act (App.withStore
                               (Store.failJob Date_now
                                              (Store.j_id currentJob)
                                              message)) w0
                  | _, _ => ret tt w0
                  end) ;;;
               App.act (App.withStore Store.finish) ;;;
               App.act (App.setView App.main) ;;;
               lift (logger_error "Processing failed" shown) ;;; k)%eff w
              = k w4).
  { intro k. unfold bind, App.act, ret, lift. fold s.
    clear Hstore1 Hh1 Hdone1 H41 H42 H43 H44. subst w3 w1.
    destruct (Store.currentJob s) as [job|];
      [destruct (error_message err) as [message|]|];
      rewrite Hlog; destruct (k w4) as [[r w'] t]; reflexivity. }
  unfold App.onFailure. fold shown. fold callbacks.
  rewrite Hprefix. unfold lift.
  assert (Hstore3 : App.store (snd w3) = Store.finish s1)
    by (simpl; now rewrite Hstore1).
  assert (Hview3 : App.currentView (snd w3) = App.main) by reflexivity.
  assert (Hdone3 : App.completions (snd w3) = App.completions (snd w))
    by exact Hdone1.
  assert (Hh3 : fst w3 = fst w) by exact Hh1.
  unfold ErrorHandler.handleError.
  destruct (Errors.isCancellationError err) eqn:Hcancel.
  { exists w4, []. split; [reflexivity|]. split; [congruence|].
    split; [congruence|]. split; congruence. }
  rewrite details_recoverable.
  change (ErrorHandler.autoClears App.autoClearMs true) with (Some 5000).
  set (s2 := ErrorHandler.mkState _ true _ _ _).
  pose proof (auth_or_credits err) as Hexcl.
  destruct (Errors.isAuthError err) eqn:Hauth.
  - destruct (Errors.isCreditsError err); [discriminate|].
    unfold ErrorHandler.invoke, callbacks.
    cbn [ErrorHandler.onAuthError].
    destruct (handleSignOut_call (s2, snd w4))
      as (w5 & Hcall & H51 & H52 & H53 & H54).
    rewrite Hcall. eexists. eexists. split; [reflexivity|].
    cbn [fst snd]. rewrite H52, H53, H54. cbn [snd].
    split; [congruence|]. split; [congruence|].
    split; [reflexivity|]. rewrite H51. split; reflexivity.
  - destruct (Errors.isCreditsError err).
    + unfold ErrorHandler.invoke, callbacks.
      cbn [ErrorHandler.onCreditsError].
      destruct (aside_call (window_open App.pricing) (s2, snd w4)
                           (window_open_aside _) (window_open_resolves _))
        as (w5 & Hcall & H51 & H52 & H53 & H54).
      rewrite Hcall. eexists. eexists. split; [reflexivity|].
      cbn [fst snd]. rewrite H52, H53, H54. cbn [snd].
      split; [congruence|]. split; [congruence|].
      split; [congruence|]. rewrite H51. split; reflexivity.
    + eexists. eexists. split; [reflexivity|]. cbn [fst snd].
      split; [congruence|]. split; [congruence|].
      split; [congruence|]. split; reflexivity.
Qed.

End ComponentCalls.

(** X28.  What the [catch] block of [processRemoveBackground] leaves
    behind, from any state, when the logger, [auth.logout] and
    [window.open] return and keep out of the component.  The block does not
    throw.  The store is finished (idle, no controller); if a job was in
    status [processing] and the value caught is an [Error], the first job
    with that job's id is now [failed] with the error's message.  A
    cancellation shows nothing: the view is [main] and the error handler
    is untouched.  An auth error signs the user out: the view is [login]
    and no message is on display, because [handleSignOut] clears the one
    [handleError] has just set.  Any other error leaves the view [main]
    with the message and code of [mapErrorToDetails] on display. *)
Theorem onFailure_outcome :
  forall (E : Type) (Date_now : nat -> Z)
         (auth_logout : Ext (App.World (E := E)) unit)
         (logger_error : string -> JsValue -> Ext (App.World (E := E)) unit)
         (window_open : string -> Ext (App.World (E := E)) unit)
         (err : JsValue) (w : App.World (E := E)),
    (forall m e, App.aside (logger_error m e)) ->
    (forall m e, App.resolves (logger_error m e)) ->
    App.aside auth_logout -> App.resolves auth_logout ->
    (forall u, App.aside (window_open u)) ->
    (forall u, App.resolves (window_open u)) ->
    let s := App.store (snd w) in
    let '(r, w', _) :=
      App.onFailure Date_now auth_logout logger_error window_open err w in
    r = Ok tt
    /\ Store.status (App.store (snd w')) = Store.Idle
    /\ Store.abortController (App.store (snd w')) = None
    /\ (forall job message,
           Store.currentJob s = Some job ->
           error_message err = Some message ->
           exists failed,
             Store.find_job (Store.j_id job) (Store.jobs (App.store (snd w')))
             = Some failed
             /\ Store.j_status failed = Store.failed
             /\ Store.j_error failed = Some message)
    /\ (Store.currentJob s = None \/ error_message err = None ->
        Store.jobs (App.store (snd w')) = Store.jobs s
        /\ Store.history (App.store (snd w')) = Store.history s)
    /\ if Errors.isCancellationError err
       then App.currentView (snd w') = App.main /\ fst w' = fst w
       else if Errors.isAuthError err
            then App.currentView (snd w') = App.login
                 /\ ErrorHandler.hasError (fst w') = false
                 /\ ErrorHandler.errorState (fst w')
                    = ErrorHandler.mkErrorState None None true
            else App.currentView (snd w') = App.main
                 /\ ErrorHandler.hasError (fst w') = true
                 /\ ErrorHandler.errorState (fst w')
                    = ErrorHandler.mkErrorState
                        (Some (Errors.getUserMessage err))
                        (Some (Errors.code (Errors.mapErrorToDetails err)))
                        true.
Proof.
  intros E Date_now auth_logout logger_error window_open err w
         H1 H2 H3 H4 H5 H6 s.
  destruct (onFailure_run Date_now auth_logout logger_error window_open
                          H1 H2 H3 H4 H5 H6 err w)
    as (w' & t & -> & Hstore & _ & Hshown).
  fold s in Hstore.
  split; [reflexivity|]. rewrite Hstore.
  split; [reflexivity|]. split; [reflexivity|].
  split; [|split; [|exact Hshown]].
  - intros job message Hjob Hmsg. rewrite Hjob, Hmsg. simpl.
    destruct (currentJob_found s job Hjob) as (first & Hfirst).
    unfold Store.failJob. rewrite Hfirst. simpl.
    eexists. split.
    + apply find_job_mutate_first; [reflexivity | exact Hfirst].
    + now split.
  - intros [Hnone | Hnone]; rewrite Hnone.
    + now split.
    + destruct (Store.currentJob s); now split.
Qed.

Section ComponentBatch.

Context {E : Type}.
Variable Date_now : nat -> Z.
Variable api : Api.ApiService (App.World (E := E)).
Variable applyMaskToImage
  : Uint8Array -> Uint8Array -> Ext (App.World (E := E)) Uint8Array.
Variable penpot_exportImage : string -> Ext (App.World (E := E)) Uint8Array.
Variable penpot_createImageFromData
  : string -> Uint8Array -> string -> Ext (App.World (E := E)) unit.
Variable auth_logout : Ext (App.World (E := E)) unit.
Variable auth_refreshAccountInfo : Ext (App.World (E := E)) unit.
Variable logger_info : string -> Ext (App.World (E := E)) unit.
Variable logger_error : string -> JsValue -> Ext (App.World (E := E)) unit.
Variable window_open : string -> Ext (App.World (E := E)) unit.

Hypothesis logger_info_aside : forall m, App.aside (logger_info m).
Hypothesis logger_info_resolves : forall m, App.resolves (logger_info m).
Hypothesis logger_error_aside : forall m e, App.aside (logger_error m e).
Hypothesis logger_error_resolves : forall m e, App.resolves (logger_error m e).
Hypothesis auth_logout_aside : App.aside auth_logout.
Hypothesis auth_logout_resolves : App.resolves auth_logout.
Hypothesis auth_refreshAccountInfo_aside : App.aside auth_refreshAccountInfo.
Hypothesis window_open_aside : forall u, App.aside (window_open u).
Hypothesis window_open_resolves : forall u, App.resolves (window_open u).

Let attempt :=
  App.attempt Date_now api applyMaskToImage penpot_exportImage
              penpot_createImageFromData auth_refreshAccountInfo logger_info.

Lemma attempt_resolved :
  forall images signal w w' t,
    attempt images signal w = (Ok tt, w', t) ->
    Store.status (App.store (snd w')) = Store.Idle
    /\ Store.abortController (App.store (snd w')) = None
    /\ exists pending,
        App.completions (snd w') = pending ++ [App.completionDelay].
Proof.
  intros images signal w w' t. unfold attempt, App.attempt, bind.
  destruct (Pipeline.process _ _ _ _ _ _ _ w) as [[[[]|x] w1] t1];
    [|discriminate].
  unfold App.act at 1.
  set (w2 := App.withStore Store.finish w1).
  unfold lift at 1.
  destruct (auth_refreshAccountInfo_aside w2) as (_ & Hstore3 & _ & _).
  destruct (auth_refreshAccountInfo w2) as [[[]|x] w3]; [|discriminate].
  unfold lift.
  destruct (aside_call (logger_info "Processing completed") w3
                       (logger_info_aside _) (logger_info_resolves _))
    as (w4 & Hlog & _ & Hstore4 & _ & _).
  rewrite Hlog. unfold App.act. intro H. injection H as <- _.
  simpl in *. rewrite Hstore4, Hstore3. simpl.
  split; [reflexivity|]. split; [reflexivity|]. now eexists.
Qed.

Lemma processRemoveBackground_settles :
  forall images w,
    let '(r, w', _) :=
      App.processRemoveBackground
        Date_now api applyMaskToImage penpot_exportImage
        penpot_createImageFromData auth_logout auth_refreshAccountInfo
        logger_info logger_error window_open images w in
    r = Ok tt
    /\ (images = [] -> w' = w)
    /\ (images <> [] ->
        Store.status (App.store (snd w')) = Store.Idle
        /\ Store.abortController (App.store (snd w')) = None
        /\ (App.currentView (snd w') = App.main
            \/ App.currentView (snd w') = App.login
            \/ exists pending,
                App.completions (snd w')
                = pending ++ [App.completionDelay])).
Proof.
  intros images w. destruct images as [|image images].
  { simpl. split; [reflexivity|]. split; [reflexivity|]. now intros []. }
  unfold App.processRemoveBackground.
  set (batch := image :: images).
  unfold bind at 1. unfold App.act at 1.
  unfold bind at 1. unfold App.act at 1.
  unfold bind at 1.
  destruct (Store.startBatch _ _) as [s0 c].
  unfold bind at 1. unfold lift at 1.
  match goal with
  | |- context [logger_info "Processing started" ?w0] =>
    destruct (aside_call (logger_info "Processing started") w0
                         (logger_info_aside _) (logger_info_resolves _))
      as (w1 & Hlog & _)
  end.
  rewrite Hlog. unfold try_catch.
  fold attempt.
  destruct (attempt batch c w1) as [[[[]|err] w2] t2] eqn:Hattempt.
  - destruct (attempt_resolved batch c w1 w2 t2 Hattempt)
      as (Hidle & Hctrl & Hpending).
    split; [reflexivity|]. split; [discriminate|]. intros _.
    split; [exact Hidle|]. split; [exact Hctrl|]. right. right.
    exact Hpending.
  - destruct (onFailure_run Date_now auth_logout logger_error window_open
                            logger_error_aside logger_error_resolves
                            auth_logout_aside auth_logout_resolves
                            window_open_aside window_open_resolves err w2)
      as (w3 & t3 & -> & Hstore & _ & Hshown).
    split; [reflexivity|]. split; [discriminate|]. intros _.
    rewrite Hstore. split; [reflexivity|]. split; [reflexivity|].
    destruct (Errors.isCancellationError err).
    + left. apply Hshown.
    + destruct (Errors.isAuthError err).
      * right. left. apply Hshown.
      * left. apply Hshown.
Qed.

End ComponentBatch.

(** X29.  [processRemoveBackground] never rejects and never leaves the
    component in the middle of a batch, whatever the images, the state it
    starts in and the behaviour of the Penpot bridge, the remote API and
    the image processing -- resolving, rejecting, or running while the
    user cancels -- provided the logger, [auth.logout] and [window.open]
    return, and they and [auth.refreshAccountInfo] keep out of the
    component.  With no image it does nothing.  Otherwise, when it
    resolves the store is idle with no controller, and the processing view
    has been left for [main] or [login] or the timer that will leave it is
    pending. *)
Theorem processRemoveBackground_always_settles :
  forall (E : Type) (Date_now : nat -> Z)
         (api : Api.ApiService (App.World (E := E)))
         (applyMaskToImage
          : Uint8Array -> Uint8Array -> Ext (App.World (E := E)) Uint8Array)
         (penpot_exportImage : string -> Ext (App.World (E := E)) Uint8Array)
         (penpot_createImageFromData
          : string -> Uint8Array -> string -> Ext (App.World (E := E)) unit)
         (auth_logout auth_refreshAccountInfo : Ext (App.World (E := E)) unit)
         (logger_info : string -> Ext (App.World (E := E)) unit)
         (logger_error : string -> JsValue -> Ext (App.World (E := E)) unit)
         (window_open : string -> Ext (App.World (E := E)) unit)
         (images : list Pipeline.PenpotImageInfo) (w : App.World (E := E)),
    (forall m, App.aside (logger_info m)) ->
    (forall m, App.resolves (logger_info m)) ->
    (forall m e, App.aside (logger_error m e)) ->
    (forall m e, App.resolves (logger_error m e)) ->
    App.aside auth_logout -> App.resolves auth_logout ->
    App.aside auth_refreshAccountInfo ->
    (forall u, App.aside (window_open u)) ->
    (forall u, App.resolves (window_open u)) ->
    let '(r, w', _) :=
      App.processRemoveBackground
        Date_now api applyMaskToImage penpot_exportImage
        penpot_createImageFromData auth_logout auth_refreshAccountInfo
        logger_info logger_error window_open images w in
    r = Ok tt
    /\ (images = [] -> w' = w)
    /\ (images <> [] ->
        Store.status (App.store (snd w')) = Store.Idle
        /\ Store.abortController (App.store (snd w')) = None
        /\ (App.currentView (snd w') = App.main
            \/ App.currentView (snd w') = App.login
            \/ exists pending,
                App.completions (snd w')
                = pending ++ [App.completionDelay])).
Proof.
  intros E Date_now api applyMaskToImage penpot_exportImage
         penpot_createImageFromData auth_logout auth_refreshAccountInfo
         logger_info logger_error window_open images w
         H1 H2 H3 H4 H5 H6 H7 H8 H9.
  now apply processRemoveBackground_settles.
Qed.

Lemma onFailure_outcome_witness :
  let '(r, w', _) :=
    App.onFailure Scenario.clock (AppScenarios.silent tt)
                  (fun _ _ => AppScenarios.silent tt)
                  (fun _ => AppScenarios.silent tt)
                  Scenario.networkError AppScenarios.exportingFirst in
  r = Ok tt
  /\ Store.status (App.store (snd w')) = Store.Idle
  /\ (exists failed,
         Store.find_job "1" (Store.jobs (App.store (snd w'))) = Some failed
         /\ Store.j_status failed = Store.failed
         /\ Store.j_error failed = Some "Network error")
  /\ App.currentView (snd w') = App.main
  /\ ErrorHandler.hasError (fst w') = true.
Proof.
  pose proof (onFailure_outcome
                unit Scenario.clock (AppScenarios.silent tt)
                (fun _ _ => AppScenarios.silent tt)
                (fun _ => AppScenarios.silent tt)
                Scenario.networkError AppScenarios.exportingFirst) as H.
  cbv zeta in H.
  destruct (App.onFailure Scenario.clock (AppScenarios.silent tt)
                          (fun _ _ => AppScenarios.silent tt)
                          (fun _ => AppScenarios.silent tt)
                          Scenario.networkError AppScenarios.exportingFirst)
    as [[r w'] t].
  destruct H as (Hr & Hidle & _ & Hjob & _ & Hshown);
    try (intros; intro w; now repeat split);
    try (intros; intro w; now exists tt).
  destruct Hshown as (Hview & Herror & _).
  split; [exact Hr|]. split; [exact Hidle|].
  split; [|split; [exact Hview | exact Herror]].
  exact (Hjob (Store.mkJob "1" "Image 1" Store.processing 0
                           "Exporting Image 1..." None (Some 1000) None)
              "Network error" eq_refl eq_refl).
Defined.

Lemma processRemoveBackground_always_settles_witness :
  let '(r, w', _) :=
    App.processRemoveBackground
      Scenario.clock AppScenarios.steadyApi
      (fun _ _ => AppScenarios.silent [])
      (fun _ w => (Throw Scenario.networkError, w))
      (fun _ _ _ => AppScenarios.silent tt)
      (AppScenarios.silent tt) (AppScenarios.silent tt)
      (fun _ => AppScenarios.silent tt)
      (fun _ _ => AppScenarios.silent tt)
      (fun _ => AppScenarios.silent tt)
      [Scenario.image1] AppScenarios.idle in
  r = Ok tt
  /\ Store.status (App.store (snd w')) = Store.Idle
  /\ Store.abortController (App.store (snd w')) = None
  /\ App.currentView (snd w') = App.main.
Proof.
  pose proof (processRemoveBackground_always_settles
                unit Scenario.clock AppScenarios.steadyApi
                (fun _ _ => AppScenarios.silent [])
                (fun _ w => (Throw Scenario.networkError, w))
                (fun _ _ _ => AppScenarios.silent tt)
                (AppScenarios.silent tt) (AppScenarios.silent tt)
                (fun _ => AppScenarios.silent tt)
                (fun _ _ => AppScenarios.silent tt)
                (fun _ => AppScenarios.silent tt)
                [Scenario.image1] AppScenarios.idle) as H.
  destruct (App.processRemoveBackground
              Scenario.clock AppScenarios.steadyApi
              (fun _ _ => AppScenarios.silent [])
              (fun _ w => (Throw Scenario.networkError, w))
              (fun _ _ _ => AppScenarios.silent tt)
              (AppScenarios.silent tt) (AppScenarios.silent tt)
              (fun _ => AppScenarios.silent tt)
              (fun _ _ => AppScenarios.silent tt)
              (fun _ => AppScenarios.silent tt)
              [Scenario.image1] AppScenarios.idle)
    as [[r w'] t] eqn:Hrun.
  destruct H as (Hr & _ & Hsettled);
    try (intros; intro w; now repeat split);
    try (intros; intro w; now exists tt).
  destruct (Hsettled ltac:(discriminate)) as (Hidle & Hctrl & _).
  split; [exact Hr|]. split; [exact Hidle|]. split; [exact Hctrl|].
  vm_compute in Hrun. injection Hrun as _ <- _. reflexivity.
Defined.

(** *** The component: a batch on which nothing goes wrong *)

Lemma run_app :
  forall Date_now s a b,
    Store.run Date_now s (a ++ b)
    = Store.run Date_now (Store.run Date_now s a) b.
Proof. intros. unfold Store.run. apply fold_left_app. Qed.

(** Progress reports and completions leave the controllers and the
    status of the store alone. *)
Lemma step_keeps_controllers :
  forall Date_now s a,
    match a with
    | Store.UpdateJobProgress _ _ _ | Store.CompleteJob _ => True
    | _ => False
    end ->
    Store.controllers (Store.step Date_now s a) = Store.controllers s
    /\ Store.abortController (Store.step Date_now s a)
       = Store.abortController s
    /\ Store.status (Store.step Date_now s a) = Store.status s.
Proof.
  intros Date_now s a Ha. destruct a; try contradiction; simpl.
  - unfold Store.updateJobProgress.
    destruct (Store.find_job id (Store.jobs s)); now repeat split.
  - unfold Store.completeJob.
    destruct (Store.find_job id (Store.jobs s)); now repeat split.
Qed.

Lemma run_keeps_controllers :
  forall Date_now actions s,
    Forall (fun a => match a with
                     | Store.UpdateJobProgress _ _ _
                     | Store.CompleteJob _ => True
                     | _ => False
                     end) actions ->
    Store.controllers (Store.run Date_now s actions) = Store.controllers s
    /\ Store.abortController (Store.run Date_now s actions)
       = Store.abortController s
    /\ Store.status (Store.run Date_now s actions) = Store.status s.
Proof.
  intros Date_now actions. induction actions as [|a actions IH];
    intros s Hall; simpl; [now repeat split|].
  inversion Hall as [|? ? Ha Hrest]; subst.
  destruct (IH (Store.step Date_now s a) Hrest) as (H1 & H2 & H3).
  destruct (step_keeps_controllers Date_now s a Ha) as (H4 & H5 & H6).
  repeat split; congruence.
Qed.

Lemma actionsFrom_reports :
  forall images total i,
    Forall (fun a => match a with
                     | Store.UpdateJobProgress _ _ _
                     | Store.CompleteJob _ => True
                     | _ => False
                     end) (App.actionsFrom total i images).
Proof.
  induction images as [|image images IH]; intros total i; simpl;
    repeat constructor. apply IH.
Qed.

Lemma find_job_at :
  forall x done j rest,
    ~ In x (map Store.j_id done) -> Store.j_id j = x ->
    Store.find_job x (done ++ j :: rest) = Some j.
Proof.
  intros x done j rest Hnot Hj. unfold Store.find_job.
  induction done as [|d done IH]; simpl in *.
  - now rewrite Hj, String.eqb_refl.
  - destruct (String.eqb (Store.j_id d) x) eqn:Hd.
    + apply String.eqb_eq in Hd. exfalso. apply Hnot. now left.
    + apply IH. intro H. apply Hnot. now right.
Qed.

Lemma mutate_first_at :
  forall x f done j rest,
    ~ In x (map Store.j_id done) -> Store.j_id j = x ->
    Store.mutate_first x f (done ++ j :: rest) = done ++ f j :: rest.
Proof.
  intros x f done j rest Hnot Hj.
  induction done as [|d done IH]; simpl in *.
  - now rewrite Hj, String.eqb_refl.
  - destruct (String.eqb (Store.j_id d) x) eqn:Hd.
    + apply String.eqb_eq in Hd. exfalso. apply Hnot. now left.
    + f_equal. apply IH. intro H. apply Hnot. now right.
Qed.

Section StoreBatch.

Variable Date_now : nat -> Z.

(** A progress report for the job at the head of the jobs that are not
    done yet: the job is, or becomes, [processing]. *)
Lemma report_at :
  forall s done j rest x progress stage,
    Store.jobs s = done ++ j :: rest ->
    ~ In x (map Store.j_id done) ->
    Store.j_id j = x ->
    Store.j_status j = Store.pending \/ Store.j_status j = Store.processing ->
    Store.j_error j = None ->
    exists j',
      Store.jobs (Store.updateJobProgress Date_now x progress stage s)
      = done ++ j' :: rest
      /\ Store.j_id j' = x
      /\ Store.j_name j' = Store.j_name j
      /\ Store.j_status j' = Store.processing
      /\ Store.j_error j' = None
      /\ Store.history (Store.updateJobProgress Date_now x progress stage s)
         = Store.history s.
Proof.
  intros s done j rest x progress stage Hjobs Hnot Hid Hstatus Herror.
  unfold Store.updateJobProgress. rewrite Hjobs.
  rewrite (find_job_at x done j rest Hnot Hid).
  simpl. rewrite (mutate_first_at x _ done j rest Hnot Hid).
  eexists. split; [reflexivity|].
  destruct Hstatus as [H | H]; rewrite H; simpl; repeat split; auto.
Qed.

Lemma complete_at :
  forall s done j rest (image : Pipeline.PenpotImageInfo),
    Store.jobs s = done ++ j :: rest ->
    ~ In (Pipeline.id image) (map Store.j_id done) ->
    Store.j_id j = Pipeline.id image ->
    Store.j_name j = Pipeline.name image ->
    Store.j_error j = None ->
    exists j' entry,
      Store.jobs (Store.completeJob Date_now (Pipeline.id image) s)
      = done ++ j' :: rest
      /\ App.finished image j'
      /\ Store.history (Store.completeJob Date_now (Pipeline.id image) s)
         = entry :: Store.history s
      /\ App.recorded image entry.
Proof.
  intros s done j rest image Hjobs Hnot Hid Hname Herror.
  unfold Store.completeJob. rewrite Hjobs.
  rewrite (find_job_at (Pipeline.id image) done j rest Hnot Hid).
  simpl. rewrite (mutate_first_at _ _ done j rest Hnot Hid).
  eexists. eexists. split; [reflexivity|].
  split; [now repeat split|]. split; [reflexivity|]. now repeat split.
Qed.

Lemma item_store :
  forall s done j rest total i (image : Pipeline.PenpotImageInfo),
    Store.jobs s = done ++ j :: rest ->
    ~ In (Pipeline.id image) (map Store.j_id done) ->
    Store.j_id j = Pipeline.id image ->
    Store.j_name j = Pipeline.name image ->
    Store.j_status j = Store.pending ->
    Store.j_error j = None ->
    let s' := Store.run Date_now s
                        (App.reportsOf total i image
                         ++ [Store.CompleteJob (Pipeline.id image)]) in
    exists j' entry,
      Store.jobs s' = done ++ j' :: rest
      /\ App.finished image j'
      /\ Store.history s' = entry :: Store.history s
      /\ App.recorded image entry.
Proof.
  intros s done j rest total i image Hjobs Hnot Hid Hname Hstatus Herror.
  cbn [App.reportsOf app Store.run fold_left Store.step].
  destruct (report_at s done j rest (Pipeline.id image) (App.percent i total)
                      ("Exporting " ++ Pipeline.name image ++ "...")%string
                      Hjobs Hnot Hid (or_introl Hstatus) Herror)
    as (j1 & Hj1 & Hid1 & Hname1 & Hst1 & Herr1 & Hh1).
  destruct (report_at _ done j1 rest (Pipeline.id image) (App.percent i total)
                      ("Processing " ++ Pipeline.name image ++ "...")%string
                      Hj1 Hnot Hid1 (or_intror Hst1) Herr1)
    as (j2 & Hj2 & Hid2 & Hname2 & Hst2 & Herr2 & Hh2).
  destruct (report_at _ done j2 rest (Pipeline.id image) (App.percent i total)
                      "Downloading mask..."
                      Hj2 Hnot Hid2 (or_intror Hst2) Herr2)
    as (j3 & Hj3 & Hid3 & Hname3 & Hst3 & Herr3 & Hh3).
  destruct (report_at _ done j3 rest (Pipeline.id image) (App.percent i total)
                      "Applying mask..."
                      Hj3 Hnot Hid3 (or_intror Hst3) Herr3)
    as (j4 & Hj4 & Hid4 & Hname4 & Hst4 & Herr4 & Hh4).
  destruct (report_at _ done j4 rest (Pipeline.id image)
                      (App.percent (i + 1) total)
                      ("Completed " ++ Pipeline.name image)%string
                      Hj4 Hnot Hid4 (or_intror Hst4) Herr4)
    as (j5 & Hj5 & Hid5 & Hname5 & Hst5 & Herr5 & Hh5).
  destruct (complete_at _ done j5 rest image Hj5 Hnot Hid5)
    as (j' & entry & Hj' & Hfin & Hh' & Hrec);
    try congruence.
  exists j', entry. split; [exact Hj'|]. split; [exact Hfin|].
  split; [|exact Hrec]. rewrite Hh'. congruence.
Qed.

(** The job [startBatch] creates for an image. *)
Let queued (image : Pipeline.PenpotImageInfo) : Store.ProcessingJob :=
  Store.mkJob (Pipeline.id image) (Pipeline.name image) Store.pending 0
              "Queued" None None None.

Lemma batch_store :
  forall (rest : list Pipeline.PenpotImageInfo) s done total i,
    Store.jobs s = done ++ map queued rest ->
    NoDup (map Pipeline.id rest) ->
    (forall image, In image rest ->
                   ~ In (Pipeline.id image) (map Store.j_id done)) ->
    let s' := Store.run Date_now s (App.actionsFrom total i rest) in
    exists done' entries,
      Store.jobs s' = done ++ done'
      /\ Forall2 App.finished rest done'
      /\ Store.history s' = entries ++ Store.history s
      /\ Forall2 App.recorded (rev rest) entries.
Proof.
  induction rest as [|image rest IH]; intros s done total i Hjobs Hnodup Hnew.
  - exists [], []. simpl in *. repeat split; auto.
  - cbn [App.actionsFrom]. cbv zeta. rewrite app_assoc, run_app.
    simpl map in Hjobs.
    destruct (item_store s done (queued image) (map queued rest) total i image
                         Hjobs (Hnew image (or_introl eq_refl))
                         eq_refl eq_refl eq_refl eq_refl)
      as (j' & entry & Hj' & Hfin & Hh' & Hrec).
    inversion Hnodup as [|? ? Hfresh Hnodup']; subst.
    destruct (IH (Store.run Date_now s
                            (App.reportsOf total i image
                             ++ [Store.CompleteJob (Pipeline.id image)]))
                 (done ++ [j']) total (i + 1))
      as (done' & entries & Hjobs' & Hall & Hhist & Hentries).
    + rewrite Hj'. now rewrite <- app_assoc.
    + exact Hnodup'.
    + intros image' Hin H. rewrite map_app in H. apply in_app_or in H.
      destruct H as [H | [H | []]].
      * apply (Hnew image' (or_intror Hin) H).
      * apply Hfresh. destruct Hfin as (Hid & _). rewrite Hid in H.
        rewrite H. now apply in_map.
    + exists (j' :: done'), (entries ++ [entry]).
      split; [rewrite Hjobs'; now rewrite <- app_assoc|].
      split; [now constructor|].
      split; [rewrite Hhist, Hh'; now rewrite <- app_assoc|].
      simpl. apply Forall2_app; [exact Hentries | now constructor].
Qed.

End StoreBatch.

Section ComponentSuccess.

Context {E : Type}.
Variable Date_now : nat -> Z.
Variable api : Api.ApiService (App.World (E := E)).
Variable applyMaskToImage
  : Uint8Array -> Uint8Array -> Ext (App.World (E := E)) Uint8Array.
Variable penpot_exportImage : string -> Ext (App.World (E := E)) Uint8Array.
Variable penpot_createImageFromData
  : string -> Uint8Array -> string -> Ext (App.World (E := E)) unit.
Variable auth_logout : Ext (App.World (E := E)) unit.
Variable auth_refreshAccountInfo : Ext (App.World (E := E)) unit.
Variable logger_info : string -> Ext (App.World (E := E)) unit.
Variable logger_error : string -> JsValue -> Ext (App.World (E := E)) unit.
Variable window_open : string -> Ext (App.World (E := E)) unit.

Hypothesis export_aside : forall id, App.aside (penpot_exportImage id).
Hypothesis export_resolves : forall id, App.resolves (penpot_exportImage id).
Hypothesis remove_aside :
  forall data filename signal,
    App.aside (App.callback (Api.removeBackground api data filename signal)).
Hypothesis remove_resolves :
  forall data filename signal,
    App.resolves (App.callback
                    (Api.removeBackground api data filename signal)).
Hypothesis download_aside :
  forall url signal, App.aside (App.callback (Api.downloadMask api url signal)).
Hypothesis download_resolves :
  forall url signal,
    App.resolves (App.callback (Api.downloadMask api url signal)).
Hypothesis apply_aside :
  forall original mask, App.aside (applyMaskToImage original mask).
Hypothesis apply_resolves :
  forall original mask, App.resolves (applyMaskToImage original mask).
Hypothesis create_aside :
  forall name data id, App.aside (penpot_createImageFromData name data id).
Hypothesis create_resolves :
  forall name data id, App.resolves (penpot_createImageFromData name data id).
Hypothesis refresh_aside : App.aside auth_refreshAccountInfo.
Hypothesis refresh_resolves : App.resolves auth_refreshAccountInfo.
Hypothesis logger_info_aside : forall m, App.aside (logger_info m).
Hypothesis logger_info_resolves : forall m, App.resolves (logger_info m).

(** Two worlds that show the same component. *)
Let same (w w' : App.World (E := E)) : Prop :=
  fst w' = fst w
  /\ App.currentView (snd w') = App.currentView (snd w)
  /\ App.completions (snd w') = App.completions (snd w).

Lemma aside_value :
  forall (A : Type) (f : Ext (App.World (E := E)) A) w,
    App.aside f -> App.resolves f ->
    exists a w',
      f w = (Ok a, w')
      /\ App.store (snd w') = App.store (snd w) /\ same w w'.
Proof.
  intros A f w Ha Hr. destruct (Ha w) as (H1 & H2 & H3 & H4).
  destruct (Hr w) as (a & H0). destruct (f w) as [r w'].
  simpl in *. subst r. exists a, w'. now repeat split.
Qed.

Lemma aside_request :
  forall (A : Type) (m : M (App.World (E := E)) A) w,
    App.aside (App.callback m) -> App.resolves (App.callback m) ->
    exists a w' t,
      m w = (Ok a, w', t)
      /\ App.store (snd w') = App.store (snd w) /\ same w w'.
Proof.
  intros A m w Ha Hr. destruct (Ha w) as (H1 & H2 & H3 & H4).
  destruct (Hr w) as (a & H0). unfold App.callback in *.
  destruct (m w) as [[r w'] t].
  simpl in *. subst r. exists a, w', t. now repeat split.
Qed.

Lemma item_run :
  forall (total i : Z) (image : Pipeline.PenpotImageInfo) (signal : nat)
         (w : App.World (E := E)),
    Store.signal_aborted (App.store (snd w)) signal = false ->
    exists out w' t,
      Pipeline.process_item api applyMaskToImage penpot_exportImage
                            (App.onProgress Date_now)
                            (Some (App.signalOf signal)) total i image w
      = (Ok (mkResult (Pipeline.id image)
                      (Pipeline.name image ++ " - No BG")%string out), w', t)
      /\ App.store (snd w')
         = Store.run Date_now (App.store (snd w))
                     (App.reportsOf total i image)
      /\ same w w'.
Proof.
  intros total i image signal w Hlive.
  assert (Hreport :
            forall (w0 : App.World (E := E)) current status,
              Store.signal_aborted (App.store (snd w0)) signal = false ->
              let p := mkProgress current total status (Pipeline.id image) in
              forall stage,
                exists w1,
                  App.onProgress Date_now (p stage) w0 = (Ok tt, w1)
                  /\ App.store (snd w1)
                     = Store.step Date_now (App.store (snd w0))
                                  (Store.UpdateJobProgress
                                     (Pipeline.id image)
                                     (App.percent current total) status)
                  /\ same w0 w1
                  /\ Store.signal_aborted (App.store (snd w1)) signal = false).
  { intros w0 current status Hw0 p stage. eexists.
    split; [reflexivity|]. split; [reflexivity|]. split; [now repeat split|].
    simpl. unfold Store.signal_aborted.
    destruct (step_keeps_controllers
                Date_now (App.store (snd w0))
                (Store.UpdateJobProgress (Pipeline.id image)
                                         (App.percent current total) status) I)
      as (Hc & _).
    simpl in Hc. rewrite Hc. exact Hw0. }
  destruct (Hreport w i ("Exporting " ++ Pipeline.name image ++ "...")%string
                    Hlive exporting) as (w1 & Hp1 & Hs1 & Hsame1 & Hl1).
  destruct (aside_value _ (penpot_exportImage (Pipeline.id image)) w1
                        (export_aside _) (export_resolves _))
    as (imageData & w2 & Hex & Hs2 & Hsame2).
  assert (Hl2 : Store.signal_aborted (App.store (snd w2)) signal = false)
    by now rewrite Hs2.
  destruct (Hreport w2 i ("Processing " ++ Pipeline.name image ++ "...")%string
                    Hl2 processing) as (w3 & Hp2 & Hs3 & Hsame3 & Hl3).
  destruct (aside_request
              _ (Api.removeBackground api imageData
                                      (Pipeline.name image ++ ".png")%string
                                      (Some (App.signalOf signal))) w3
              (remove_aside _ _ _) (remove_resolves _ _ _))
    as (response & w4 & t4 & Hrb & Hs4 & Hsame4).
  assert (Hl4 : Store.signal_aborted (App.store (snd w4)) signal = false)
    by now rewrite Hs4.
  destruct (Hreport w4 i "Downloading mask..." Hl4 downloading)
    as (w5 & Hp3 & Hs5 & Hsame5 & Hl5).
  destruct (aside_request
              _ (Api.downloadMask api (Api.output_url (Api.result response))
                                  (Some (App.signalOf signal))) w5
              (download_aside _ _) (download_resolves _ _))
    as (maskData & w6 & t6 & Hdl & Hs6 & Hsame6).
  assert (Hl6 : Store.signal_aborted (App.store (snd w6)) signal = false)
    by now rewrite Hs6.
  destruct (Hreport w6 i "Applying mask..." Hl6 applying)
    as (w7 & Hp4 & Hs7 & Hsame7 & Hl7).
  destruct (aside_value _ (applyMaskToImage imageData maskData) w7
                        (apply_aside _ _) (apply_resolves _ _))
    as (out & w8 & Hap & Hs8 & Hsame8).
  assert (Hl8 : Store.signal_aborted (App.store (snd w8)) signal = false)
    by now rewrite Hs8.
  destruct (Hreport w8 (i + 1) ("Completed " ++ Pipeline.name image)%string
                    Hl8 complete) as (w9 & Hp5 & Hs9 & Hsame9 & Hl9).
  exists out, w9. eexists. split; [|split].
  - apply (process_item_succeeds
             api applyMaskToImage penpot_exportImage (App.onProgress Date_now)
             (Some (App.signalOf signal)) total i image
             w w1 w2 w3 w4 w5 w6 w7 w8 w9 imageData maskData out response
             t4 t6); assumption.
  - rewrite Hs9, Hs8, Hs7, Hs6, Hs5, Hs4, Hs3, Hs2, Hs1. reflexivity.
  - unfold same in *.
    destruct Hsame1 as (A1 & B1 & C1), Hsame2 as (A2 & B2 & C2),
      Hsame3 as (A3 & B3 & C3), Hsame4 as (A4 & B4 & C4),
      Hsame5 as (A5 & B5 & C5), Hsame6 as (A6 & B6 & C6),
      Hsame7 as (A7 & B7 & C7), Hsame8 as (A8 & B8 & C8),
      Hsame9 as (A9 & B9 & C9).
    repeat split; congruence.
Qed.

Lemma loop_run :
  forall (rest : list Pipeline.PenpotImageInfo) (total i : Z) (signal : nat)
         (w : App.World (E := E)),
    Store.signal_aborted (App.store (snd w)) signal = false ->
    exists w' t,
      Pipeline.process_loop
        api applyMaskToImage penpot_exportImage (App.onProgress Date_now)
        (Some (App.signalOf signal))
        (App.consume Date_now penpot_createImageFromData) total i rest w
      = (Ok tt, w', t)
      /\ App.store (snd w')
         = Store.run Date_now (App.store (snd w))
                     (App.actionsFrom total i rest)
      /\ same w w'.
Proof.
  induction rest as [|image rest IH]; intros total i signal w Hlive.
  - exists w, []. now repeat split.
  - destruct (item_run total i image signal w Hlive)
      as (out & w1 & t1 & Hitem & Hs1 & A1 & B1 & C1).
    set (result := mkResult (Pipeline.id image)
                            (Pipeline.name image ++ " - No BG")%string out).
    destruct (aside_value
                _ (penpot_createImageFromData
                     (pr_name result) (pr_resultData result)
                     (pr_imageId result))
                (App.withStore (Store.completeJob Date_now
                                                  (pr_imageId result)) w1)
                (create_aside _ _ _) (create_resolves _ _ _))
      as ([] & w2 & Hcreate & Hs2 & A2 & B2 & C2).
    assert (Hstore2 : App.store (snd w2)
                      = Store.run Date_now (App.store (snd w))
                                  (App.reportsOf total i image
                                   ++ [Store.CompleteJob (Pipeline.id image)])).
    { rewrite Hs2, run_app. simpl App.store. rewrite Hs1. reflexivity. }
    assert (Hlive2 : Store.signal_aborted (App.store (snd w2)) signal = false).
    { rewrite Hstore2. unfold Store.signal_aborted.
      destruct (run_keeps_controllers
                  Date_now
                  (App.reportsOf total i image
                   ++ [Store.CompleteJob (Pipeline.id image)])
                  (App.store (snd w))) as (Hc & _).
      { repeat constructor. }
      rewrite Hc. exact Hlive. }
    destruct (IH total (i + 1) signal w2 Hlive2)
      as (w' & t & Hrest & Hs' & A' & B' & C').
    exists w'. eexists. split; [|split].
    + cbn [Pipeline.process_loop]. unfold bind, emit, lift.
      rewrite Hitem. fold result. unfold App.consume at 1.
      rewrite Hcreate, Hrest. reflexivity.
    + rewrite Hs', Hstore2. cbn [App.actionsFrom].
      rewrite app_assoc. now rewrite <- run_app.
    + simpl in *. repeat split; congruence.
Qed.

Lemma batch_run :
  forall (images : list Pipeline.PenpotImageInfo) (w : App.World (E := E)),
    images <> [] ->
    let items := map (fun img => Store.mkItem (Pipeline.id img)
                                              (Pipeline.name img)) images in
    exists w' t,
      App.processRemoveBackground
        Date_now api applyMaskToImage penpot_exportImage
        penpot_createImageFromData auth_logout auth_refreshAccountInfo
        logger_info logger_error window_open images w
      = (Ok tt, w', t)
      /\ App.store (snd w')
         = Store.finish
             (Store.run Date_now
                        (fst (Store.startBatch items (App.store (snd w))))
                        (App.actionsFrom (Z.of_nat (List.length images)) 0
                                         images))
      /\ fst w' = ErrorHandler.clearError (fst w)
      /\ App.currentView (snd w') = App.processingView
      /\ App.completions (snd w')
         = App.completions (snd w) ++ [App.completionDelay].
Proof.
  intros images w Hne items.
  destruct images as [|image images]; [now elim Hne|].
  unfold App.processRemoveBackground. subst items.
  set (batch := image :: images) in *.
  set (items := map _ batch).
  unfold bind at 1. unfold App.act at 1.
  unfold bind at 1. unfold App.act at 1.
  unfold bind at 1.
  set (w0 := App.withHandler ErrorHandler.clearError
                             (App.setView App.processingView w)).
  change (App.store (snd w0)) with (App.store (snd w)).
  destruct (Store.startBatch items (App.store (snd w))) as [s0 c] eqn:Hstart.
  set (w1 := App.withStore (fun _ => s0) w0).
  unfold bind at 1. unfold lift at 1.
  destruct (aside_value _ (logger_info "Processing started") w1
                        (logger_info_aside _) (logger_info_resolves _))
    as ([] & w2 & Hlog & Hs2 & A2 & B2 & C2).
  rewrite Hlog.
  assert (Hlive : Store.signal_aborted (App.store (snd w2)) c = false).
  { rewrite Hs2. simpl. unfold Store.startBatch in Hstart.
    injection Hstart as <- <-. unfold Store.signal_aborted. simpl.
    rewrite nth_snoc_false. now apply nth_overflow. }
  destruct (loop_run batch (Z.of_nat (List.length batch)) 0 c w2 Hlive)
    as (w3 & t3 & Hloop & Hs3 & A3 & B3 & C3).
  unfold try_catch, App.attempt, Pipeline.process.
  unfold bind at 1. rewrite Hloop.
  unfold bind at 1. unfold App.act at 1.
  set (w4 := App.withStore Store.finish w3).
  unfold bind at 1. unfold lift at 1.
  destruct (aside_value _ auth_refreshAccountInfo w4
                        refresh_aside refresh_resolves)
    as ([] & w5 & Hrefresh & Hs5 & A5 & B5 & C5).
  rewrite Hrefresh.
  unfold bind at 1. unfold lift at 1.
  destruct (aside_value _ (logger_info "Processing completed") w5
                        (logger_info_aside _) (logger_info_resolves _))
    as ([] & w6 & Hlog6 & Hs6 & A6 & B6 & C6).
  rewrite Hlog6. unfold App.act.
  eexists. eexists. split; [reflexivity|].
  cbn [fst snd App.scheduleCompletion App.store App.currentView
       App.completions].
  split; [|split; [|split]].
  - rewrite Hs6, Hs5. subst w4. simpl. rewrite Hs3, Hs2. reflexivity.
  - rewrite A6, A5. subst w4. simpl. rewrite A3, A2. reflexivity.
  - rewrite B6, B5. subst w4. simpl. rewrite B3, B2. reflexivity.
  - rewrite C6, C5. subst w4. simpl. rewrite C3, C2. reflexivity.
Qed.

End ComponentSuccess.


(** X30.  A batch on which nothing goes wrong, end to end.  If the
    images have distinct ids, the Penpot bridge, the remote API, the image
    processing, [auth.refreshAccountInfo] and the logger all resolve and
    keep out of the component, then [processRemoveBackground] resolves
    and leaves, in the order of the images, one job per image that is
    [completed] at progress 100 in stage "Done"; the history has gained
    one [completed] entry per image, the last image first; the aggregate
    progress is 100; the store is idle with no controller; no error is on
    display; and the processing view is still shown, with the completion
    timer pending whose callback shows the main view and empties the list
    of jobs. *)
Theorem processRemoveBackground_completes_batch :
  forall (E : Type) (Date_now : nat -> Z)
         (api : Api.ApiService (App.World (E := E)))
         (applyMaskToImage
          : Uint8Array -> Uint8Array -> Ext (App.World (E := E)) Uint8Array)
         (penpot_exportImage : string -> Ext (App.World (E := E)) Uint8Array)
         (penpot_createImageFromData
          : string -> Uint8Array -> string -> Ext (App.World (E := E)) unit)
         (auth_logout auth_refreshAccountInfo : Ext (App.World (E := E)) unit)
         (logger_info : string -> Ext (App.World (E := E)) unit)
         (logger_error : string -> JsValue -> Ext (App.World (E := E)) unit)
         (window_open : string -> Ext (App.World (E := E)) unit)
         (images : list Pipeline.PenpotImageInfo) (w : App.World (E := E)),
    (forall id, App.aside (penpot_exportImage id)) ->
    (forall id, App.resolves (penpot_exportImage id)) ->
    (forall data filename signal,
        App.aside (App.callback
                     (Api.removeBackground api data filename signal))) ->
    (forall data filename signal,
        App.resolves (App.callback
                        (Api.removeBackground api data filename signal))) ->
    (forall url signal,
        App.aside (App.callback (Api.downloadMask api url signal))) ->
    (forall url signal,
        App.resolves (App.callback (Api.downloadMask api url signal))) ->
    (forall original mask, App.aside (applyMaskToImage original mask)) ->
    (forall original mask, App.resolves (applyMaskToImage original mask)) ->
    (forall name data id,
        App.aside (penpot_createImageFromData name data id)) ->
    (forall name data id,
        App.resolves (penpot_createImageFromData name data id)) ->
    App.aside auth_refreshAccountInfo ->
    App.resolves auth_refreshAccountInfo ->
    (forall m, App.aside (logger_info m)) ->
    (forall m, App.resolves (logger_info m)) ->
    images <> [] ->
    NoDup (map Pipeline.id images) ->
    let '(r, w', _) :=
      App.processRemoveBackground
        Date_now api applyMaskToImage penpot_exportImage
        penpot_createImageFromData auth_logout auth_refreshAccountInfo
        logger_info logger_error window_open images w in
    let s' := App.store (snd w') in
    r = Ok tt
    /\ Forall2 App.finished images (Store.jobs s')
    /\ (exists entries,
           Store.history s' = entries ++ Store.history (App.store (snd w))
           /\ Forall2 App.recorded (rev images) entries)
    /\ Store.overallProgress s' = 100
    /\ Store.status s' = Store.Idle
    /\ Store.abortController s' = None
    /\ ErrorHandler.hasError (fst w') = false
    /\ App.currentView (snd w') = App.processingView
    /\ App.completions (snd w')
       = App.completions (snd w) ++ [App.completionDelay]
    /\ App.currentView (snd (App.completion w')) = App.main
    /\ Store.jobs (App.store (snd (App.completion w'))) = [].
Proof.
  intros E Date_now api applyMaskToImage penpot_exportImage
         penpot_createImageFromData auth_logout auth_refreshAccountInfo
         logger_info logger_error window_open images w
         H1 H2 H3 H4 H5 H6 H7 H8 H9 H10 H11 H12 H13 H14 Hne Hnodup.
  destruct (batch_run Date_now api applyMaskToImage penpot_exportImage
                      penpot_createImageFromData auth_logout
                      auth_refreshAccountInfo logger_info logger_error
                      window_open H1 H2 H3 H4 H5 H6 H7 H8 H9 H10 H11 H12
                      H13 H14 images w Hne)
    as (w' & t & -> & Hstore & Hhandler & Hview & Hdone).
  cbv zeta.
  set (items := map (fun img => Store.mkItem (Pipeline.id img)
                                             (Pipeline.name img)) images)
    in Hstore.
  set (s0 := fst (Store.startBatch items (App.store (snd w)))) in Hstore.
  destruct (batch_store Date_now images s0 []
                        (Z.of_nat (List.length images)) 0)
    as (done' & entries & Hjobs & Hall & Hhist & Hentries).
  { subst s0 items. simpl. now rewrite map_map. }
  { exact Hnodup. }
  { intros image _ []. }
  simpl in Hjobs.
  assert (Hcompleted :
            Forall (fun j => Store.j_status j = Store.completed) done').
  { clear - Hall. induction Hall as [|image j images js Hj _ IH];
      constructor; [apply Hj | exact IH]. }
  split; [reflexivity|]. rewrite Hstore.
  split; [simpl; now rewrite Hjobs|].
  split; [exists entries; simpl; rewrite Hhist; now split|].
  split.
  { apply overallProgress_all_completed; simpl; rewrite Hjobs.
    - intros ->. inversion Hall. now apply Hne.
    - exact Hcompleted. }
  split; [reflexivity|]. split; [reflexivity|].
  split; [now rewrite Hhandler|].
  split; [exact Hview|]. split; [exact Hdone|]. now split.
Qed.

Lemma processRemoveBackground_completes_batch_witness :
  let '(r, w', _) :=
    App.processRemoveBackground
      Scenario.clock AppScenarios.steadyApi
      (fun _ _ => AppScenarios.silent [])
      (fun _ => AppScenarios.silent [])
      (fun _ _ _ => AppScenarios.silent tt)
      (AppScenarios.silent tt) (AppScenarios.silent tt)
      (fun _ => AppScenarios.silent tt)
      (fun _ _ => AppScenarios.silent tt)
      (fun _ => AppScenarios.silent tt)
      [Scenario.image1; MoreScenarios.image2] AppScenarios.idle in
  r = Ok tt
  /\ Forall2 App.finished [Scenario.image1; MoreScenarios.image2]
             (Store.jobs (App.store (snd w')))
  /\ Store.overallProgress (App.store (snd w')) = 100
  /\ App.currentView (snd w') = App.processingView
  /\ App.completions (snd w') = [1000].
Proof.
  pose proof (processRemoveBackground_completes_batch
                unit Scenario.clock AppScenarios.steadyApi
                (fun _ _ => AppScenarios.silent [])
                (fun _ => AppScenarios.silent [])
                (fun _ _ _ => AppScenarios.silent tt)
                (AppScenarios.silent tt) (AppScenarios.silent tt)
                (fun _ => AppScenarios.silent tt)
                (fun _ _ => AppScenarios.silent tt)
                (fun _ => AppScenarios.silent tt)
                [Scenario.image1; MoreScenarios.image2]
                AppScenarios.idle) as H.
  cbv zeta in H.
  destruct (App.processRemoveBackground
              Scenario.clock AppScenarios.steadyApi
              (fun _ _ => AppScenarios.silent [])
              (fun _ => AppScenarios.silent [])
              (fun _ _ _ => AppScenarios.silent tt)
              (AppScenarios.silent tt) (AppScenarios.silent tt)
              (fun _ => AppScenarios.silent tt)
              (fun _ _ => AppScenarios.silent tt)
              (fun _ => AppScenarios.silent tt)
              [Scenario.image1; MoreScenarios.image2] AppScenarios.idle)
    as [[r w'] t].
  destruct H as (Hr & Hjobs & _ & Hprogress & _ & _ & _ & Hview & Hdone & _);
    try (intros; intro w; now repeat split);
    try (intros; intro w; now eexists);
    try discriminate.
  { repeat constructor; simpl; intuition discriminate. }
  split; [exact Hr|]. split; [exact Hjobs|]. split; [exact Hprogress|].
  split; [exact Hview | exact Hdone].
Defined.
